(** * k8s-controller-survey: the pattern-detection and scoring engine

    A shallow embedding of the analyzer package (signature matcher,
    pattern detector, snippet extractor, classifier) and of the models
    package it uses, with the properties of the design document stated
    and proved over it. *)

From Stdlib Require Import ZArith List String Ascii Bool Lia Arith.
Import ListNotations.

Local Open Scope string_scope.
Local Open Scope list_scope.

(** ** Go's [int]

    [int] is 64 bits wide on the platforms the tool is built for; sums
    wrap around in two's complement. *)

Module GoInt.

Local Open Scope Z_scope.

Definition min_int : Z := - 2 ^ 63.
Definition max_int : Z := 2 ^ 63 - 1.

Definition in_range (z : Z) : Prop := min_int <= z <= max_int.

(** Reduction of a mathematical integer to the representable one. *)
Definition wrap (z : Z) : Z := (z + 2 ^ 63) mod 2 ^ 64 - 2 ^ 63.

(** [a + b] on [int]. *)
Definition add (a b : Z) : Z := wrap (a + b).

End GoInt.

(** ** Go's [strings] package, as far as the analyzer calls it

    A Go string is a sequence of bytes; [string] (a list of 8-bit
    characters) represents it byte for byte, and [len] is [String.length]. *)

Module strings.

(** [strings.Contains(s, substr)]: [substr] occurs somewhere in [s]. *)
Fixpoint Contains (s substr : string) : bool :=
  String.prefix substr s ||
  match s with
  | EmptyString => false
  | String _ s' => Contains s' substr
  end.

(** [strings.HasSuffix(s, suffix)]:
    [len(s) >= len(suffix) && s[len(s)-len(suffix):] == suffix]. *)
Definition HasSuffix (s suffix : string) : bool :=
  (String.length suffix <=? String.length s)%nat &&
  (substring (String.length s - String.length suffix)
             (String.length suffix) s =? suffix)%string.

Definition code (c : ascii) : N := N_of_ascii c.

(** White space as [unicode.IsSpace] defines it, recognised on the UTF-8
    encoding: the six ASCII characters, U+0085 and U+00A0 (two bytes),
    U+1680, U+2000..U+200A, U+2028, U+2029, U+202F, U+205F and U+3000
    (three bytes). *)
Definition asciiSpace (c : ascii) : bool :=
  ((9 <=? code c) && (code c <=? 13) || (code c =? 32))%N.

Definition space2 (c1 c2 : ascii) : bool :=
  ((code c1 =? 0xC2) && ((code c2 =? 0x85) || (code c2 =? 0xA0)))%N.

Definition space3 (c1 c2 c3 : ascii) : bool :=
  ((code c1 =? 0xE1) && (code c2 =? 0x9A) && (code c3 =? 0x80)
   || (code c1 =? 0xE2) && (code c2 =? 0x80) &&
      ((0x80 <=? code c3) && (code c3 <=? 0x8A)
       || (code c3 =? 0xA8) || (code c3 =? 0xA9) || (code c3 =? 0xAF))
   || (code c1 =? 0xE2) && (code c2 =? 0x81) && (code c3 =? 0x9F)
   || (code c1 =? 0xE3) && (code c2 =? 0x80) && (code c3 =? 0x80))%N.

(** Width in bytes of the white-space character that starts at the head
    of [s]; 0 when none does.  Every such encoding begins with a byte
    that is never a continuation byte, so a white-space encoding found at
    an offset is always decoded as that character. *)
Definition spaceWidth (s : list ascii) : nat :=
  match s with
  | [] => 0
  | c1 :: r1 =>
      if asciiSpace c1 then 1
      else match r1 with
           | [] => 0
           | c2 :: r2 =>
               if space2 c1 c2 then 2
               else match r2 with
                    | [] => 0
                    | c3 :: _ => if space3 c1 c2 c3 then 3 else 0
                    end
           end
  end.

(** Leading white space removed; [skip] counts the bytes still to drop
    of the white-space character being consumed. *)
Fixpoint trimLeftFrom (skip : nat) (s : list ascii) : list ascii :=
  match s with
  | [] => []
  | _ :: s' =>
      match skip with
      | S k => trimLeftFrom k s'
      | O => match spaceWidth s with
             | S k => trimLeftFrom k s'
             | O => s
             end
      end
  end.

(** Width of the white-space character that ends [s]; 0 when none. *)
Definition trailingSpaceWidth (s : list ascii) : nat :=
  let n := List.length s in
  if ((1 <=? n) && (spaceWidth (skipn (n - 1) s) =? 1))%nat then 1
  else if ((2 <=? n) && (spaceWidth (skipn (n - 2) s) =? 2))%nat then 2
  else if ((3 <=? n) && (spaceWidth (skipn (n - 3) s) =? 3))%nat then 3
  else 0.

Fixpoint trimRightN (fuel : nat) (s : list ascii) : list ascii :=
  match fuel with
  | O => s
  | S fuel' =>
      match trailingSpaceWidth s with
      | O => s
      | w => trimRightN fuel' (firstn (List.length s - w) s)
      end
  end.

(** [strings.TrimSpace]: the white-space characters at both ends are
    removed; the fuel of the right end is the length of the text. *)
Definition TrimSpace (s : string) : string :=
  let l := trimLeftFrom 0 (list_ascii_of_string s) in
  string_of_list_ascii (trimRightN (List.length l) l).

Definition flush (cur : list ascii) : list (list ascii) :=
  match cur with
  | [] => []
  | _ => [cur]
  end.

(** The scan of [strings.Fields]: [cur] is the field being collected,
    [skip] the bytes still to drop of the current white-space
    character.  Go advances character by character; the bytes of a
    character that is not white space go to the field one and all, and
    none of its continuation bytes begins a white-space encoding, so the
    scan may take them one at a time. *)
Fixpoint fieldsFrom (skip : nat) (cur : list ascii) (s : list ascii)
  : list (list ascii) :=
  match s with
  | [] => flush cur
  | c :: s' =>
      match skip with
      | S k => fieldsFrom k cur s'
      | O => match spaceWidth s with
             | S k => flush cur ++ fieldsFrom k [] s'
             | O => fieldsFrom 0 (cur ++ [c]) s'
             end
      end
  end.

(** [strings.Fields]: the maximal runs of bytes free of white space. *)
Definition Fields (s : string) : list string :=
  map string_of_list_ascii (fieldsFrom 0 [] (list_ascii_of_string s)).

(** [strings.ToLower] on the letters A to Z; the other bytes are kept.
    It instantiates the detector's [ToLower] in the examples. *)
Definition lowerASCII (c : ascii) : ascii :=
  if ((65 <=? code c) && (code c <=? 90))%N
  then ascii_of_N (code c + 32) else c.

Fixpoint ToLowerASCII (s : string) : string :=
  match s with
  | EmptyString => EmptyString
  | String c s' => String (lowerASCII c) (ToLowerASCII s')
  end.

(** [strings.Join(elems, sep)]. *)
Definition Join (elems : list string) (sep : string) : string :=
  String.concat sep elems.

End strings.

(** ** [go/token]: positions *)

Module token.

Record Position := mkPosition {
  Filename : string;
  Offset : Z;
  Line : Z
}.

(** A file set, through the one method used: [fset.Position(p)]. *)
Definition FileSet := Z -> Position.

End token.

(** ** [go/ast]: the syntax tree

    The node kinds the analyzer dispatches on are constructors of their
    own; every other kind of expression, statement or node is an [Other]
    node holding its children in the order [ast.Walk] visits them.  The
    body of a loop is optional because the detector tests it against nil. *)

Module ast.

Scheme All for list.
Scheme All for option.

(** [Pos()] and [End()] of a node. *)
Record Span := mkSpan { Pos : Z; End_ : Z }.

Inductive expr : Type :=
| Ident (Name : string)
| SelectorExpr (X : expr) (Sel : string)
| CallExpr (sp : Span) (Fun : expr) (Args : list expr)
| StarExpr (X : expr)
| OtherExpr (children : list node)
with stmt : Type :=
| ExprStmt (X : expr)
| ReturnStmt (Results : list expr)
| BlockStmt (b : block)
| IfStmt (sp : Span) (Init : option stmt) (Cond : expr) (Body : block)
         (Else : option stmt)
| ForStmt (sp : Span) (Init : option stmt) (Cond : option expr)
          (Post : option stmt) (Body : option block)
| RangeStmt (sp : Span) (Key Value : option expr) (X : expr)
            (Body : option block)
| OtherStmt (children : list node)
with block : Type :=
| Block (List : list stmt)
with node : Type :=
| NExpr (e : expr)
| NStmt (s : stmt)
| NOther (children : list node).

Scheme expr_mind := Induction for expr Sort Prop
  with stmt_mind := Induction for stmt Sort Prop
  with block_mind := Induction for block Sort Prop
  with node_mind := Induction for node Sort Prop.

Combined Scheme ast_mutind from expr_mind, stmt_mind, block_mind, node_mind.

Definition blockList (b : block) : list stmt :=
  match b with Block l => l end.

(** Positions are recorded on the node kinds whose position is read. *)
Definition spanOf (n : node) : Span :=
  match n with
  | NExpr (CallExpr sp _ _) => sp
  | NStmt (IfStmt sp _ _ _ _) => sp
  | NStmt (ForStmt sp _ _ _ _) => sp
  | NStmt (RangeStmt sp _ _ _ _) => sp
  | _ => mkSpan 0 0
  end.

Record Field := mkField {
  Names : list string;
  Type_ : expr
}.

(** [FieldList]: [None] is the nil pointer, [Some l] has [List = l]. *)
Definition FieldList := option (list Field).

Record FuncType := mkFuncType {
  Params : FieldList;
  Results : FieldList
}.

Record FuncDecl := mkFuncDecl {
  Recv : FieldList;
  Name : string;
  FType : FuncType;          (* fn.Type *)
  Body : option block
}.

Inductive Decl : Type :=
| DFunc (fn : FuncDecl)
| DGen (children : list node).

Record File := mkFile {
  FilePos : Z;               (* file.Pos() *)
  Decls : list Decl
}.

(** [len(fl.List)], guarded by the nil test the callers make first. *)
Definition numFields (fl : FieldList) : nat :=
  match fl with
  | None => 0
  | Some l => List.length l
  end.

(** *** [ast.Inspect]

    The traversal in depth-first order: [f] is called on a node and its
    children are traversed when it answers [true].  The closure's state
    (the variables it captures and assigns) is threaded through.  The
    closing call [f(nil)] is left out: each closure of the analyzer
    answers it without touching its state. *)
Section Inspect.
Context {S : Type} (f : node -> S -> S * bool).

Definition visit (n : node) (s : S) (children : S -> S) : S :=
  let (s', descend) := f n s in
  if descend then children s' else s'.

Fixpoint inspectExpr (e : expr) (s : S) {struct e} : S :=
  visit (NExpr e) s (fun s =>
    match e with
    | Ident _ => s
    | SelectorExpr x sel =>
        visit (NExpr (Ident sel)) (inspectExpr x s) (fun s => s)
    | CallExpr _ fn args =>
        fold_left (fun acc a => inspectExpr a acc) args (inspectExpr fn s)
    | StarExpr x => inspectExpr x s
    | OtherExpr ch => fold_left (fun acc c => inspectNode c acc) ch s
    end)
with inspectStmt (st : stmt) (s : S) {struct st} : S :=
  match st with
  | BlockStmt b => inspectBlock b s
  | _ =>
    visit (NStmt st) s (fun s =>
      match st with
      | ExprStmt x => inspectExpr x s
      | ReturnStmt rs => fold_left (fun acc a => inspectExpr a acc) rs s
      | BlockStmt _ => s
      | IfStmt _ init cond body els =>
          let s := match init with Some i => inspectStmt i s | None => s end in
          let s := inspectExpr cond s in
          let s := inspectBlock body s in
          match els with Some e => inspectStmt e s | None => s end
      | ForStmt _ init cond post body =>
          let s := match init with Some i => inspectStmt i s | None => s end in
          let s := match cond with Some c => inspectExpr c s | None => s end in
          let s := match post with Some p => inspectStmt p s | None => s end in
          match body with Some b => inspectBlock b s | None => s end
      | RangeStmt _ key value x body =>
          let s := match key with Some k => inspectExpr k s | None => s end in
          let s := match value with Some v => inspectExpr v s | None => s end in
          let s := inspectExpr x s in
          match body with Some b => inspectBlock b s | None => s end
      | OtherStmt ch => fold_left (fun acc c => inspectNode c acc) ch s
      end)
  end
with inspectBlock (b : block) (s : S) {struct b} : S :=
  visit (NStmt (BlockStmt b)) s (fun s =>
    match b with
    | Block l => fold_left (fun acc x => inspectStmt x acc) l s
    end)
with inspectNode (n : node) (s : S) {struct n} : S :=
  match n with
  | NExpr e => inspectExpr e s
  | NStmt st => inspectStmt st s
  | NOther ch =>
      visit n s (fun s => fold_left (fun acc c => inspectNode c acc) ch s)
  end.
End Inspect.

(** The nodes of a tree in the order [ast.Walk] reaches them. *)
Fixpoint preorderExpr (e : expr) : list node :=
  NExpr e ::
  match e with
  | Ident _ => []
  | SelectorExpr x sel => preorderExpr x ++ [NExpr (Ident sel)]
  | CallExpr _ fn args => preorderExpr fn ++ flat_map preorderExpr args
  | StarExpr x => preorderExpr x
  | OtherExpr ch => flat_map preorderNode ch
  end
with preorderStmt (st : stmt) : list node :=
  match st with
  | ExprStmt x => NStmt st :: preorderExpr x
  | ReturnStmt rs => NStmt st :: flat_map preorderExpr rs
  | BlockStmt b => preorderBlock b
  | IfStmt _ init cond body els =>
      NStmt st ::
      match init with Some i => preorderStmt i | None => [] end ++
      preorderExpr cond ++ preorderBlock body ++
      match els with Some e => preorderStmt e | None => [] end
  | ForStmt _ init cond post body =>
      NStmt st ::
      match init with Some i => preorderStmt i | None => [] end ++
      match cond with Some c => preorderExpr c | None => [] end ++
      match post with Some p => preorderStmt p | None => [] end ++
      match body with Some b => preorderBlock b | None => [] end
  | RangeStmt _ key value x body =>
      NStmt st ::
      match key with Some k => preorderExpr k | None => [] end ++
      match value with Some v => preorderExpr v | None => [] end ++
      preorderExpr x ++
      match body with Some b => preorderBlock b | None => [] end
  | OtherStmt ch => NStmt st :: flat_map preorderNode ch
  end
with preorderBlock (b : block) : list node :=
  NStmt (BlockStmt b) ::
  match b with
  | Block l => flat_map preorderStmt l
  end
with preorderNode (n : node) : list node :=
  match n with
  | NExpr e => preorderExpr e
  | NStmt st => preorderStmt st
  | NOther ch => n :: flat_map preorderNode ch
  end.

End ast.

(** ** package [models] *)

Module models.

Record Signal := mkSignal {
  Type_ : string;          (* e.g. "list_unscoped", "get_req_scoped" *)
  Line : Z;
  Score : Z;
  Snippet : string;
  Description : string
}.

(** The zero value [models.Signal{}]. *)
Definition emptySignal : Signal := mkSignal "" 0 0 "" "".

Definition SignalListUnscoped := "list_unscoped".
Definition SignalListNamespaceScoped := "list_namespace_scoped".
Definition SignalListLabelScoped := "list_label_scoped".
Definition SignalGetReqScoped := "get_req_scoped".
Definition SignalGetDerived := "get_derived".
Definition SignalGetUnrelated := "get_unrelated".
Definition SignalLoopWrite := "loop_write".
Definition SignalSingleWrite := "single_write".
Definition SignalNotFoundEarlyReturn := "notfound_early_return".
Definition SignalNotFoundIgnore := "notfound_ignore".

Definition ThresholdEdgeTriggered : Z := -3.
Definition ThresholdMostlyEdge : Z := 0.
Definition ThresholdMostlySoTW : Z := 3.

End models.

(** ** package [analyzer] *)

Module analyzer.

Import ast.
Import models.

(** *** classifier *)

(** The loop of [Classify]: [score += sig.Score] over the signals. *)
Definition sumScores (signals : list Signal) : Z :=
  fold_left (fun score sig => GoInt.add score (Score sig)) signals 0%Z.

(** The [switch] of [Classify]. *)
Definition classify (score : Z) : string :=
  if (score <=? ThresholdEdgeTriggered)%Z then "edge_triggered"
  else if (score <=? ThresholdMostlyEdge)%Z then "mostly_edge"
  else if (score <=? ThresholdMostlySoTW)%Z then "mostly_sotw"
  else "sotw".

Definition Classify (signals : list Signal) : Z * string :=
  let score := sumScores signals in
  (score, classify score).

(** *** [packages.Package], through the fields the analyzer reads

    [TypesInfo] is [None] for the nil pointer; otherwise it gives, for an
    expression, [TypeOf(expr).String()], or [None] when [TypeOf] is nil. *)
Record Package := mkPackage {
  PkgPath : string;
  TypesInfo : option (expr -> option string);
  Syntax : list File
}.

(** *** reconcile.go *)

Record ReconcileFinder := NewReconcileFinder {
  rfFset : token.FileSet
}.

Record ReconcileFunc := mkReconcileFunc {
  Pkg : Package;
  File_ : File;
  Func : FuncDecl;
  ReceiverType : string;
  ReceiverPkg : string
}.

Definition typeNameContains (e : expr) (pkg : Package) (substr : string)
  : bool :=
  match e with
  | Ident name => strings.Contains name substr
  | SelectorExpr _ sel => strings.Contains sel substr
  | _ =>
      (* Try using type info if available. *)
      match TypesInfo pkg with
      | Some info =>
          match info e with
          | Some typeName => strings.Contains typeName substr
          | None => false
          end
      | None => false
      end
  end.

Definition isContextType (e : expr) (pkg : Package) : bool :=
  typeNameContains e pkg "Context".

Definition isRequestType (e : expr) (pkg : Package) : bool :=
  typeNameContains e pkg "Request".

Definition isResultType (e : expr) (pkg : Package) : bool :=
  typeNameContains e pkg "Result".

Definition isErrorType (e : expr) (pkg : Package) : bool :=
  match e with
  | Ident name => name =? "error"
  | _ => false
  end.

Definition matchesReconcileSignature (fn : FuncDecl) (pkg : Package)
  : bool :=
  match Params (FType fn) with
  | None => false
  | Some params =>
    if (List.length params <? 2)%nat then false else
    match Results (FType fn) with
    | None => false
    | Some results =>
      if (List.length results <? 2)%nat then false else
      match params, results with
      | firstParam :: secondParam :: _, firstResult :: secondResult :: _ =>
          if negb (isContextType (ast.Type_ firstParam) pkg) then false
          else if negb (isRequestType (ast.Type_ secondParam) pkg) then false
          else if negb (isResultType (ast.Type_ firstResult) pkg) then false
          else if (List.length results <? 2)%nat then false
          else if negb (isErrorType (ast.Type_ secondResult) pkg) then false
          else true
      | _, _ => false            (* not reached: both lengths are >= 2 *)
      end
    end
  end.

Definition extractReceiverInfo (fn : FuncDecl) (pkg : Package)
  : string * string :=
  match Recv fn with
  | None | Some [] => ("", "")
  | Some (recvField :: _) =>
      let recvType :=
        match ast.Type_ recvField with
        | StarExpr x => x
        | t => t
        end in
      let typeName :=
        match recvType with
        | Ident name => name
        | SelectorExpr _ sel => sel
        | _ => "unknown"
        end in
      (typeName, PkgPath pkg)
  end.

(** The closure handed to [ast.Inspect] in [FindReconcileFunctions], at a
    declaration of the file.  A [*ast.FuncDecl] occurs in a file only as
    one of its declarations, and on every other node the closure answers
    [true] and leaves [results] as it is. *)
Definition visitDecl (pkg : Package) (file : File)
    (results : list ReconcileFunc) (d : Decl) : list ReconcileFunc :=
  match d with
  | DGen _ => results
  | DFunc fn =>
      if (numFields (Recv fn) =? 0)%nat then results
      else if negb (Name fn =? "Reconcile") then results
      else if negb (matchesReconcileSignature fn pkg) then results
      else
        let (recvType, recvPkg) := extractReceiverInfo fn pkg in
        results ++ [mkReconcileFunc pkg file fn recvType recvPkg]
  end.

Definition FindReconcileFunctions (rf : ReconcileFinder)
    (pkgs : list Package) : list ReconcileFunc :=
  fold_left (fun results pkg =>
    (* Skip test packages. *)
    if strings.HasSuffix (PkgPath pkg) "_test" then results
    else
      fold_left (fun results file =>
        (* Skip test files. *)
        let fileName := token.Filename (rfFset rf (FilePos file)) in
        if strings.HasSuffix fileName "_test.go" then results
        else fold_left (visitDecl pkg file) (Decls file) results)
      (Syntax pkg) results)
  pkgs [].

Definition ExtractReqParamName (fn : FuncDecl) : string :=
  match Params (FType fn) with
  | Some (_ :: secondParam :: _) =>
      match Names secondParam with
      | name :: _ => name
      | [] => "req"
      end
  | _ => "req"
  end.

(** *** patterns.go *)

Record PatternDetector := mkPatternDetector {
  fset : token.FileSet;
  pkg : Package;
  fileData : option string;        (* [None] is the nil slice *)
  reqParamName : string;
  clientFieldNames : list string
}.

Definition NewPatternDetector (fset : token.FileSet) (pkg : Package)
    (fileData : option string) (reqParamName : string) : PatternDetector :=
  mkPatternDetector fset pkg fileData reqParamName ["Client"; "client"; "c"].

Definition truncateSnippet (s : string) : string :=
  let s := strings.TrimSpace s in
  let s := strings.Join (strings.Fields s) " " in
  let maxLen := 200 in
  if (maxLen <? String.length s)%nat then substring 0 maxLen s ++ "..."
  else s.

Definition isWriteVerb (name : string) : bool :=
  (name =? "Create") || (name =? "Update") ||
  (name =? "Delete") || (name =? "Patch").

Section Detector.

(** What the detector takes from the Go libraries without this
    development fixing it: [strings.ToLower], and the two renderers
    [printer.Config.Fprint] and [format.Node], which give the text
    written to the buffer or [None] for an error. *)
Variable ToLower : string -> string.
Variable printerFprint : token.FileSet -> node -> option string.
Variable formatNode : token.FileSet -> node -> option string.

Variable pd : PatternDetector.

Definition extractSnippet (n : node) : string :=
  let fallback :=
    match printerFprint (fset pd) n with
    | Some out => truncateSnippet out
    | None =>
        match formatNode (fset pd) n with
        | Some out => truncateSnippet out
        | None => "<unprintable>"
        end
    end in
  match fileData pd with
  | None => fallback
  | Some data =>
      if (0 <? String.length data)%nat then
        let start := token.Offset (fset pd (Pos (spanOf n))) in
        let end_ := token.Offset (fset pd (End_ (spanOf n))) in
        if ((0 <=? start) && (end_ <=? Z.of_nat (String.length data))
            && (start <? end_))%Z
        then truncateSnippet
               (substring (Z.to_nat start) (Z.to_nat (end_ - start)) data)
        else fallback
      else fallback
  end.

Definition isClientIdentifier (name : string) : bool :=
  if existsb (fun candidate => name =? candidate) (clientFieldNames pd)
  then true
  else strings.Contains (ToLower name) "client".

(** [isClientCall(sel)], on the two fields [sel.X] and [sel.Sel.Name]. *)
Fixpoint isClientCall (x : expr) (methodName : string) {struct x} : bool :=
  let isClientMethod :=
    (methodName =? "Get") || (methodName =? "List") ||
    (methodName =? "Create") || (methodName =? "Update") ||
    (methodName =? "Delete") || (methodName =? "Patch") in
  match x with
  | Ident name =>
      if isClientIdentifier name then true else isClientMethod
  | SelectorExpr x' sel' =>
      if isClientIdentifier sel' then true else isClientCall x' sel'
  | CallExpr _ (SelectorExpr x2 sel2) _ => isClientCall x2 sel2
  | _ => false
  end.

Definition referencesReqParam (e : expr) : bool :=
  inspectExpr (fun n found =>
    match n with
    | NExpr (Ident name) =>
        if name =? reqParamName pd then (true, false) else (found, true)
    | _ => (found, true)
    end) e false.

Definition isReqNamespacedName (e : expr) : bool :=
  match e with
  | SelectorExpr x sel =>
      if negb (sel =? "NamespacedName") then false
      else match x with
           | Ident name => name =? reqParamName pd
           | _ => false
           end
  | _ => false
  end.

Definition isNamespaceOption (e : expr) : bool :=
  match e with
  | CallExpr _ (Ident name) _ => strings.Contains name "InNamespace"
  | CallExpr _ (SelectorExpr _ sel) _ => strings.Contains sel "InNamespace"
  | _ => false
  end.

Definition isLabelMatchOption (e : expr) : bool :=
  match e with
  | CallExpr _ (Ident name) _ =>
      strings.Contains name "MatchingLabels" ||
      strings.Contains name "MatchingFields"
  | CallExpr _ (SelectorExpr _ name) _ =>
      strings.Contains name "MatchingLabels" ||
      strings.Contains name "MatchingFields"
  | _ => false
  end.

Definition isNotFoundCheck (e : expr) : bool :=
  match e with
  | CallExpr _ (SelectorExpr _ sel) _ => sel =? "IsNotFound"
  | _ => false
  end.

Definition isEarlyReturn (body : block) : bool :=
  existsb (fun st =>
    match st with
    | ReturnStmt _ => true
    | _ => false
    end) (blockList body).

Definition isNilReturn (body : block) : bool :=
  existsb (fun st =>
    match st with
    | ReturnStmt results =>
        if (List.length results =? 0)%nat then false
        else existsb (fun result =>
               match result with
               | Ident name => name =? "nil"
               | _ => false
               end) results
    | _ => false
    end) (blockList body).

Definition lineOf (n : node) : Z :=
  token.Line (fset pd (Pos (spanOf n))).

(** The three flags of [analyzeListCall] after its loop over
    [call.Args[2:]]. *)
Definition listOptionFlags (opts : list expr) : bool * bool * bool :=
  fold_left (fun '(hasReqScopedOpts, hasNamespaceOpt, hasLabelOpt) arg =>
    (if referencesReqParam arg then true else hasReqScopedOpts,
     if isNamespaceOption arg then true else hasNamespaceOpt,
     if isLabelMatchOption arg then true else hasLabelOpt))
  opts (false, false, false).

Definition analyzeListCall (sp : Span) (fn : expr) (args : list expr)
  : Signal :=
  let call := NExpr (CallExpr sp fn args) in
  let line := lineOf call in
  let snippet := extractSnippet call in
  if (List.length args <? 2)%nat then emptySignal   (* malformed *)
  else
    let '(hasReqScopedOpts, hasNamespaceOpt, hasLabelOpt) :=
      listOptionFlags (skipn 2 args) in
    if negb hasReqScopedOpts then
      mkSignal SignalListUnscoped line 3 snippet
        "client.List without request-scoped selectors"
    else if hasNamespaceOpt && negb hasLabelOpt then
      mkSignal SignalListNamespaceScoped line 1 snippet
        "client.List scoped to request namespace only"
    else
      mkSignal SignalListLabelScoped line 0 snippet
        "client.List scoped by labels/fields derived from request".

Definition analyzeGetCall (sp : Span) (fn : expr) (args : list expr)
  : Signal :=
  let call := NExpr (CallExpr sp fn args) in
  let line := lineOf call in
  let snippet := extractSnippet call in
  if (List.length args <? 3)%nat then emptySignal   (* malformed *)
  else
    match args with
    | _ :: keyArg :: _ =>
        if isReqNamespacedName keyArg then
          mkSignal SignalGetReqScoped line (-1) snippet
            "client.Get with req.NamespacedName (primary resource fetch)"
        else if referencesReqParam keyArg then
          mkSignal SignalGetDerived line (-1) snippet
            "client.Get with key derived from request"
        else
          mkSignal SignalGetUnrelated line 1 snippet
            "client.Get with key not derived from request"
    | _ => emptySignal          (* not reached: three arguments at least *)
    end.

Definition analyzeWriteCall (sp : Span) (fn : expr) (args : list expr)
    (method : string) : Signal :=
  let call := NExpr (CallExpr sp fn args) in
  mkSignal SignalSingleWrite (lineOf call) (-1) (extractSnippet call)
    ("client." ++ method ++ " call").

Definition keepTyped (sig : Signal) : list Signal :=
  if Type_ sig =? "" then [] else [sig].

Definition detectCallPatterns (sp : Span) (fn : expr) (args : list expr)
  : list Signal :=
  match fn with
  | SelectorExpr x methodName =>
      if negb (isClientCall x methodName) then []
      else if methodName =? "List" then
        keepTyped (analyzeListCall sp fn args)
      else if methodName =? "Get" then
        keepTyped (analyzeGetCall sp fn args)
      else if isWriteVerb methodName then
        keepTyped (analyzeWriteCall sp fn args methodName)
      else []
  | _ => []
  end.

Definition detectControlFlowPatterns (sp : Span) (init : option stmt)
    (cond : expr) (body : block) (els : option stmt) : list Signal :=
  let ifStmt := NStmt (IfStmt sp init cond body els) in
  if isNotFoundCheck cond then
    if isEarlyReturn body then
      if isNilReturn body then
        [mkSignal SignalNotFoundIgnore (lineOf ifStmt) (-1)
           (extractSnippet ifStmt)
           "Early return on NotFound (ignores deletes)"]
      else
        [mkSignal SignalNotFoundEarlyReturn (lineOf ifStmt) (-2)
           (extractSnippet ifStmt)
           "NotFound handling with delete logic (classic edge-triggered pattern)"]
    else []
  else [].

Definition hasWriteOperation (body : block) : bool :=
  inspectBlock (fun n hasWrite =>
    match n with
    | NExpr (CallExpr _ (SelectorExpr x sel) _) =>
        if isClientCall x sel then
          if isWriteVerb sel then (true, false) else (hasWrite, true)
        else (hasWrite, true)
    | _ => (hasWrite, true)
    end) body false.

(** [detectLoopPatterns] and [detectRangeLoopPatterns] have one body;
    [loop] is the [for] or [range] statement and [body] its [Body]. *)
Definition loopSignals (loop : stmt) (body : option block) : list Signal :=
  match body with
  | None => []
  | Some b =>
      if hasWriteOperation b then
        [mkSignal SignalLoopWrite (lineOf (NStmt loop)) 3
           (extractSnippet (NStmt loop))
           "Loop containing write operations (SoTW pattern)"]
      else []
  end.

Definition detectLoopPatterns (sp : Span) (init : option stmt)
    (cond : option expr) (post : option stmt) (body : option block)
  : list Signal :=
  loopSignals (ForStmt sp init cond post body) body.

Definition detectRangeLoopPatterns (sp : Span) (key value : option expr)
    (x : expr) (body : option block) : list Signal :=
  loopSignals (RangeStmt sp key value x body) body.

(** The type switch of the closure in [DetectPatterns]. *)
Definition detectNode (n : node) : list Signal :=
  match n with
  | NExpr (CallExpr sp fn args) => detectCallPatterns sp fn args
  | NStmt (IfStmt sp init cond body els) =>
      detectControlFlowPatterns sp init cond body els
  | NStmt (ForStmt sp init cond post body) =>
      detectLoopPatterns sp init cond post body
  | NStmt (RangeStmt sp key value x body) =>
      detectRangeLoopPatterns sp key value x body
  | _ => []
  end.

Definition DetectPatterns (fn : FuncDecl) : list Signal :=
  match Body fn with
  | None => []
  | Some body =>
      inspectBlock (fun n signals => (signals ++ detectNode n, true))
        body []
  end.

End Detector.

End analyzer.

(** ** Vocabulary of the design document

    Notions the properties are stated with and the code has no name for. *)

Module Spec.

Import ast models analyzer.

(** The four labels in their order. *)
Definition labelRank (label : string) : option nat :=
  if label =? "edge_triggered" then Some 0
  else if label =? "mostly_edge" then Some 1
  else if label =? "mostly_sotw" then Some 2
  else if label =? "sotw" then Some 3
  else None.

(** The band of a score as a number, 0 for [edge_triggered] up to 3 for
    [sotw]. *)
Definition bandOf (score : Z) : nat :=
  if (score <=? -3)%Z then 0
  else if (score <=? 0)%Z then 1
  else if (score <=? 3)%Z then 2
  else 3.

(** The closure that appends what [g] finds at a node and always
    descends; the one of [DetectPatterns] has this shape. *)
Definition collector {A : Type} (g : node -> list A)
  : node -> list A -> list A * bool :=
  fun n acc => (acc ++ g n, true).

(** The closure that raises a flag at the first node satisfying [p] and
    does not descend below it; the ones of [hasWriteOperation] and
    [referencesReqParam] have this shape. *)
Definition searcher (p : node -> bool) : node -> bool -> bool * bool :=
  fun n found => if p n then (true, false) else (found, true).

(** The arguments of a [List] call after the context and the list. *)
Definition listOptions (args : list expr) : list expr := skipn 2 args.

(** The detector with another symbol resolver in its package. *)
Definition withTypesInfo (pd : PatternDetector)
    (info : option (expr -> option string)) : PatternDetector :=
  mkPatternDetector (fset pd)
    (mkPackage (PkgPath (pkg pd)) info (Syntax (pkg pd)))
    (fileData pd) (reqParamName pd) (clientFieldNames pd).

(** A client write-verb call: [Create], [Update], [Delete] or [Patch] on a
    target that passes the client-call test. *)
Definition isWriteCall (ToLower : string -> string) (pd : PatternDetector)
    (n : node) : bool :=
  match n with
  | NExpr (CallExpr _ (SelectorExpr x sel) _) =>
      isClientCall ToLower pd x sel && isWriteVerb sel
  | _ => false
  end.

(** The client write-verb calls anywhere inside a loop body. *)
Definition writeCalls (ToLower : string -> string) (pd : PatternDetector)
    (body : block) : list node :=
  filter (isWriteCall ToLower pd) (preorderBlock body).

(** The body of a [for] or [range] loop. *)
Definition loopBody (st : stmt) : option block :=
  match st with
  | ForStmt _ _ _ _ body => body
  | RangeStmt _ _ _ _ body => body
  | _ => None
  end.

(** The body has a return statement among its own statements. *)
Definition directReturn (body : block) : Prop :=
  exists results, In (ReturnStmt results) (blockList body).

(** Some return statement among the body's own statements has the
    identifier [nil] among its values. *)
Definition nilReturned (body : block) : Prop :=
  exists results,
    In (ReturnStmt results) (blockList body) /\ In (Ident "nil") results.

(** The syntactic name of a type expression: the identifier, or the final
    segment of a member access. *)
Definition syntacticName (e : expr) : option string :=
  match e with
  | Ident name => Some name
  | SelectorExpr _ sel => Some sel
  | _ => None
  end.

(** The number of parameters (or results) a field list declares: a field
    declares one per name, and one when it has no name. *)
Definition declared (fl : FieldList) : nat :=
  match fl with
  | None => 0
  | Some l => list_sum (map (fun f => Nat.max 1 (List.length (Names f))) l)
  end.

(** The candidates one file contributes, and those of one package. *)
Definition selectFile (rf : ReconcileFinder) (pkg : Package) (file : File)
  : list ReconcileFunc :=
  if strings.HasSuffix (token.Filename (rfFset rf (FilePos file))) "_test.go"
  then []
  else flat_map (visitDecl pkg file []) (Decls file).

Definition selectPkg (rf : ReconcileFinder) (pkg : Package)
  : list ReconcileFunc :=
  if strings.HasSuffix (PkgPath pkg) "_test" then []
  else flat_map (selectFile rf pkg) (Syntax pkg).

(** An ASCII byte. *)
Definition low (c : ascii) : Prop := (strings.code c < 128)%N.

(** The bytes are none, or begin with an ASCII byte. *)
Definition lowHead (b : list ascii) : Prop :=
  match b with
  | [] => True
  | c :: _ => low c
  end.

(** No white-space character starts anywhere in the bytes. *)
Definition spaceFree (l : list ascii) : Prop :=
  forall a b, l = a ++ b -> strings.spaceWidth b = 0.

(** A field: not empty, and free of white space. *)
Definition goodField (f : list ascii) : Prop := f <> [] /\ spaceFree f.

(** Trimmed and collapsed: wherever a white-space character starts in the
    text, it is a single ASCII space that is neither the first nor the last
    byte and is not followed by another white-space character. *)
Definition normalized (l : list ascii) : Prop :=
  forall a b, l = a ++ b -> 0 < strings.spaceWidth b ->
    a <> [] /\
    exists b', b = " "%char :: b' /\ b' <> [] /\ strings.spaceWidth b' = 0.

(** [strings.Join(fields, " ")] on byte lists. *)
Fixpoint joinBytes (fields : list (list ascii)) : list ascii :=
  match fields with
  | [] => []
  | [f] => f
  | f :: rest => f ++ " "%char :: joinBytes rest
  end.

(** The raw bytes are there and the node's offsets select a slice. *)
Definition sliceable (pd : PatternDetector) (n : node) : Prop :=
  exists data,
    fileData pd = Some data /\
    (0 <= token.Offset (fset pd (Pos (spanOf n))))%Z /\
    (token.Offset (fset pd (Pos (spanOf n)))
     < token.Offset (fset pd (End_ (spanOf n))))%Z /\
    (token.Offset (fset pd (End_ (spanOf n)))
     <= Z.of_nat (String.length data))%Z.

(** The string ends with the suffix. *)
Definition endsWith (s suffix : string) : Prop :=
  exists before, s = (before ++ suffix)%string.

(** What identifies a selected candidate: the declaration and the receiver
    information recorded with it. *)
Definition candidate (r : ReconcileFunc) : FuncDecl * string * string :=
  (Func r, ReceiverType r, ReceiverPkg r).

(** The sum of the scores over the mathematical integers. *)
Definition mathSum (signals : list Signal) : Z :=
  fold_right (fun sig acc => (Score sig + acc)%Z) 0%Z signals.

End Spec.

(** ** Example inputs

    Small syntax trees of reconcilers, as the parser would hand them
    over, used where a property is evaluated on a concrete input. *)

Module Examples.

Import ast models analyzer.

(** Positions are byte offsets; a line holds forty bytes. *)
Definition exFset : token.FileSet :=
  fun p => token.mkPosition "controllers/pod_controller.go" p (p / 40 + 1)%Z.

Definition exPkg : Package :=
  mkPackage "example.com/operator/controllers" None [].

Definition exPd : PatternDetector := NewPatternDetector exFset exPkg None "req".

(** Renderers that fail, so that a snippet is the placeholder. *)
Definition noRender : token.FileSet -> node -> option string :=
  fun _ _ => None.

(** [&x]: a unary expression, one of the kinds kept as [OtherExpr]. *)
Definition addrOf (x : expr) : expr := OtherExpr [NExpr x].

(** A string literal: a leaf kept as [OtherExpr]. *)
Definition lit : expr := OtherExpr [].

(** [r.List(ctx, &pods, client.InNamespace("default"))] *)
Definition fixedNamespaceArgs : list expr :=
  [Ident "ctx"; addrOf (Ident "pods");
   CallExpr (mkSpan 140 169) (SelectorExpr (Ident "client") "InNamespace")
     [lit]].

Definition listFixedNamespace : expr :=
  CallExpr (mkSpan 120 170) (SelectorExpr (Ident "r") "List")
    fixedNamespaceArgs.

(** [r.List(ctx, &pods, client.InNamespace(req.Namespace))] *)
Definition reqNamespaceArgs : list expr :=
  [Ident "ctx"; addrOf (Ident "pods");
   CallExpr (mkSpan 140 174) (SelectorExpr (Ident "client") "InNamespace")
     [SelectorExpr (Ident "req") "Namespace"]].

Definition listReqNamespace : expr :=
  CallExpr (mkSpan 120 175) (SelectorExpr (Ident "r") "List")
    reqNamespaceArgs.

(** [r.Get(ctx, req.NamespacedName, &pod)] *)
Definition getPrimary : expr :=
  CallExpr (mkSpan 80 118) (SelectorExpr (Ident "r") "Get")
    [Ident "ctx"; SelectorExpr (Ident "req") "NamespacedName";
     addrOf (Ident "pod")].

(** [r.Update(ctx, item)] *)
Definition updateItem (p : Z) : expr :=
  CallExpr (mkSpan p (p + 21)) (SelectorExpr (Ident "r") "Update")
    [Ident "ctx"; Ident "item"].

(** [for _, item := range items { r.Update(ctx, item); r.Update(ctx, item) }] *)
Definition twoUpdates : block :=
  Block [ExprStmt (updateItem 240); ExprStmt (updateItem 264)].

Definition rangeTwoUpdates : stmt :=
  RangeStmt (mkSpan 200 290) (Some (Ident "_")) (Some (Ident "item"))
    (Ident "items") (Some twoUpdates).

(** [if apierrors.IsNotFound(err) { return ctrl.Result{}, nil }] *)
Definition returnNil : block :=
  Block [ReturnStmt [OtherExpr [NExpr (SelectorExpr (Ident "ctrl") "Result")];
                     Ident "nil"]].

Definition ifNotFoundReturnNil : stmt :=
  IfStmt (mkSpan 300 360) None
    (CallExpr (mkSpan 303 328) (SelectorExpr (Ident "apierrors") "IsNotFound")
       [Ident "err"])
    returnNil None.

(** [func (r *PodReconciler) Reconcile(ctx context.Context, req ctrl.Request)
    (ctrl.Result, error)] with an empty body. *)
Definition reconcileDecl : FuncDecl :=
  mkFuncDecl
    (Some [mkField ["r"] (StarExpr (Ident "PodReconciler"))])
    "Reconcile"
    (mkFuncType
       (Some [mkField ["ctx"] (SelectorExpr (Ident "context") "Context");
              mkField ["req"] (SelectorExpr (Ident "ctrl") "Request")])
       (Some [mkField [] (SelectorExpr (Ident "ctrl") "Result");
              mkField [] (Ident "error")]))
    (Some (Block [])).

(** [func (r *PodReconciler) Reconcile(ctx context.Context) (ctrl.Result, error)]:
    one parameter only. *)
Definition reconcileOneParam : FuncDecl :=
  mkFuncDecl
    (Some [mkField ["r"] (StarExpr (Ident "PodReconciler"))])
    "Reconcile"
    (mkFuncType
       (Some [mkField ["ctx"] (SelectorExpr (Ident "context") "Context")])
       (Some [mkField [] (SelectorExpr (Ident "ctrl") "Result");
              mkField [] (Ident "error")]))
    (Some (Block [])).

(** Files are told apart by their position: 0 is [pod_controller.go],
    1000 is [pod_controller_test.go]. *)
Definition filesFset : token.FileSet :=
  fun p => if (p <? 1000)%Z
           then token.mkPosition "controllers/pod_controller.go" p 1
           else token.mkPosition "controllers/pod_controller_test.go"
                  (p - 1000) 1.

Definition exFinder : ReconcileFinder := NewReconcileFinder filesFset.

Definition sourceFile : File := mkFile 0 [DFunc reconcileDecl].
Definition testFile : File := mkFile 1000 [DFunc reconcileDecl].

Definition controllersPkg : Package :=
  mkPackage "example.com/operator/controllers" None [sourceFile; testFile].

Definition controllersTestPkg : Package :=
  mkPackage "example.com/operator/controllers_test" None [sourceFile].

(** A resolver that knows the type of [Ctx], an alias of
    [context.Context], and of a pointer to a request. *)
Definition aliasInfo : expr -> option string :=
  fun e =>
    match e with
    | Ident "Ctx" => Some "context.Context"
    | StarExpr (SelectorExpr (Ident "ctrl") "Request") =>
        Some "*sigs.k8s.io/controller-runtime/pkg/reconcile.Request"
    | _ => None
    end.

Definition aliasPkg : Package :=
  mkPackage "example.com/operator/controllers" (Some aliasInfo) [].

(** A reconciler with the given statements as its body. *)
Definition reconcilerWith (body : list stmt) : FuncDecl :=
  mkFuncDecl (Recv reconcileDecl) "Reconcile" (FType reconcileDecl)
    (Some (Block body)).

(** [r.Get(ctx, req.NamespacedName, &pod)] followed by
    [if apierrors.IsNotFound(err) { return ctrl.Result{}, nil }] *)
Definition fetchAndIgnore : FuncDecl :=
  reconcilerWith [ExprStmt getPrimary; ifNotFoundReturnNil].

(** [r.List(ctx, &pods)] *)
Definition listAll : expr :=
  CallExpr (mkSpan 120 140) (SelectorExpr (Ident "r") "List")
    [Ident "ctx"; addrOf (Ident "pods")].

(** [r.List(ctx, &pods)] followed by the loop [rangeTwoUpdates]. *)
Definition listAndUpdateAll : FuncDecl :=
  reconcilerWith [ExprStmt listAll; rangeTwoUpdates].

(** A source file, and a detector that has its bytes. *)
Definition getSource : string :=
  "	if err := r.Get(ctx,
		req.NamespacedName,   &pod); err != nil {".

Definition srcFset : token.FileSet :=
  fun p => token.mkPosition "controllers/pod_controller.go" p 1.

Definition srcPd : PatternDetector :=
  NewPatternDetector srcFset exPkg (Some getSource) "req".

(** The call [r.Get(...)] of [getSource], bytes 11 to 51. *)
Definition getInSource : node :=
  NExpr (CallExpr (mkSpan 11 51) (SelectorExpr (Ident "r") "Get")
           [Ident "ctx"; SelectorExpr (Ident "req") "NamespacedName";
            addrOf (Ident "pod")]).

End Examples.

From Stdlib Require Import Permutation Sorted.
From Stdlib Require DecimalString.

(** ** More of the detector's vocabulary *)

Module Kinds.

Import ast models analyzer.

(** The signal kinds that [models] declares and the detector has no rule
    for. *)
Definition SignalListOwnerScoped := "list_owner_scoped".
Definition SignalDiffSync := "diff_sync".
Definition SignalCreateOrUpdate := "create_or_update".
Definition SignalStatusUpdate := "status_update".
Definition SignalFinalizerHandling := "finalizer_handling".
Definition SignalBuildDesiredState := "build_desired_state".
Definition SignalOwnsResources := "owns_resources".
Definition SignalWatchesWithHandler := "watches_with_handler".

(** The kinds the detector emits, each with the score it is emitted with. *)
Definition emitted : list (string * Z) :=
  [(SignalListUnscoped, 3); (SignalListNamespaceScoped, 1);
   (SignalListLabelScoped, 0); (SignalGetReqScoped, -1);
   (SignalGetDerived, -1); (SignalGetUnrelated, 1);
   (SignalSingleWrite, -1); (SignalLoopWrite, 3);
   (SignalNotFoundIgnore, -1); (SignalNotFoundEarlyReturn, -2)]%Z.

(** The condition of an if-statement is a call to a member named
    [IsNotFound]. *)
Definition notFoundCall (cond : expr) : Prop :=
  exists sp x args, cond = CallExpr sp (SelectorExpr x "IsNotFound") args.

(** The expression is a chain of member accesses and calls of members
    that passes through a segment with a client-like name: the root
    identifier or a selected name below the called method. *)
Inductive throughClient (isClient : string -> bool) : expr -> Prop :=
| tc_root name : isClient name = true -> throughClient isClient (Ident name)
| tc_here x sel :
    isClient sel = true -> throughClient isClient (SelectorExpr x sel)
| tc_below x sel :
    throughClient isClient x -> throughClient isClient (SelectorExpr x sel)
| tc_call sp x sel args :
    throughClient isClient x ->
    throughClient isClient (CallExpr sp (SelectorExpr x sel) args).

(** A list of nodes that holds, with each node, the nodes of that node. *)
Definition closedNodes (l : list node) : Prop :=
  forall n, In n l -> forall k, In k (preorderNode n) -> In k l.

End Kinds.

(** ** More of Go's [strings] package *)

Module stringsMore.

(** [strings.HasPrefix(s, prefix)]. *)
Definition HasPrefix (s prefix : string) : bool := String.prefix prefix s.

(** [strings.TrimPrefix(s, prefix)]: [s] without the prefix when it has
    it, else [s]. *)
Definition TrimPrefix (s prefix : string) : string :=
  if HasPrefix s prefix
  then substring (String.length prefix)
         (String.length s - String.length prefix) s
  else s.

(** [strings.TrimSuffix(s, suffix)]. *)
Definition TrimSuffix (s suffix : string) : string :=
  if strings.HasSuffix s suffix
  then substring 0 (String.length s - String.length suffix) s
  else s.

(** The scan of [strings.Split] for a separator that is not empty: the
    separator is looked for from left to right, the occurrences found do
    not overlap; [cur] is the piece being collected, [skip]
    the bytes still to drop of the separator just found. *)
Fixpoint splitFrom (sep : string) (skip : nat) (cur : string) (s : string)
  : list string :=
  match s with
  | EmptyString => [cur]
  | String c s' =>
      match skip with
      | S k => splitFrom sep k cur s'
      | O =>
          if String.prefix sep s
          then cur :: splitFrom sep (String.length sep - 1) "" s'
          else splitFrom sep 0 (cur ++ String c "") s'
      end
  end.

(** [strings.Split(s, sep)].  With the empty separator Go cuts the text
    into its characters; the bytes stand for them here. *)
Definition Split (s sep : string) : list string :=
  match sep with
  | EmptyString =>
      map (fun c => String c "") (list_ascii_of_string s)
  | _ => splitFrom sep 0 "" s
  end.

(** The number of occurrences of a byte. *)
Fixpoint countChar (c : ascii) (s : string) : nat :=
  match s with
  | EmptyString => 0
  | String d s' => (if Ascii.eqb c d then 1 else 0) + countChar c s'
  end.

(** [fmt.Sprintf("%d", n)]. *)
Definition itoa (n : Z) : string :=
  DecimalString.NilZero.string_of_int (Z.to_int n).

End stringsMore.

(** ** The rest of package [models] *)

Module modelsMore.

Import models.

Record Repository := mkRepository {
  URL : string;
  Name : string;
  Owner : string;
  Stars : Z;
  Source : string;
  LocalPath : string
}.

Record Reconciler := mkReconciler {
  ID : string;
  Repo : string;
  File : string;
  Line : Z;
  EndLine : Z;
  ReceiverType : string;
  ReceiverPkg : string;
  Score : Z;
  Classification : string;
  Signals : list Signal;
  WatchedTypes : list string;
  HasFinalizer : bool;
  FullSource : string
}.

End modelsMore.

(** ** The rest of package [analyzer] *)

Module analyzerMore.

Import ast models analyzer stringsMore.

(** What a Go function returns or does: a value, an error, or a run-time
    panic. *)
Inductive outcome (A : Type) : Type :=
| Ok (a : A)
| Err (message : string)
| Panic.

Arguments Ok {A} a.
Arguments Err {A} message.
Arguments Panic {A}.

(** *** patterns.go: [ExtractSnippetFromSource] *)

Definition ExtractSnippetFromSource (fset : token.FileSet) (n : node)
    (src : option string) : string :=
  match src with
  | None => ""
  | Some src =>
      if (String.length src =? 0)%nat then ""
      else
        let start := token.Offset (fset (Pos (spanOf n))) in
        let end_ := token.Offset (fset (End_ (spanOf n))) in
        if ((start <? 0) || (Z.of_nat (String.length src) <? end_)
            || (end_ <=? start))%Z
        then ""
        else
          let snippet :=
            substring (Z.to_nat start) (Z.to_nat (end_ - start)) src in
          let snippet := strings.TrimSpace snippet in
          let snippet := strings.Join (strings.Fields snippet) " " in
          let maxLen := 200 in
          if (maxLen <? String.length snippet)%nat
          then substring 0 maxLen snippet ++ "..."
          else snippet
  end.

(** *** reconcile.go: [ExtractClientFieldName]

    The receiver's struct type is given by the names of its fields, [None]
    for the nil pointer. *)
Definition ExtractClientFieldName (ToLower : string -> string)
    (recvType : option (list string)) : list string :=
  match recvType with
  | None => ["Client"; "client"]
  | Some fields =>
      let candidates :=
        fold_left (fun candidates fieldName =>
          if strings.Contains (ToLower fieldName) "client"
          then candidates ++ [fieldName] else candidates)
        fields [] in
      if (List.length candidates =? 0)%nat then ["Client"; "client"]
      else candidates
  end.

(** *** analyzer.go *)

Record Analyzer := NewAnalyzer {
  workDir : string;
  verbose : bool
}.

Definition ParseRepoURL (url : string) : string * string :=
  let url := TrimPrefix url "https://github.com/" in
  let url := TrimPrefix url "http://github.com/" in
  let url := TrimSuffix url ".git" in
  let url := TrimSuffix url "/" in
  match Split url "/" with
  | owner :: name :: _ => (owner, name)
  | _ => ("", "")
  end.

(** A package as [packages.Load] hands it over: with its errors and its
    file set. *)
Record Loaded := mkLoaded {
  package : Package;
  Errors : list string;
  Fset : option token.FileSet
}.

(** The file set of [token.NewFileSet()]: no position is known to it. *)
Definition emptyFileSet : token.FileSet :=
  fun _ => token.mkPosition "" 0 0.

Section Analyze.

(** The detector's libraries, and what the analyzer asks of the system:
    [packages.Load] on a directory, [filepath.Rel], [os.ReadFile],
    [os.Stat] (does the path exist), [os.MkdirAll], [filepath.Join] and
    [filepath.Dir]; [declSpan] gives [Pos()] and [End()] of a declaration.
    Logging is left out. *)
Variable ToLower : string -> string.
Variable printerFprint : token.FileSet -> node -> option string.
Variable formatNode : token.FileSet -> node -> option string.
Variable packagesLoad : string -> outcome (list Loaded).
Variable filepathRel : string -> string -> option string.
Variable readFile : string -> option string.
Variable declSpan : FuncDecl -> Span.
Variable statExists : string -> bool.
Variable mkdirAll : string -> option string.
Variable filepathJoin : list string -> string.
Variable filepathDir : string -> string.

Definition loadPackages (a : Analyzer) (repoPath : string)
  : outcome (list Loaded) :=
  match packagesLoad repoPath with
  | Ok pkgs =>
      Ok (fold_left (fun validPkgs pkg =>
            if (0 <? List.length (Errors pkg))%nat
               && (List.length (Syntax (package pkg)) =? 0)%nat
            then validPkgs
            else validPkgs ++ [pkg])
          pkgs [])
  | Err e => Err e
  | Panic => Panic
  end.

Definition analyzeReconcileFunc (a : Analyzer) (recFunc : ReconcileFunc)
    (repo : modelsMore.Repository) (fset : token.FileSet)
  : outcome modelsMore.Reconciler :=
  let filePath := token.Filename (fset (Pos (declSpan (Func recFunc)))) in
  let line := token.Line (fset (Pos (declSpan (Func recFunc)))) in
  let endLine := token.Line (fset (End_ (declSpan (Func recFunc)))) in
  let relPath :=
    match filepathRel (modelsMore.LocalPath repo) filePath with
    | Some rel => rel
    | None => filePath
    end in
  let fileData := readFile filePath in
  let reqParamName := ExtractReqParamName (Func recFunc) in
  let detector := NewPatternDetector fset (Pkg recFunc) fileData reqParamName in
  let signals :=
    DetectPatterns ToLower printerFprint formatNode detector (Func recFunc) in
  let (score, classification) := Classify signals in
  let repoName := TrimPrefix (modelsMore.URL repo) "https://github.com/" in
  let repoName := TrimPrefix repoName "http://github.com/" in
  let id := (repoName ++ "#" ++ relPath ++ "#" ++ itoa line)%string in
  Ok (modelsMore.mkReconciler id repoName relPath line endLine
        (ReceiverType recFunc) (ReceiverPkg recFunc) score classification
        signals [] false "").

Definition AnalyzeRepo (a : Analyzer) (repo : modelsMore.Repository)
  : outcome (list modelsMore.Reconciler) :=
  match loadPackages a (modelsMore.LocalPath repo) with
  | Err e => Err ("failed to load packages: " ++ e)%string
  | Panic => Panic
  | Ok pkgs =>
      if (List.length pkgs =? 0)%nat
      then Err "no packages found in repository"
      else
        let fset :=
          match pkgs with
          | first :: _ =>
              match Fset first with
              | Some fs => fs
              | None => emptyFileSet
              end
          | [] => emptyFileSet
          end in
        let finder := NewReconcileFinder fset in
        let reconcileFuncs :=
          FindReconcileFunctions finder (map package pkgs) in
        Ok (fold_left (fun results recFunc =>
              match analyzeReconcileFunc a recFunc repo fset with
              | Ok reconciler => results ++ [reconciler]
              | _ => results
              end)
            reconcileFuncs [])
  end.

Definition CloneRepo (a : Analyzer) (repoURL : string) : outcome string :=
  let parts := Split (TrimSuffix repoURL ".git") "/" in
  match nth_error parts (List.length parts - 1) with
  | None => Panic
  | Some repoName =>
      if (List.length parts <? 2)%nat then Panic
      else
        match nth_error parts (List.length parts - 2) with
        | None => Panic
        | Some ownerName =>
            let localPath := filepathJoin [workDir a; ownerName; repoName] in
            if statExists localPath then Ok localPath
            else
              match mkdirAll (filepathDir localPath) with
              | Some e => Err ("failed to create directory: " ++ e)%string
              | None => Ok localPath
              end
        end
  end.

End Analyze.

End analyzerMore.


(** ** Package [output]: the summary *)

Module output.

Import models modelsMore analyzerMore.

(** A [map[string]int]: an association list with one entry for each key,
    in the order the keys were first counted (Go itself fixes no order). *)
Definition counts := list (string * Z).

(** [m[k]]: the zero value when the key is missing. *)
Fixpoint lookup (k : string) (m : counts) : Z :=
  match m with
  | [] => 0%Z
  | (k', v) :: m' => if String.eqb k k' then v else lookup k m'
  end.

(** [m[k]++] *)
Fixpoint increment (k : string) (m : counts) : counts :=
  match m with
  | [] => [(k, GoInt.add 0 1)]
  | (k', v) :: m' =>
      if String.eqb k k' then (k', GoInt.add v 1) :: m'
      else (k', v) :: increment k m'
  end.

(** [s[i] = v] on a slice, for an index in range. *)
Fixpoint assign {A : Type} (s : list A) (i : nat) (v : A) : list A :=
  match s, i with
  | [], _ => []
  | _ :: t, O => v :: t
  | x :: t, S i' => x :: assign t i' v
  end.

(** The comparison that makes [getTopByScore] exchange two entries:
    [a] is [sorted[j]], [b] is [sorted[i]]. *)
Definition better (highest : bool) (a b : Reconciler) : bool :=
  if highest then (Score a >? Score b)%Z else (Score a <? Score b)%Z.

(** The body of the inner loop; an index out of range is a run-time
    panic. *)
Definition exchange (highest : bool) (sorted : list Reconciler) (i j : nat)
  : outcome (list Reconciler) :=
  match nth_error sorted j, nth_error sorted i with
  | Some sj, Some si =>
      if better highest sj si
      then Ok (assign (assign sorted i sj) j si)
      else Ok sorted
  | _, _ => Panic
  end.

(** [for j := ...; j < len(sorted); j++]: [count] turns are left. *)
Fixpoint innerLoop (highest : bool) (i j count : nat)
    (sorted : list Reconciler) : outcome (list Reconciler) :=
  match count with
  | O => Ok sorted
  | S count' =>
      match exchange highest sorted i j with
      | Ok sorted' => innerLoop highest i (S j) count' sorted'
      | other => other
      end
  end.

(** [for i := ...; i < len(sorted); i++]: [count] turns are left. *)
Fixpoint outerLoop (highest : bool) (i count : nat)
    (sorted : list Reconciler) : outcome (list Reconciler) :=
  match count with
  | O => Ok sorted
  | S count' =>
      match innerLoop highest i (S i) (List.length sorted - S i) sorted with
      | Ok sorted' => outerLoop highest (S i) count' sorted'
      | other => other
      end
  end.

Definition getTopByScore (reconcilers : list Reconciler) (n : Z)
    (highest : bool) : outcome (list Reconciler) :=
  match outerLoop highest 0 (List.length reconcilers) reconcilers with
  | Ok sorted =>
      let n :=
        if (n >? Z.of_nat (List.length sorted))%Z
        then Z.of_nat (List.length sorted) else n in
      (* sorted[:n] *)
      if (n <? 0)%Z then Panic else Ok (firstn (Z.to_nat n) sorted)
  | other => other
  end.

(** What the loop of [GenerateSummary] keeps: the three maps of the
    summary and [totalScore]. *)
Record tallies := mkTallies {
  byClassification : counts;
  byRepo : counts;
  signalFrequency : counts;
  totalScore : Z
}.

Definition tally (t : tallies) (r : Reconciler) : tallies :=
  mkTallies
    (increment (Classification r) (byClassification t))
    (increment (Repo r) (byRepo t))
    (fold_left (fun m sig => increment (Type_ sig) m) (Signals r)
       (signalFrequency t))
    (GoInt.add (totalScore t) (Score r)).

Section Summary.

(** [float64], through the conversion from [int] and the division. *)
Variable float64 : Type.
Variable zero : float64.
Variable ofInt : Z -> float64.
Variable div : float64 -> float64 -> float64.

Record Summary := mkSummary {
  TotalReconcilers : Z;
  ByClassification : counts;
  ByRepo : counts;
  SignalFrequency : counts;
  AverageScore : float64;
  TopSoTW : list Reconciler;
  TopEdge : list Reconciler
}.

Definition GenerateSummary (reconcilers : list Reconciler) (topN : Z)
  : outcome Summary :=
  let t := fold_left tally reconcilers (mkTallies [] [] [] 0) in
  let total := Z.of_nat (List.length reconcilers) in
  let average :=
    if (0 <? List.length reconcilers)%nat
    then div (ofInt (totalScore t)) (ofInt total)
    else zero in
  let summary := mkSummary total (byClassification t) (byRepo t)
                   (signalFrequency t) average in
  if (topN >? 0)%Z then
    match getTopByScore reconcilers topN true with
    | Ok topSoTW =>
        match getTopByScore reconcilers topN false with
        | Ok topEdge => Ok (summary topSoTW topEdge)
        | Err e => Err e
        | Panic => Panic
        end
    | Err e => Err e
    | Panic => Panic
    end
  else Ok (summary [] []).

End Summary.

End output.
(** ** More example inputs *)

Module MoreExamples.

Import ast models analyzer analyzerMore Examples.

(** [client.MatchingLabels{"app": req.Name}]: a composite literal. *)
Definition labelsOfRequest : expr :=
  OtherExpr [NExpr (SelectorExpr (Ident "client") "MatchingLabels");
             NExpr (OtherExpr [NExpr lit;
                               NExpr (SelectorExpr (Ident "req") "Name")])].

(** [r.List(ctx, &pods, client.MatchingLabels{"app": req.Name})] *)
Definition listByLabels : list expr :=
  [Ident "ctx"; addrOf (Ident "pods"); labelsOfRequest].

(** [types.NamespacedName{Name: req.Name, Namespace: "kube-system"}] *)
Definition keyFromRequest : expr :=
  OtherExpr [NExpr (SelectorExpr (Ident "types") "NamespacedName");
             NExpr (OtherExpr [NExpr (Ident "Name");
                               NExpr (SelectorExpr (Ident "req") "Name")]);
             NExpr (OtherExpr [NExpr (Ident "Namespace"); NExpr lit])].

(** [return ctrl.Result{}, err] inside [if err != nil { ... }]. *)
Definition returnErr : stmt :=
  ReturnStmt [OtherExpr [NExpr (SelectorExpr (Ident "ctrl") "Result")];
              Ident "err"].

(** A repository with one package, as loaded. *)
Definition exRepo : modelsMore.Repository :=
  modelsMore.mkRepository "https://github.com/example/operator" "operator"
    "example" 0 "cli" "repos/example/operator".

Definition exLoad : string -> outcome (list Loaded) :=
  fun _ => Ok [mkLoaded controllersPkg [] (Some filesFset)].

End MoreExamples.


(** ** Notions used to state further properties *)

Module MoreSpec.

Import ast models analyzer analyzerMore.

(** The three spellings of the host [ParseRepoURL] strips, and the three
    endings. *)
Definition hosts : list string :=
  ["https://github.com/"; "http://github.com/"; ""].

Definition endings : list string := [""; ".git"; "/"].

(** A package [loadPackages] leaves out: it has errors and no syntax. *)
Definition broken (pkg : Loaded) : bool :=
  (0 <? List.length (Errors pkg))%nat
  && (List.length (Syntax (package pkg)) =? 0)%nat.

(** The file set [AnalyzeRepo] works with: that of the first package, or
    a new one. *)
Definition fsetOf (pkgs : list Loaded) : token.FileSet :=
  match pkgs with
  | first :: _ =>
      match Fset first with
      | Some fs => fs
      | None => emptyFileSet
      end
  | [] => emptyFileSet
  end.

(** What every record of the analyzer satisfies. *)
Definition wellFormed (r : modelsMore.Reconciler) : Prop :=
  (modelsMore.Score r, modelsMore.Classification r)
    = Classify (modelsMore.Signals r) /\
  modelsMore.ID r
    = (modelsMore.Repo r ++ "#" ++ modelsMore.File r ++ "#"
       ++ stringsMore.itoa (modelsMore.Line r))%string /\
  modelsMore.WatchedTypes r = [] /\
  modelsMore.HasFinalizer r = false /\
  modelsMore.FullSource r = "".

(** The order [getTopByScore] sorts by: [a] may come before [b]. *)
Definition ordered (highest : bool) (a b : modelsMore.Reconciler) : Prop :=
  if highest then (modelsMore.Score b <= modelsMore.Score a)%Z
  else (modelsMore.Score a <= modelsMore.Score b)%Z.

(** One turn of the outer loop of [getTopByScore], seen from the entry at
    [i] and the entries after it: the entry left at [i], and the entries
    after it. *)
Fixpoint select (highest : bool) (x : modelsMore.Reconciler)
    (t : list modelsMore.Reconciler)
  : modelsMore.Reconciler * list modelsMore.Reconciler :=
  match t with
  | [] => (x, [])
  | y :: t' =>
      if output.better highest y x
      then (fst (select highest y t'), x :: snd (select highest y t'))
      else (fst (select highest x t'), y :: snd (select highest x t'))
  end.

(** All the turns of the outer loop. *)
Fixpoint selectAll (highest : bool) (count : nat)
    (l : list modelsMore.Reconciler) : list modelsMore.Reconciler :=
  match count, l with
  | S count', x :: t =>
      fst (select highest x t)
      :: selectAll highest count' (snd (select highest x t))
  | _, _ => []
  end.

(** The keys counted by a loop over [ks]. *)
Definition tallyKeys (ks : list string) (m : output.counts) : output.counts :=
  fold_left (fun m k => output.increment k m) ks m.

End MoreSpec.
(** * Properties *)

Module GoIntFacts.

Import GoInt.
Local Open Scope Z_scope.

Lemma wrap_in_range z : in_range (wrap z).
Proof.
  unfold in_range, wrap, min_int, max_int.
  pose proof (Z.mod_pos_bound (z + 2 ^ 63) (2 ^ 64) ltac:(lia)). lia.
Qed.

Lemma wrap_small z : in_range z -> wrap z = z.
Proof.
  unfold in_range, wrap, min_int, max_int. intros H.
  rewrite Z.mod_small; lia.
Qed.

Lemma wrap_add_l a b : wrap (wrap a + b) = wrap (a + b).
Proof.
  unfold wrap.
  replace ((a + 2 ^ 63) mod 2 ^ 64 - 2 ^ 63 + b + 2 ^ 63)
    with ((a + 2 ^ 63) mod 2 ^ 64 + b) by lia.
  rewrite Zplus_mod_idemp_l. f_equal. f_equal. lia.
Qed.

End GoIntFacts.

(** ** The classifier *)

Module ClassifierFacts.

Import models analyzer Spec.
Local Open Scope Z_scope.

(** Each score lies in exactly one band, and [classify] gives the label of
    that band. *)
Lemma classify_band (score : Z) :
  (score <= -3 /\ classify score = "edge_triggered") \/
  (-3 < score <= 0 /\ classify score = "mostly_edge") \/
  (0 < score <= 3 /\ classify score = "mostly_sotw") \/
  (3 < score /\ classify score = "sotw").
Proof.
  unfold classify, ThresholdEdgeTriggered, ThresholdMostlyEdge,
    ThresholdMostlySoTW.
  destruct (Z.leb_spec score (-3)); [left; split; [lia | reflexivity] |].
  destruct (Z.leb_spec score 0); [right; left; split; [lia | reflexivity] |].
  destruct (Z.leb_spec score 3);
    [right; right; left; split; [lia | reflexivity] |].
  right; right; right; split; [lia | reflexivity].
Qed.

Lemma labelRank_classify (score : Z) :
  labelRank (classify score) = Some (bandOf score).
Proof.
  unfold classify, bandOf, ThresholdEdgeTriggered, ThresholdMostlyEdge,
    ThresholdMostlySoTW.
  destruct (score <=? -3); [reflexivity |].
  destruct (score <=? 0); [reflexivity |].
  destruct (score <=? 3); reflexivity.
Qed.

Lemma bandOf_mono (s1 s2 : Z) : s1 <= s2 -> (bandOf s1 <= bandOf s2)%nat.
Proof.
  unfold bandOf. intros H.
  destruct (Z.leb_spec s1 (-3)), (Z.leb_spec s2 (-3)),
    (Z.leb_spec s1 0), (Z.leb_spec s2 0),
    (Z.leb_spec s1 3), (Z.leb_spec s2 3); lia.
Qed.

(** C1.  For every signal list, [Classify] labels the summed score by its
    band: [score <= -3] gives [edge_triggered], [-3 < score <= 0] gives
    [mostly_edge], [0 < score <= 3] gives [mostly_sotw] and [score > 3]
    gives [sotw]; the bands are disjoint, so the label is exactly one of the
    four.  The boundary scores -3, 0, 3 and 4 give [edge_triggered],
    [mostly_edge], [mostly_sotw] and [sotw].  The label is a function of the
    score alone, defined on every integer, and it is monotone: a larger
    score never gets a label of lower rank. *)
Theorem Classify_step_function :
  (forall signals : list Signal,
     let score := fst (Classify signals) in
     let label := snd (Classify signals) in
     label = classify score /\
     ((score <= -3 /\ label = "edge_triggered") \/
      (-3 < score <= 0 /\ label = "mostly_edge") \/
      (0 < score <= 3 /\ label = "mostly_sotw") \/
      (3 < score /\ label = "sotw"))) /\
  (forall score : Z,
     (score <= -3 /\ classify score = "edge_triggered") \/
     (-3 < score <= 0 /\ classify score = "mostly_edge") \/
     (0 < score <= 3 /\ classify score = "mostly_sotw") \/
     (3 < score /\ classify score = "sotw")) /\
  classify (-3) = "edge_triggered" /\
  classify 0 = "mostly_edge" /\
  classify 3 = "mostly_sotw" /\
  classify 4 = "sotw" /\
  (forall s1 s2 : Z, s1 <= s2 ->
     exists r1 r2 : nat,
       labelRank (classify s1) = Some r1 /\
       labelRank (classify s2) = Some r2 /\ (r1 <= r2)%nat).
Proof.
  split; [| split; [exact classify_band |]].
  - intros signals. cbn. split; [reflexivity | apply classify_band].
  - repeat (split; [reflexivity |]).
    intros s1 s2 H. exists (bandOf s1), (bandOf s2).
    repeat split; auto using labelRank_classify, bandOf_mono.
Qed.

Lemma Classify_step_function_witness :
  snd (Classify [mkSignal SignalListUnscoped 7 3 "" "";
                 mkSignal SignalLoopWrite 9 3 "" ""]) = "sotw" /\
  exists r1 r2 : nat,
    labelRank (classify (-2)) = Some r1 /\
    labelRank (classify 6) = Some r2 /\ (r1 <= r2)%nat.
Proof.
  destruct Classify_step_function as (Hsig & _ & _ & _ & _ & _ & Hmono).
  split.
  - destruct (Hsig [mkSignal SignalListUnscoped 7 3 "" "";
                    mkSignal SignalLoopWrite 9 3 "" ""])
      as (_ & [(Hlt & _) | [(Hlt & _) | [(Hlt & _) | (_ & Hl)]]]).
    + vm_compute in Hlt. exfalso. apply Hlt. reflexivity.
    + vm_compute in Hlt. destruct Hlt as (_ & Hlt). exfalso. apply Hlt. reflexivity.
    + vm_compute in Hlt. destruct Hlt as (_ & Hlt). exfalso. apply Hlt. reflexivity.
    + exact Hl.
  - apply (Hmono (-2) 6). lia.
Defined.

End ClassifierFacts.

Module ClassifierSum.

Import models analyzer Spec GoInt GoIntFacts.
Local Open Scope Z_scope.

Lemma sumScores_from (signals : list Signal) (acc : Z) :
  fold_left (fun score sig => add score (Score sig)) signals (wrap acc)
  = wrap (acc + mathSum signals).
Proof.
  revert acc. induction signals as [| sig signals IH]; intros acc; simpl.
  - now rewrite Z.add_0_r.
  - unfold add at 2. rewrite wrap_add_l, IH. f_equal. lia.
Qed.

Lemma sumScores_wrap (signals : list Signal) :
  sumScores signals = wrap (mathSum signals).
Proof.
  unfold sumScores. change 0 with (wrap 0) at 1.
  now rewrite sumScores_from.
Qed.

(** C2.  For every signal list the score computed by [Classify] is the sum
    of the [Score] fields, taken in Go's [int]: the mathematical sum reduced
    to 64-bit two's complement, hence the mathematical sum itself whenever
    that is representable.  For the empty list the score is 0 and the
    classification is [mostly_edge]. *)
Theorem Classify_score_is_sum :
  (forall signals : list Signal,
     fst (Classify signals) = wrap (mathSum signals) /\
     (in_range (mathSum signals) ->
      fst (Classify signals) = mathSum signals)) /\
  Classify [] = (0, "mostly_edge").
Proof.
  split; [| reflexivity].
  intros signals. cbn [Classify fst]. rewrite sumScores_wrap.
  split; [reflexivity | apply wrap_small].
Qed.

Lemma Classify_score_is_sum_witness :
  fst (Classify [mkSignal SignalGetReqScoped 12 (-1) "" "";
                 mkSignal SignalNotFoundIgnore 14 (-1) "" ""]) = -2.
Proof.
  destruct Classify_score_is_sum as (H & _).
  destruct (H [mkSignal SignalGetReqScoped 12 (-1) "" "";
               mkSignal SignalNotFoundIgnore 14 (-1) "" ""]) as (_ & Hexact).
  rewrite Hexact; [reflexivity |].
  unfold in_range, min_int, max_int. cbn. lia.
Defined.

End ClassifierSum.

(** ** [ast.Inspect] against the list of nodes *)

Module InspectFacts.

Import ast Spec.

Lemma visit_descend {S : Type} (f : node -> S -> S * bool) n s k s' :
  f n s = (s', true) -> visit f n s k = k s'.
Proof. unfold visit. now intros ->. Qed.

Lemma visit_prune {S : Type} (f : node -> S -> S * bool) n s k s' :
  f n s = (s', false) -> visit f n s k = s'.
Proof. unfold visit. now intros ->. Qed.

(** A closure that appends what it finds at each node and always descends
    collects over the nodes in traversal order. *)
Section Collect.

Context {A : Type} (g : node -> list A).

Lemma fold_collect {T : Type} (ins : T -> list A -> list A)
    (pre : T -> list node) (l : list T) :
  list_all T (fun x => forall s, ins x s = s ++ flat_map g (pre x)) l ->
  forall s,
    fold_left (fun acc x => ins x acc) l s = s ++ flat_map g (flat_map pre l).
Proof.
  induction 1 as [| x Hx l _ IH]; intros s; simpl.
  - now rewrite app_nil_r.
  - now rewrite Hx, IH, flat_map_app, app_assoc.
Qed.

Lemma opt_collect {T : Type} (ins : T -> list A -> list A)
    (pre : T -> list node) (o : option T) :
  option_all T (fun x => forall s, ins x s = s ++ flat_map g (pre x)) o ->
  forall s,
    match o with Some x => ins x s | None => s end
    = s ++ flat_map g (match o with Some x => pre x | None => [] end).
Proof.
  destruct 1; intros s; simpl; auto; now rewrite app_nil_r.
Qed.

Ltac collect_norm :=
  repeat rewrite ?flat_map_app, ?app_assoc, ?app_nil_r; simpl;
  repeat rewrite ?flat_map_app, ?app_assoc, ?app_nil_r.

Lemma inspect_collect :
  (forall e s,
     inspectExpr (collector g) e s = s ++ flat_map g (preorderExpr e)) /\
  (forall st s,
     inspectStmt (collector g) st s = s ++ flat_map g (preorderStmt st)) /\
  (forall b s,
     inspectBlock (collector g) b s = s ++ flat_map g (preorderBlock b)) /\
  (forall n s,
     inspectNode (collector g) n s = s ++ flat_map g (preorderNode n)).
Proof.
  apply ast_mutind; intros; cbn [inspectExpr inspectStmt inspectBlock
    inspectNode preorderExpr preorderStmt preorderBlock preorderNode];
    unfold visit, collector; cbn [flat_map];
    repeat match goal with
    | H : list_all _ _ _ |- _ =>
        rewrite (fold_collect _ _ _ H); clear H
    | H : option_all _ _ _ |- _ =>
        rewrite (opt_collect _ _ _ H); clear H
    | H : forall s, _ = _ |- _ => rewrite H; clear H
    end; collect_norm; auto.
Qed.

End Collect.

(** A closure that raises its flag at the first node satisfying [p], and
    prunes the traversal there, computes whether some node satisfies [p]. *)
Section Search.

Variable p : node -> bool.
Variable f : node -> bool -> bool * bool.
Hypothesis f_searches : forall n found, f n found = searcher p n found.

Lemma visit_search n found k :
  visit f n found k = if p n then true else k found.
Proof. unfold visit. rewrite f_searches. unfold searcher. now destruct (p n). Qed.

Lemma fold_search {T : Type} (ins : T -> bool -> bool)
    (pre : T -> list node) (l : list T) :
  list_all T (fun x => forall b, ins x b = b || existsb p (pre x)) l ->
  forall b,
    fold_left (fun acc x => ins x acc) l b = b || existsb p (flat_map pre l).
Proof.
  induction 1 as [| x Hx l _ IH]; intros b; simpl.
  - now rewrite orb_false_r.
  - now rewrite Hx, IH, existsb_app, orb_assoc.
Qed.

Lemma opt_search {T : Type} (ins : T -> bool -> bool)
    (pre : T -> list node) (o : option T) :
  option_all T (fun x => forall b, ins x b = b || existsb p (pre x)) o ->
  forall b,
    match o with Some x => ins x b | None => b end
    = b || existsb p (match o with Some x => pre x | None => [] end).
Proof.
  destruct 1; intros b; simpl; auto; now rewrite orb_false_r.
Qed.

Ltac search_cases :=
  cbn [existsb]; rewrite ?existsb_app; cbn [existsb];
  repeat match goal with
  | |- context [p ?n] => destruct (p n)
  | |- context [existsb p ?l] => destruct (existsb p l)
  end;
  repeat match goal with b : bool |- _ => destruct b end;
  reflexivity.

Lemma inspect_search :
  (forall e b,
     inspectExpr f e b = b || existsb p (preorderExpr e)) /\
  (forall st b,
     inspectStmt f st b = b || existsb p (preorderStmt st)) /\
  (forall bl b,
     inspectBlock f bl b = b || existsb p (preorderBlock bl)) /\
  (forall n b,
     inspectNode f n b = b || existsb p (preorderNode n)).
Proof.
  apply ast_mutind; intros; cbn [inspectExpr inspectStmt inspectBlock
    inspectNode preorderExpr preorderStmt preorderBlock preorderNode];
    rewrite ?visit_search;
    repeat match goal with
    | H : list_all _ _ _ |- _ =>
        rewrite (fold_search _ _ _ H); clear H
    | H : option_all _ _ _ |- _ =>
        rewrite (opt_search _ _ _ H); clear H
    | H : forall b, _ = _ |- _ => rewrite H; clear H
    end; try search_cases.
Qed.

End Search.

End InspectFacts.

(** ** The [strings] functions against their meaning *)

Module StringsFacts.

Import strings.
Local Open Scope string_scope.

Lemma append_assoc (a b c : string) : (a ++ b) ++ c = a ++ b ++ c.
Proof. induction a as [| ch a IH]; simpl; [reflexivity | now rewrite IH]. Qed.

Lemma append_nil_r (a : string) : a ++ "" = a.
Proof. induction a as [| ch a IH]; simpl; [reflexivity | now rewrite IH]. Qed.

Lemma length_append (a b : string) :
  String.length (a ++ b) = String.length a + String.length b.
Proof. induction a as [| ch a IH]; simpl; [reflexivity | now rewrite IH]. Qed.

Lemma prefix_spec (sub s : string) :
  String.prefix sub s = true <-> exists rest, s = sub ++ rest.
Proof.
  revert s. induction sub as [| c sub IH]; intros s.
  - split; [intros _; now exists s | intros _; now destruct s].
  - destruct s as [| d s]; simpl.
    + split; [discriminate | intros (rest & H); discriminate].
    + destruct (ascii_dec c d) as [-> | Hne].
      * rewrite IH. split; intros (rest & H); exists rest.
        -- now rewrite H.
        -- now injection H.
      * split; [discriminate |].
        intros (rest & H). injection H as H1 H2. congruence.
Qed.

(** [Contains s substr] holds exactly when [substr] occurs in [s]. *)
Lemma Contains_spec (s substr : string) :
  Contains s substr = true <->
  exists before after, s = before ++ substr ++ after.
Proof.
  induction s as [| c s IH]; cbn [Contains].
  - rewrite orb_false_r, prefix_spec. split.
    + intros (rest & H). now exists "", rest.
    + intros (before & after & H).
      destruct before; [simpl in H; now exists after | discriminate].
  - rewrite orb_true_iff, prefix_spec, IH. split.
    + intros [(rest & H) | (before & after & H)].
      * now exists "", rest.
      * exists (String c before), after. simpl. now rewrite H.
    + intros (before & after & H). destruct before as [| d before].
      * left. now exists after.
      * right. injection H as _ H. now exists before, after.
Qed.

Lemma substring_skip (a t : string) (m : nat) :
  substring (String.length a) m (a ++ t) = substring 0 m t.
Proof. induction a as [| c a IH]; simpl; [reflexivity | exact IH]. Qed.

Lemma substring_all (t : string) : substring 0 (String.length t) t = t.
Proof. induction t as [| c t IH]; simpl; [reflexivity | now rewrite IH]. Qed.

Lemma substring_split (s : string) (n : nat) :
  n <= String.length s ->
  s = substring 0 n s ++ substring n (String.length s - n) s.
Proof.
  revert n. induction s as [| c s IH]; intros n Hn.
  - destruct n; [reflexivity | simpl in Hn; lia].
  - destruct n as [| n].
    + cbn [substring append]. simpl String.length.
      now rewrite Nat.sub_0_r, substring_all.
    + simpl. simpl in Hn. f_equal. apply IH. lia.
Qed.

(** [HasSuffix s suffix] holds exactly when [s] ends with [suffix]. *)
Lemma HasSuffix_spec (s suffix : string) :
  HasSuffix s suffix = true <-> exists before, s = before ++ suffix.
Proof.
  unfold HasSuffix. rewrite andb_true_iff, Nat.leb_le, String.eqb_eq. split.
  - intros (Hlen & Hsub).
    exists (substring 0 (String.length s - String.length suffix) s).
    pose proof (substring_split s
                  (String.length s - String.length suffix)) as H.
    replace (String.length s - (String.length s - String.length suffix))
      with (String.length suffix) in H by lia.
    rewrite Hsub in H. apply H. lia.
  - intros (before & ->). rewrite length_append. split; [lia |].
    replace (String.length before + String.length suffix
             - String.length suffix) with (String.length before) by lia.
    now rewrite substring_skip, substring_all.
Qed.

End StringsFacts.


(** ** The pattern detector *)

Module DetectorFacts.

Import ast models analyzer Spec InspectFacts.

Section Facts.

Variable ToLower : string -> string.
Variable printerFprint : token.FileSet -> node -> option string.
Variable formatNode : token.FileSet -> node -> option string.

Local Abbreviation detect := (detectNode ToLower printerFprint formatNode).
Local Abbreviation snippet := (extractSnippet printerFprint formatNode).

(** [referencesReqParam] finds the request identifier anywhere in the
    expression, the names of member accesses included. *)
Lemma referencesReqParam_spec (pd : PatternDetector) (e : expr) :
  referencesReqParam pd e = true <->
  In (NExpr (Ident (reqParamName pd))) (preorderExpr e).
Proof.
  unfold referencesReqParam.
  set (p := fun n => match n with
                     | NExpr (Ident name) => name =? reqParamName pd
                     | _ => false
                     end).
  destruct (inspect_search p
              (fun n found =>
                 match n with
                 | NExpr (Ident name) =>
                     if name =? reqParamName pd then (true, false)
                     else (found, true)
                 | _ => (found, true)
                 end)) as (He & _).
  { intros n found. unfold searcher, p.
    destruct n as [[] | |]; reflexivity. }
  rewrite He. cbn [orb]. rewrite existsb_exists. split.
  - intros (n & Hin & Hp). unfold p in Hp.
    destruct n as [[] | |]; try discriminate.
    apply String.eqb_eq in Hp. now subst.
  - intros Hin. eexists. split; [exact Hin |]. cbn. apply String.eqb_refl.
Qed.

Lemma listOptionFlags_from (pd : PatternDetector) (opts : list expr)
    (a b c : bool) :
  fold_left (fun '(hasReqScopedOpts, hasNamespaceOpt, hasLabelOpt) arg =>
    (if referencesReqParam pd arg then true else hasReqScopedOpts,
     if isNamespaceOption arg then true else hasNamespaceOpt,
     if isLabelMatchOption arg then true else hasLabelOpt))
    opts (a, b, c) =
  (a || existsb (referencesReqParam pd) opts,
   b || existsb isNamespaceOption opts,
   c || existsb isLabelMatchOption opts).
Proof.
  revert a b c.
  induction opts as [| arg opts IH]; intros a b c; cbn [fold_left existsb].
  - now rewrite !orb_false_r.
  - rewrite IH.
    destruct (referencesReqParam pd arg), (isNamespaceOption arg),
      (isLabelMatchOption arg), a, b, c; reflexivity.
Qed.

Lemma listOptionFlags_spec (pd : PatternDetector) (opts : list expr) :
  listOptionFlags pd opts =
  (existsb (referencesReqParam pd) opts,
   existsb isNamespaceOption opts,
   existsb isLabelMatchOption opts).
Proof. unfold listOptionFlags. now rewrite listOptionFlags_from. Qed.

Lemma length_ge_ltb (A : Type) (l : list A) (n : nat) :
  n <= List.length l -> (List.length l <? n)%nat = false.
Proof. intros H. now apply Nat.ltb_ge. Qed.

(** C3, as amended.  For a [List] call that passes the client-call test and
    has at least two arguments: if some argument beyond the first two
    mentions the request parameter, some argument beyond the first two is a
    namespace-scope option call and none is a label/field-scope option
    call, the detector emits for that call exactly the
    namespace-scoped-list signal, with score +1. *)
Theorem namespace_scoped_list (pd : PatternDetector) (sp : Span) (x : expr)
    (args : list expr) :
  isClientCall ToLower pd x "List" = true ->
  2 <= List.length args ->
  (exists arg, In arg (listOptions args) /\
               In (NExpr (Ident (reqParamName pd))) (preorderExpr arg)) ->
  (exists arg, In arg (listOptions args) /\ isNamespaceOption arg = true) ->
  (forall arg, In arg (listOptions args) -> isLabelMatchOption arg = false) ->
  let call := NExpr (CallExpr sp (SelectorExpr x "List") args) in
  detect pd call =
  [mkSignal SignalListNamespaceScoped (lineOf pd call) 1 (snippet pd call)
     "client.List scoped to request namespace only"].
Proof.
  intros Hclient Hlen (a1 & Hin1 & Href) (a2 & Hin2 & Hns) Hlabel call.
  assert (Hr : existsb (referencesReqParam pd) (listOptions args) = true).
  { apply existsb_exists. exists a1. split; [exact Hin1 |].
    now apply referencesReqParam_spec. }
  assert (Hn : existsb isNamespaceOption (listOptions args) = true).
  { apply existsb_exists. now exists a2. }
  assert (Hl : existsb isLabelMatchOption (listOptions args) = false).
  { apply not_true_is_false. intros H. apply existsb_exists in H.
    destruct H as (a & Hin & Ha). rewrite (Hlabel a Hin) in Ha. discriminate. }
  unfold call. cbn [detectNode detectCallPatterns]. rewrite Hclient.
  cbn [negb String.eqb Ascii.eqb Bool.eqb]. unfold analyzeListCall.
  rewrite (length_ge_ltb _ _ _ Hlen), listOptionFlags_spec.
  fold (listOptions args). rewrite Hr, Hn, Hl. reflexivity.
Qed.

(** When no argument beyond the first two mentions the request parameter,
    the call is an unscoped list whatever option calls it has. *)
Lemma unscoped_list_first (pd : PatternDetector) (sp : Span) (x : expr)
    (args : list expr) :
  isClientCall ToLower pd x "List" = true ->
  2 <= List.length args ->
  (forall arg, In arg (listOptions args) ->
               ~ In (NExpr (Ident (reqParamName pd))) (preorderExpr arg)) ->
  let call := NExpr (CallExpr sp (SelectorExpr x "List") args) in
  detect pd call =
  [mkSignal SignalListUnscoped (lineOf pd call) 3 (snippet pd call)
     "client.List without request-scoped selectors"].
Proof.
  intros Hclient Hlen Hnone call.
  assert (Hr : existsb (referencesReqParam pd) (listOptions args) = false).
  { apply not_true_is_false. intros H. apply existsb_exists in H.
    destruct H as (a & Hin & Ha). apply referencesReqParam_spec in Ha.
    exact (Hnone a Hin Ha). }
  unfold call. cbn [detectNode detectCallPatterns]. rewrite Hclient.
  cbn [negb String.eqb Ascii.eqb Bool.eqb]. unfold analyzeListCall.
  rewrite (length_ge_ltb _ _ _ Hlen), listOptionFlags_spec.
  fold (listOptions args). rewrite Hr. reflexivity.
Qed.

(** The detector never consults the symbol resolver. *)
Lemma detect_resolver_independent (pd : PatternDetector)
    (info : option (expr -> option string)) (n : node) :
  detect (withTypesInfo pd info) n = detect pd n.
Proof. reflexivity. Qed.

(** C4.  For a [Get] call that passes the client-call test and has at least
    three arguments, whose key (second) argument is the member access
    [NamespacedName] on the identifier named as the request parameter, the
    detector emits for that call exactly one signal, the request-scoped-get
    one with score -1: no derived-get and no unrelated-get signal, and the
    same with any symbol resolver or none. *)
Theorem request_scoped_get (pd : PatternDetector) (sp : Span) (x : expr)
    (args : list expr) :
  isClientCall ToLower pd x "Get" = true ->
  3 <= List.length args ->
  nth_error args 1 =
    Some (SelectorExpr (Ident (reqParamName pd)) "NamespacedName") ->
  let call := NExpr (CallExpr sp (SelectorExpr x "Get") args) in
  detect pd call =
    [mkSignal SignalGetReqScoped (lineOf pd call) (-1) (snippet pd call)
       "client.Get with req.NamespacedName (primary resource fetch)"] /\
  (forall sig, In sig (detect pd call) ->
     Type_ sig <> SignalGetDerived /\ Type_ sig <> SignalGetUnrelated) /\
  (forall info, detect (withTypesInfo pd info) call = detect pd call).
Proof.
  intros Hclient Hlen Hkey call.
  assert (Hd : detect pd call =
    [mkSignal SignalGetReqScoped (lineOf pd call) (-1) (snippet pd call)
       "client.Get with req.NamespacedName (primary resource fetch)"]).
  { unfold call. cbn [detectNode detectCallPatterns]. rewrite Hclient.
    cbn [negb String.eqb Ascii.eqb Bool.eqb]. unfold analyzeGetCall.
    rewrite (length_ge_ltb _ _ _ Hlen).
    destruct args as [| a0 [| keyArg rest]]; try discriminate.
    cbn in Hkey. injection Hkey as ->.
    cbn [isReqNamespacedName negb String.eqb Ascii.eqb Bool.eqb].
    rewrite String.eqb_refl. reflexivity. }
  split; [exact Hd | split].
  - rewrite Hd. intros sig [<- | []]. split; discriminate.
  - intros info. apply detect_resolver_independent.
Qed.

Lemma hasWriteOperation_spec (pd : PatternDetector) (body : block) :
  hasWriteOperation ToLower pd body =
  existsb (isWriteCall ToLower pd) (preorderBlock body).
Proof.
  unfold hasWriteOperation.
  destruct (inspect_search (isWriteCall ToLower pd)
              (fun n hasWrite =>
                 match n with
                 | NExpr (CallExpr _ (SelectorExpr x sel) _) =>
                     if isClientCall ToLower pd x sel then
                       if isWriteVerb sel then (true, false)
                       else (hasWrite, true)
                     else (hasWrite, true)
                 | _ => (hasWrite, true)
                 end)) as (_ & _ & Hb & _).
  { intros n found. unfold searcher, isWriteCall.
    destruct n as [[| | csp [| cx csel | | |] cargs | |] | |];
      try reflexivity.
    destruct (isClientCall ToLower pd cx csel), (isWriteVerb csel);
      reflexivity. }
  now rewrite Hb.
Qed.

Lemma filter_nonempty_existsb {A : Type} (p : A -> bool) (l : list A) :
  1 <= List.length (filter p l) -> existsb p l = true.
Proof.
  induction l as [| a l IH]; cbn [filter existsb List.length].
  - lia.
  - destruct (p a); [reflexivity | exact IH].
Qed.

(** C5.  For a [for] or [range] loop whose body contains N >= 1 client
    write-verb calls, anywhere inside it and whether or not they mention
    the request parameter, the detector emits at the loop exactly one
    signal: loop-write with score +3, at the loop's own line. *)
Theorem loop_write_once (pd : PatternDetector) (loop : stmt) (body : block) :
  loopBody loop = Some body ->
  1 <= List.length (writeCalls ToLower pd body) ->
  detect pd (NStmt loop) =
  [mkSignal SignalLoopWrite (lineOf pd (NStmt loop)) 3
     (snippet pd (NStmt loop))
     "Loop containing write operations (SoTW pattern)"].
Proof.
  intros Hloop Hn. apply filter_nonempty_existsb in Hn.
  destruct loop as [| | | | lsp init cond post b | lsp key value x b |];
    try discriminate; cbn in Hloop; subst b;
    cbn [detectNode detectLoopPatterns detectRangeLoopPatterns loopSignals];
    now rewrite hasWriteOperation_spec, Hn.
Qed.

Lemma isEarlyReturn_spec (body : block) :
  isEarlyReturn body = true <-> directReturn body.
Proof.
  unfold isEarlyReturn, directReturn. rewrite existsb_exists. split.
  - intros (st & Hin & Hst). destruct st; try discriminate. eauto.
  - intros (results & Hin). eauto.
Qed.

Lemma isNilReturn_spec (body : block) :
  isNilReturn body = true <-> nilReturned body.
Proof.
  unfold isNilReturn, nilReturned. rewrite existsb_exists. split.
  - intros (st & Hin & Hst).
    destruct st as [| results | | | | |]; try discriminate.
    destruct (List.length results =? 0)%nat; [discriminate |].
    apply existsb_exists in Hst. destruct Hst as (r & Hr & Hnil).
    destruct r; try discriminate. apply String.eqb_eq in Hnil. subst.
    eauto.
  - intros (results & Hin & Hnil). exists (ReturnStmt results).
    split; [exact Hin |].
    destruct results as [| r results]; [destruct Hnil |].
    cbn [List.length Nat.eqb]. apply existsb_exists.
    exists (Ident "nil"). split; [exact Hnil | reflexivity].
Qed.

(** C6.  For an if-statement whose condition is a call to a member named
    [IsNotFound]: when the body has a return statement among its own
    statements and one of these returns has the identifier [nil] among its
    values, exactly one notfound-ignore signal with score -1 is emitted;
    when the body has such a return statement but none returns [nil],
    exactly one notfound-early-return signal with score -2; when the body
    has no return statement of its own, no signal. *)
Theorem notfound_signals (pd : PatternDetector) (sp csp : Span)
    (init els : option stmt) (x : expr) (cargs : list expr) (body : block) :
  let cond := CallExpr csp (SelectorExpr x "IsNotFound") cargs in
  let ifStmt := NStmt (IfStmt sp init cond body els) in
  (directReturn body -> nilReturned body ->
   detect pd ifStmt =
   [mkSignal SignalNotFoundIgnore (lineOf pd ifStmt) (-1) (snippet pd ifStmt)
      "Early return on NotFound (ignores deletes)"]) /\
  (directReturn body -> ~ nilReturned body ->
   detect pd ifStmt =
   [mkSignal SignalNotFoundEarlyReturn (lineOf pd ifStmt) (-2)
      (snippet pd ifStmt)
      "NotFound handling with delete logic (classic edge-triggered pattern)"]) /\
  (~ directReturn body -> detect pd ifStmt = []).
Proof.
  intros cond ifStmt. unfold ifStmt, cond.
  cbn [detectNode detectControlFlowPatterns isNotFoundCheck String.eqb
       Ascii.eqb Bool.eqb].
  repeat split.
  - intros Hret Hnil. apply isEarlyReturn_spec in Hret.
    apply isNilReturn_spec in Hnil. now rewrite Hret, Hnil.
  - intros Hret Hnil. apply isEarlyReturn_spec in Hret.
    rewrite Hret. destruct (isNilReturn body) eqn:E; [| reflexivity].
    apply isNilReturn_spec in E. contradiction.
  - intros Hret. destruct (isEarlyReturn body) eqn:E; [| reflexivity].
    apply isEarlyReturn_spec in E. contradiction.
Qed.

End Facts.

Import Examples.

Local Abbreviation exDetect :=
  (detectNode strings.ToLowerASCII noRender noRender exPd).

(** C3, as stated, fails on [r.List(ctx, &pods, client.InNamespace("default"))]:
    the call passes the client-call test and has three arguments, the third
    is a namespace-scope option call and none is a label/field-scope one,
    yet the namespace is not taken from the request and the signal emitted
    is the unscoped-list one with score +3. *)
Lemma namespace_option_without_request :
  isClientCall strings.ToLowerASCII exPd (Ident "r") "List" = true /\
  2 <= List.length fixedNamespaceArgs /\
  existsb isNamespaceOption (listOptions fixedNamespaceArgs) = true /\
  existsb isLabelMatchOption (listOptions fixedNamespaceArgs) = false /\
  exDetect (NExpr listFixedNamespace) =
    [mkSignal SignalListUnscoped 4 3 "<unprintable>"
       "client.List without request-scoped selectors"] /\
  ~ (exists sig, In sig (exDetect (NExpr listFixedNamespace)) /\
                 Type_ sig = SignalListNamespaceScoped).
Proof.
  split; [reflexivity |].
  split; [vm_compute; lia |].
  split; [reflexivity |].
  split; [reflexivity |].
  split; [reflexivity |].
  intros (sig & [<- | []] & H). discriminate.
Qed.

Lemma namespace_scoped_list_witness :
  exDetect (NExpr listReqNamespace) =
  [mkSignal SignalListNamespaceScoped 4 1 "<unprintable>"
     "client.List scoped to request namespace only"].
Proof.
  apply (namespace_scoped_list strings.ToLowerASCII noRender noRender exPd
           (mkSpan 120 175) (Ident "r") reqNamespaceArgs).
  - reflexivity.
  - vm_compute. lia.
  - eexists. split; [cbn; left; reflexivity |]. cbn. auto 10.
  - eexists. split; [cbn; left; reflexivity |]. reflexivity.
  - intros arg [<- | []]. reflexivity.
Defined.

Lemma request_scoped_get_witness :
  exDetect (NExpr getPrimary) =
  [mkSignal SignalGetReqScoped 3 (-1) "<unprintable>"
     "client.Get with req.NamespacedName (primary resource fetch)"].
Proof.
  apply (request_scoped_get strings.ToLowerASCII noRender noRender exPd
           (mkSpan 80 118) (Ident "r")
           [Ident "ctx"; SelectorExpr (Ident "req") "NamespacedName";
            addrOf (Ident "pod")]).
  - reflexivity.
  - vm_compute. lia.
  - reflexivity.
Defined.

Lemma loop_write_once_witness :
  List.length (writeCalls strings.ToLowerASCII exPd twoUpdates) = 2 /\
  exDetect (NStmt rangeTwoUpdates) =
  [mkSignal SignalLoopWrite 6 3 "<unprintable>"
     "Loop containing write operations (SoTW pattern)"].
Proof.
  split; [reflexivity |].
  apply (loop_write_once strings.ToLowerASCII noRender noRender exPd
           rangeTwoUpdates twoUpdates).
  - reflexivity.
  - vm_compute. lia.
Defined.

Lemma notfound_signals_witness :
  exDetect (NStmt ifNotFoundReturnNil) =
  [mkSignal SignalNotFoundIgnore 8 (-1) "<unprintable>"
     "Early return on NotFound (ignores deletes)"].
Proof.
  apply (notfound_signals strings.ToLowerASCII noRender noRender exPd
           (mkSpan 300 360) (mkSpan 303 328) None None (Ident "apierrors")
           [Ident "err"] returnNil).
  - eexists. cbn. left. reflexivity.
  - eexists. cbn. split; [left; reflexivity | right; left; reflexivity].
Defined.

End DetectorFacts.

(** ** The walk of [DetectPatterns] *)

Module WalkFacts.

Import ast models analyzer Spec InspectFacts.

(** *** The walk *)

Section Walk.

Variable ToLower : string -> string.
Variable printerFprint : token.FileSet -> node -> option string.
Variable formatNode : token.FileSet -> node -> option string.

Local Abbreviation detect := (detectNode ToLower printerFprint formatNode).

(** [DetectPatterns] gives the signals of the nodes of the body, node by
    node in traversal order. *)
Lemma DetectPatterns_walk (pd : PatternDetector) (fn : FuncDecl) :
  DetectPatterns ToLower printerFprint formatNode pd fn =
  match Body fn with
  | None => []
  | Some body => flat_map (detect pd) (preorderBlock body)
  end.
Proof.
  unfold DetectPatterns. destruct (Body fn) as [body |]; [| reflexivity].
  destruct (inspect_collect (detect pd)) as (_ & _ & Hb & _).
  apply (Hb body []).
Qed.

(** The signals of a node of the body are among those of the function. *)
Lemma DetectPatterns_node (pd : PatternDetector) (fn : FuncDecl)
    (body : block) (n : node) (sig : Signal) :
  Body fn = Some body -> In n (preorderBlock body) -> In sig (detect pd n) ->
  In sig (DetectPatterns ToLower printerFprint formatNode pd fn).
Proof.
  intros Hb Hn Hs. rewrite DetectPatterns_walk, Hb.
  apply in_flat_map. eauto.
Qed.

(** A loop-write signal comes from a loop and from nothing else. *)
Lemma loop_write_only_at_loops (pd : PatternDetector) (n : node)
    (sig : Signal) :
  In sig (detect pd n) -> Type_ sig = SignalLoopWrite ->
  exists loop body, n = NStmt loop /\ loopBody loop = Some body.
Proof.
  intros Hin Ht.
  destruct n as [[| | csp fn args | |]
                | [| | | isp init cond body els | lsp init cond post body
                   | lsp key value x body |] |];
    cbn [detectNode] in Hin; try destruct Hin.
  - unfold detectCallPatterns in Hin.
    destruct fn as [| x m | | |]; try destruct Hin.
    destruct (negb (isClientCall ToLower pd x m)); [destruct Hin |].
    unfold keepTyped, analyzeListCall, analyzeGetCall, analyzeWriteCall in Hin.
    repeat match type of Hin with
    | context [if ?c then _ else _] => destruct c
    | context [let '(_, _) := ?p in _] => destruct p as ((?, ?), ?)
    | context [match ?l with [] => _ | _ :: _ => _ end] => destruct l
    end; cbn in Hin;
    repeat match type of Hin with
    | _ \/ _ => destruct Hin as [Hin | Hin]
    | False => destruct Hin
    | _ = sig => subst sig; discriminate Ht
    end.
  - unfold detectControlFlowPatterns in Hin.
    repeat match type of Hin with
    | context [if ?c then _ else _] => destruct c
    end; cbn in Hin;
    repeat match type of Hin with
    | _ \/ _ => destruct Hin as [Hin | Hin]
    | False => destruct Hin
    | _ = sig => subst sig; discriminate Ht
    end.
  - unfold detectLoopPatterns, loopSignals in Hin.
    destruct body as [b |]; [| destruct Hin].
    exists (ForStmt lsp init cond post (Some b)), b. auto.
  - unfold detectRangeLoopPatterns, loopSignals in Hin.
    destruct body as [b |]; [| destruct Hin].
    exists (RangeStmt lsp key value x (Some b)), b. auto.
Qed.

End Walk.

Import Examples.

Local Abbreviation exPatterns :=
  (DetectPatterns strings.ToLowerASCII noRender noRender exPd).

(** The fetch of the primary resource with the not-found guard. *)
Example fetch_and_ignore :
  map (fun sig => (Type_ sig, Score sig)) (exPatterns fetchAndIgnore)
    = [("get_req_scoped", -1); ("notfound_ignore", -1)]%Z /\
  Classify (exPatterns fetchAndIgnore) = (-2, "mostly_edge")%Z.
Proof. split; reflexivity. Qed.

(** A list without options. *)
Example list_all :
  map (fun sig => (Type_ sig, Score sig))
      (exPatterns (reconcilerWith [ExprStmt listAll]))
    = [("list_unscoped", 3)]%Z /\
  Classify (exPatterns (reconcilerWith [ExprStmt listAll]))
    = (3, "mostly_sotw")%Z.
Proof. split; reflexivity. Qed.

(** A list without options, then a loop with two updates: the loop gives
    one signal, and each update its own. *)
Example list_and_update_all :
  map (fun sig => (Type_ sig, Score sig)) (exPatterns listAndUpdateAll)
    = [("list_unscoped", 3); ("loop_write", 3);
       ("single_write", -1); ("single_write", -1)]%Z /\
  Classify (exPatterns listAndUpdateAll) = (4, "sotw")%Z.
Proof. split; reflexivity. Qed.

End WalkFacts.

(** ** The signature matcher *)

Module FinderFacts.

Import ast models analyzer Spec StringsFacts.

(** The result of [typeNameContains], by the shape of the type expression. *)
Lemma typeNameContains_named (e : expr) (pkg : Package) (marker name : string) :
  syntacticName e = Some name ->
  typeNameContains e pkg marker = strings.Contains name marker.
Proof. destruct e; cbn; intros H; inversion H; reflexivity. Qed.

Lemma typeNameContains_unnamed (e : expr) (pkg : Package) (marker : string) :
  syntacticName e = None ->
  typeNameContains e pkg marker =
  match TypesInfo pkg with
  | Some info =>
      match info e with
      | Some description => strings.Contains description marker
      | None => false
      end
  | None => false
  end.
Proof. destruct e; cbn; intros H; inversion H; reflexivity. Qed.

(** C7, as amended.  The matcher tests the syntactic type name for the
    marker whenever the type expression has one (an identifier, or the final
    segment of a member access), and that test alone decides, whether or not
    the name has the marker and whatever the resolver knows.  Only for a
    type expression of another shape does it fall back to the resolved-type
    description string, when a resolver is available and has a type for the
    expression.  Without a resolver the check is the syntactic one alone
    (false for an expression without a syntactic name); it has a result in
    every case. *)
Theorem typeNameContains_fallback (e : expr) (pkg : Package)
    (marker : string) :
  (forall name, syntacticName e = Some name ->
     typeNameContains e pkg marker = strings.Contains name marker /\
     forall pkg', typeNameContains e pkg' marker
                  = typeNameContains e pkg marker) /\
  (syntacticName e = None ->
   forall info description,
     TypesInfo pkg = Some info -> info e = Some description ->
     typeNameContains e pkg marker = strings.Contains description marker) /\
  (syntacticName e = None ->
   forall info, TypesInfo pkg = Some info -> info e = None ->
     typeNameContains e pkg marker = false) /\
  (TypesInfo pkg = None ->
   typeNameContains e pkg marker =
   match syntacticName e with
   | Some name => strings.Contains name marker
   | None => false
   end).
Proof.
  repeat split.
  - now apply typeNameContains_named.
  - intros pkg'. now rewrite !(typeNameContains_named _ _ _ name).
  - intros Hn info d Hi Hd.
    now rewrite typeNameContains_unnamed, Hi, Hd.
  - intros Hn info Hi Hd. now rewrite typeNameContains_unnamed, Hi, Hd.
  - intros Hi. destruct (syntacticName e) as [name |] eqn:E.
    + now apply typeNameContains_named.
    + now rewrite typeNameContains_unnamed, Hi.
Qed.

Import Examples.

(** C7, as stated, fails on a parameter of type [Ctx], an alias of
    [context.Context]: the syntactic name lacks the marker, a resolver is
    available and its description of the type has the marker, yet there is
    no fallback and the check answers false. *)
Lemma named_type_without_marker_no_fallback :
  syntacticName (Ident "Ctx") = Some "Ctx" /\
  strings.Contains "Ctx" "Context" = false /\
  TypesInfo aliasPkg = Some aliasInfo /\
  aliasInfo (Ident "Ctx") = Some "context.Context" /\
  strings.Contains "context.Context" "Context" = true /\
  isContextType (Ident "Ctx") aliasPkg = false.
Proof. repeat split. Qed.

Lemma typeNameContains_fallback_witness :
  isRequestType (StarExpr (SelectorExpr (Ident "ctrl") "Request")) aliasPkg
  = true /\
  isContextType (SelectorExpr (Ident "context") "Context") aliasPkg = true /\
  isContextType (StarExpr (Ident "Ctx")) exPkg = false.
Proof.
  split; [| split].
  - destruct (typeNameContains_fallback
                (StarExpr (SelectorExpr (Ident "ctrl") "Request"))
                aliasPkg "Request") as (_ & H & _).
    unfold isRequestType.
    rewrite (H eq_refl aliasInfo
               "*sigs.k8s.io/controller-runtime/pkg/reconcile.Request"
               eq_refl eq_refl).
    reflexivity.
  - destruct (typeNameContains_fallback
                (SelectorExpr (Ident "context") "Context")
                aliasPkg "Context") as (H & _).
    destruct (H "Context" eq_refl) as (H1 & _).
    unfold isContextType. rewrite H1. reflexivity.
  - destruct (typeNameContains_fallback (StarExpr (Ident "Ctx")) exPkg
                "Context") as (_ & _ & _ & H).
    unfold isContextType. rewrite (H eq_refl). reflexivity.
Defined.

(** *** [FindReconcileFunctions] as a selection *)

Lemma visitDecl_app (pkg : Package) (file : File)
    (results : list ReconcileFunc) (d : Decl) :
  visitDecl pkg file results d = results ++ visitDecl pkg file [] d.
Proof.
  unfold visitDecl. destruct d as [fn | ch]; [| now rewrite app_nil_r].
  destruct (numFields (Recv fn) =? 0)%nat; [now rewrite app_nil_r |].
  destruct (negb (Name fn =? "Reconcile")); [now rewrite app_nil_r |].
  destruct (negb (matchesReconcileSignature fn pkg));
    [now rewrite app_nil_r |].
  now destruct (extractReceiverInfo fn pkg).
Qed.

Lemma fold_select {A B : Type} (step : list B -> A -> list B)
    (sel : A -> list B) (l : list A) :
  (forall results a, step results a = results ++ sel a) ->
  forall results, fold_left step l results = results ++ flat_map sel l.
Proof.
  intros Hstep. induction l as [| a l IH]; intros results; cbn.
  - now rewrite app_nil_r.
  - now rewrite IH, Hstep, app_assoc.
Qed.

Lemma FindReconcileFunctions_select (rf : ReconcileFinder)
    (pkgs : list Package) :
  FindReconcileFunctions rf pkgs = flat_map (selectPkg rf) pkgs.
Proof.
  unfold FindReconcileFunctions.
  rewrite (fold_select _ (selectPkg rf)); [reflexivity |].
  intros results pkg. unfold selectPkg.
  destruct (strings.HasSuffix (PkgPath pkg) "_test");
    [now rewrite app_nil_r |].
  apply fold_select. intros results' file. unfold selectFile.
  destruct (strings.HasSuffix _ "_test.go"); [now rewrite app_nil_r |].
  apply fold_select. intros. apply visitDecl_app.
Qed.

(** What a selected candidate records. *)
Lemma visitDecl_In (pkg : Package) (file : File) (d : Decl)
    (r : ReconcileFunc) :
  In r (visitDecl pkg file [] d) ->
  Pkg r = pkg /\ File_ r = file /\ d = DFunc (Func r) /\
  Name (Func r) = "Reconcile" /\
  matchesReconcileSignature (Func r) pkg = true.
Proof.
  unfold visitDecl. destruct d as [fn | ch]; [| intros []].
  destruct (numFields (Recv fn) =? 0)%nat; [intros [] |].
  destruct (Name fn =? "Reconcile") eqn:En; [| intros []].
  destruct (matchesReconcileSignature fn pkg) eqn:Em; [| intros []].
  cbn [negb]. destruct (extractReceiverInfo fn pkg).
  intros [<- | []]. cbn. apply String.eqb_eq in En. auto.
Qed.

(** C10.  A candidate selected by [FindReconcileFunctions] comes from one
    of the packages and files given, and never from a package whose import
    path ends with [_test] nor from a file whose name ends with [_test.go],
    whatever its name and signature. *)
Theorem test_sources_excluded (rf : ReconcileFinder) (pkgs : list Package)
    (r : ReconcileFunc) :
  In r (FindReconcileFunctions rf pkgs) ->
  ~ endsWith (PkgPath (Pkg r)) "_test" /\
  ~ endsWith (token.Filename (rfFset rf (FilePos (File_ r)))) "_test.go" /\
  In (Pkg r) pkgs /\
  In (File_ r) (Syntax (Pkg r)) /\
  In (DFunc (Func r)) (Decls (File_ r)).
Proof.
  rewrite FindReconcileFunctions_select. intros H.
  apply in_flat_map in H. destruct H as (pkg & Hpkg & H).
  unfold selectPkg in H.
  destruct (strings.HasSuffix (PkgPath pkg) "_test") eqn:Ep; [destruct H |].
  apply in_flat_map in H. destruct H as (file & Hfile & H).
  unfold selectFile in H.
  destruct (strings.HasSuffix _ "_test.go") eqn:Ef; [destruct H |].
  apply in_flat_map in H. destruct H as (d & Hd & H).
  apply visitDecl_In in H. destruct H as (-> & -> & -> & _).
  repeat split; auto.
  - intros Hs. apply HasSuffix_spec in Hs. congruence.
  - intros Hs. apply HasSuffix_spec in Hs. congruence.
Qed.

Lemma test_sources_excluded_witness :
  FindReconcileFunctions exFinder [controllersTestPkg; controllersPkg] =
    [mkReconcileFunc controllersPkg sourceFile reconcileDecl "PodReconciler"
       "example.com/operator/controllers"] /\
  ~ endsWith "example.com/operator/controllers" "_test" /\
  ~ endsWith "controllers/pod_controller.go" "_test.go".
Proof.
  split; [reflexivity |].
  destruct (test_sources_excluded exFinder
              [controllersTestPkg; controllersPkg]
              (mkReconcileFunc controllersPkg sourceFile reconcileDecl
                 "PodReconciler" "example.com/operator/controllers"))
    as (Hp & Hf & _).
  - vm_compute. left. reflexivity.
  - split; [exact Hp | exact Hf].
Defined.

(** *** Partial signatures *)

Lemma numFields_le_declared (fl : FieldList) : numFields fl <= declared fl.
Proof.
  destruct fl as [l |]; cbn [numFields declared]; [| lia].
  induction l as [| f l IH]; cbn -[Nat.max]; [lia |].
  cbn -[Nat.max] in IH.
  pose proof (Nat.le_max_l 1 (List.length (Names f))).
  unfold list_sum in IH. lia.
Qed.

Lemma matches_needs_two (fn : FuncDecl) (pkg : Package) :
  numFields (Params (FType fn)) < 2 \/ numFields (Results (FType fn)) < 2 ->
  matchesReconcileSignature fn pkg = false.
Proof.
  unfold matchesReconcileSignature, numFields.
  destruct (Params (FType fn)) as [params |]; [| reflexivity].
  destruct (Nat.ltb_spec (List.length params) 2) as [| Hp]; [reflexivity |].
  destruct (Results (FType fn)) as [results |]; [| reflexivity].
  destruct (Nat.ltb_spec (List.length results) 2) as [| Hr]; [reflexivity |].
  lia.
Qed.

Lemma typeNameContains_ext (e : expr) (p1 p2 : Package) (marker : string) :
  TypesInfo p1 = TypesInfo p2 ->
  typeNameContains e p1 marker = typeNameContains e p2 marker.
Proof. intros H. unfold typeNameContains. now rewrite H. Qed.

Lemma matches_ext (fn : FuncDecl) (p1 p2 : Package) :
  TypesInfo p1 = TypesInfo p2 ->
  matchesReconcileSignature fn p1 = matchesReconcileSignature fn p2.
Proof.
  intros H. unfold matchesReconcileSignature, isContextType, isRequestType,
    isResultType, isErrorType.
  destruct (Params (FType fn)) as [[| p [| q params]] |]; try reflexivity.
  destruct (Results (FType fn)) as [[| r [| t results]] |]; try reflexivity.
  now rewrite !(typeNameContains_ext _ p1 p2 _ H).
Qed.

Lemma candidate_visitDecl_ext (p1 p2 : Package) (f1 f2 : File) (d : Decl) :
  TypesInfo p1 = TypesInfo p2 -> PkgPath p1 = PkgPath p2 ->
  map candidate (visitDecl p1 f1 [] d) = map candidate (visitDecl p2 f2 [] d).
Proof.
  intros Hi Hp. unfold visitDecl. destruct d as [fn | ch]; [| reflexivity].
  rewrite (matches_ext fn p1 p2 Hi). unfold extractReceiverInfo.
  rewrite Hp.
  destruct (numFields (Recv fn) =? 0)%nat; [reflexivity |].
  destruct (negb (Name fn =? "Reconcile")); [reflexivity |].
  destruct (negb (matchesReconcileSignature fn p2)); [reflexivity |].
  destruct (Recv fn) as [[| recvField l] |]; reflexivity.
Qed.

Lemma map_flat_map_ext {A B C : Type} (g : B -> C) (f1 f2 : A -> list B)
    (l : list A) :
  (forall a, In a l -> map g (f1 a) = map g (f2 a)) ->
  map g (flat_map f1 l) = map g (flat_map f2 l).
Proof.
  induction l as [| a l IH]; intros H; cbn; [reflexivity |].
  rewrite !map_app, (H a (or_introl eq_refl)), IH; auto.
  intros b Hb. apply H. now right.
Qed.

Lemma candidate_selectFile_ext (rf : ReconcileFinder) (p1 p2 : Package)
    (file : File) :
  TypesInfo p1 = TypesInfo p2 -> PkgPath p1 = PkgPath p2 ->
  map candidate (selectFile rf p1 file) = map candidate (selectFile rf p2 file).
Proof.
  intros Hi Hp. unfold selectFile.
  destruct (strings.HasSuffix _ "_test.go"); [reflexivity |].
  apply map_flat_map_ext. intros d _. now apply candidate_visitDecl_ext.
Qed.

(** C8.  A function declaration with fewer than two declared parameters or
    fewer than two declared return types is not matched, in any package,
    and leaves the selection of the rest of the tree as it is: the
    candidates found are the same with the declaration in the tree and
    without it.  The matcher answers a boolean and the finder a list; there
    is no error to report. *)
Theorem partial_signature_not_selected (fn : FuncDecl) :
  declared (Params (FType fn)) < 2 \/ declared (Results (FType fn)) < 2 ->
  (forall pkg, matchesReconcileSignature fn pkg = false) /\
  (forall rf pkgs1 pkgs2 path info files1 files2 pos decls1 decls2,
     map candidate
       (FindReconcileFunctions rf
          (pkgs1 ++
           mkPackage path info
             (files1 ++ mkFile pos (decls1 ++ DFunc fn :: decls2) :: files2)
           :: pkgs2))
     = map candidate
         (FindReconcileFunctions rf
            (pkgs1 ++
             mkPackage path info
               (files1 ++ mkFile pos (decls1 ++ decls2) :: files2)
             :: pkgs2))).
Proof.
  intros Hfew.
  assert (Hno : forall pkg, matchesReconcileSignature fn pkg = false).
  { intros pkg. apply matches_needs_two.
    pose proof (numFields_le_declared (Params (FType fn))).
    pose proof (numFields_le_declared (Results (FType fn))). lia. }
  split; [exact Hno |].
  intros rf pkgs1 pkgs2 path info files1 files2 pos decls1 decls2.
  rewrite !FindReconcileFunctions_select, !flat_map_app, !map_app.
  f_equal. cbn [flat_map]. rewrite !map_app. f_equal.
  unfold selectPkg. cbn [PkgPath Syntax].
  destruct (strings.HasSuffix path "_test"); [reflexivity |].
  rewrite !flat_map_app, !map_app. cbn [flat_map]. rewrite !map_app.
  f_equal; [| f_equal].
  - apply map_flat_map_ext. intros file _.
    now apply candidate_selectFile_ext.
  - unfold selectFile. cbn [FilePos Decls].
    destruct (strings.HasSuffix _ "_test.go"); [reflexivity |].
    rewrite !flat_map_app, !map_app. cbn [flat_map].
    assert (Hfn : forall pkg file, visitDecl pkg file [] (DFunc fn) = []).
    { intros pkg file. unfold visitDecl. rewrite Hno. cbn [negb].
      destruct (numFields (Recv fn) =? 0)%nat; [reflexivity |].
      now destruct (negb (Name fn =? "Reconcile")). }
    rewrite Hfn. cbn [app].
    f_equal; apply map_flat_map_ext; intros d _;
      now apply candidate_visitDecl_ext.
  - apply map_flat_map_ext. intros file _.
    now apply candidate_selectFile_ext.
Qed.

Lemma partial_signature_not_selected_witness :
  matchesReconcileSignature reconcileOneParam exPkg = false /\
  map candidate
    (FindReconcileFunctions exFinder
       [mkPackage "example.com/operator/controllers" None
          [mkFile 0 [DFunc reconcileOneParam; DFunc reconcileDecl]]])
  = [(reconcileDecl, "PodReconciler", "example.com/operator/controllers")].
Proof.
  assert (Hfew : declared (Params (FType reconcileOneParam)) < 2 \/
                 declared (Results (FType reconcileOneParam)) < 2).
  { left. vm_compute. lia. }
  destruct (partial_signature_not_selected reconcileOneParam Hfew)
    as (Hno & Hrest).
  split; [apply Hno |].
  refine (eq_trans
            (Hrest exFinder [] [] "example.com/operator/controllers" None
               [] [] 0%Z [] [DFunc reconcileDecl]) _).
  reflexivity.
Defined.

End FinderFacts.

(** ** White space, fields and the snippet *)

Module SnippetFacts.

Import ast models analyzer Spec strings StringsFacts.

Lemma asciiSpace_low c : asciiSpace c = true -> low c.
Proof.
  unfold asciiSpace, low.
  rewrite orb_true_iff, andb_true_iff, !N.leb_le, N.eqb_eq. lia.
Qed.

Lemma space2_high c1 c2 : space2 c1 c2 = true -> ~ low c2.
Proof.
  unfold space2, low.
  rewrite andb_true_iff, orb_true_iff, !N.eqb_eq. lia.
Qed.

Lemma space3_high c1 c2 c3 :
  space3 c1 c2 c3 = true -> ~ low c2 /\ ~ low c3.
Proof.
  unfold space3, low.
  rewrite !orb_true_iff, !andb_true_iff, !orb_true_iff, !andb_true_iff,
    !N.eqb_eq, !N.leb_le. lia.
Qed.

Lemma space2_low c1 c2 : low c2 -> space2 c1 c2 = false.
Proof.
  intros H. apply not_true_is_false. intros E.
  now apply space2_high in E.
Qed.

Lemma space3_low2 c1 c2 c3 : low c2 -> space3 c1 c2 c3 = false.
Proof.
  intros H. apply not_true_is_false. intros E.
  apply space3_high in E. tauto.
Qed.

Lemma space3_low3 c1 c2 c3 : low c3 -> space3 c1 c2 c3 = false.
Proof.
  intros H. apply not_true_is_false. intros E.
  apply space3_high in E. tauto.
Qed.

(** A white-space character found at the head of [a] is found at the head
    of any extension of [a]. *)
Lemma spaceWidth_app (a b : list ascii) :
  spaceWidth a <> 0 -> spaceWidth (a ++ b) = spaceWidth a.
Proof.
  destruct a as [| c1 [| c2 [| c3 a]]]; cbn [spaceWidth app]; intros H;
    try congruence.
  - destruct (asciiSpace c1); congruence.
  - destruct (asciiSpace c1); [reflexivity |].
    destruct (space2 c1 c2); congruence.
Qed.

(** What follows [a] does not matter when it is nothing or begins with an
    ASCII byte. *)
Lemma spaceWidth_app_low (a b : list ascii) :
  a <> [] -> lowHead b -> spaceWidth (a ++ b) = spaceWidth a.
Proof.
  intros Ha Hb.
  destruct a as [| c1 [| c2 [| c3 a]]]; cbn [spaceWidth app];
    try congruence.
  - destruct (asciiSpace c1); [reflexivity |].
    destruct b as [| c b]; [reflexivity |]. cbn in Hb.
    rewrite (space2_low _ _ Hb).
    destruct b as [| c3 b]; [reflexivity |].
    now rewrite (space3_low2 _ _ _ Hb).
  - destruct (asciiSpace c1); [reflexivity |].
    destruct (space2 c1 c2); [reflexivity |].
    destruct b as [| c b]; [reflexivity |]. cbn in Hb.
    now rewrite (space3_low3 _ _ _ Hb).
Qed.

Lemma spaceFree_app_low (f b : list ascii) :
  spaceFree f -> f <> [] -> lowHead b -> spaceWidth (f ++ b) = 0.
Proof.
  intros Hf Hne Hb. rewrite spaceWidth_app_low by assumption.
  apply (Hf [] f). reflexivity.
Qed.

(** *** [TrimSpace] *)

Lemma trimLeftFrom_head (s : list ascii) :
  forall skip, spaceWidth (trimLeftFrom skip s) = 0.
Proof.
  induction s as [| c s IH]; intros skip; cbn [trimLeftFrom];
    [reflexivity |].
  destruct skip as [| k]; [| apply IH].
  destruct (spaceWidth (c :: s)) as [| k] eqn:E; [exact E | apply IH].
Qed.

Lemma trimRightN_prefix (fuel : nat) :
  forall l, exists k, trimRightN fuel l = firstn k l.
Proof.
  induction fuel as [| fuel IH]; intros l; cbn [trimRightN].
  - exists (List.length l). now rewrite firstn_all.
  - destruct (trailingSpaceWidth l) as [| w].
    + exists (List.length l). now rewrite firstn_all.
    + destruct (IH (firstn (List.length l - S w) l)) as (k & ->).
      rewrite firstn_firstn. eauto.
Qed.

(** The fuel, the length of the text, is enough: no white space is left at
    the end. *)
Lemma trimRightN_tail (fuel : nat) :
  forall l, List.length l <= fuel ->
    trailingSpaceWidth (trimRightN fuel l) = 0.
Proof.
  induction fuel as [| fuel IH]; intros l Hlen; cbn [trimRightN].
  - destruct l; [reflexivity | cbn in Hlen; lia].
  - destruct (trailingSpaceWidth l) as [| w] eqn:E; [exact E |].
    apply IH. rewrite length_firstn. lia.
Qed.

(** [TrimSpace] leaves no white space at either end. *)
Lemma TrimSpace_trimmed (s : string) :
  spaceWidth (list_ascii_of_string (TrimSpace s)) = 0 /\
  trailingSpaceWidth (list_ascii_of_string (TrimSpace s)) = 0.
Proof.
  unfold TrimSpace. rewrite list_ascii_of_string_of_list_ascii.
  set (l := trimLeftFrom 0 (list_ascii_of_string s)).
  split; [| now apply trimRightN_tail].
  destruct (trimRightN_prefix (List.length l) l) as (k & ->).
  destruct (Nat.eq_dec (spaceWidth (firstn k l)) 0) as [E | E]; [exact E |].
  pose proof (spaceWidth_app (firstn k l) (skipn k l) E) as H.
  rewrite firstn_skipn in H. unfold l in H at 1.
  rewrite trimLeftFrom_head in H. congruence.
Qed.

(** *** The fields *)

Lemma flush_good (cur s : list ascii) :
  (forall a b, cur = a ++ b -> b <> [] -> spaceWidth (b ++ s) = 0) ->
  Forall goodField (flush cur).
Proof.
  intros H. destruct cur as [| c cur]; cbn [flush]; constructor; [| constructor].
  split; [discriminate |].
  intros a b Heq. destruct b as [| d b]; [reflexivity |].
  destruct (Nat.eq_dec (spaceWidth (d :: b)) 0) as [E | E]; [exact E |].
  rewrite <- (spaceWidth_app _ s E). apply (H a); [exact Heq | discriminate].
Qed.

Lemma fieldsFrom_good (s : list ascii) :
  forall skip cur,
    (skip <> 0 -> cur = []) ->
    (forall a b, cur = a ++ b -> b <> [] -> spaceWidth (b ++ s) = 0) ->
    Forall goodField (fieldsFrom skip cur s).
Proof.
  induction s as [| c s IH]; intros skip cur Hskip Hcur.
  - cbn [fieldsFrom]. now apply (flush_good cur []).
  - cbn [fieldsFrom]. destruct skip as [| k].
    + destruct (spaceWidth (c :: s)) as [| k] eqn:E.
      * apply IH; [congruence |].
        intros a b Heq Hb.
        destruct (exists_last Hb) as (b0 & x & ->).
        rewrite app_assoc in Heq. apply app_inj_tail in Heq.
        destruct Heq as (-> & ->). rewrite <- app_assoc. cbn [app].
        destruct b0 as [| d b0]; [exact E |].
        apply (Hcur a); [reflexivity | discriminate].
      * apply Forall_app. split; [now apply (flush_good cur (c :: s)) |].
        apply IH; [reflexivity |].
        intros a b Heq Hb. destruct a; destruct b; try discriminate.
        now contradiction Hb.
    + rewrite (Hskip ltac:(discriminate)). apply IH; [reflexivity |].
      intros a b Heq Hb. destruct a; destruct b; try discriminate.
      now contradiction Hb.
Qed.

Lemma Fields_good (s : list ascii) : Forall goodField (fieldsFrom 0 [] s).
Proof.
  apply fieldsFrom_good; [congruence |].
  intros a b Heq Hb. destruct a; destruct b; try discriminate.
  now contradiction Hb.
Qed.

(** A text without white space is one field: nothing of it is dropped. *)
Lemma fieldsFrom_spaceFree (s : list ascii) :
  forall cur, spaceFree s -> cur ++ s <> [] ->
    fieldsFrom 0 cur s = [cur ++ s].
Proof.
  induction s as [| c s IH]; intros cur Hfree Hne; cbn [fieldsFrom].
  - rewrite app_nil_r in *. destruct cur; [congruence | reflexivity].
  - rewrite (Hfree [] (c :: s) eq_refl).
    rewrite IH.
    + now rewrite <- app_assoc.
    + intros a b Heq. apply (Hfree (c :: a) b). cbn. now rewrite Heq.
    + destruct cur; discriminate.
Qed.

(** *** Joining the fields *)

Lemma low_space : low " "%char.
Proof. unfold low. cbn. lia. Qed.

Lemma join_head (fs : list (list ascii)) :
  Forall goodField fs -> fs <> [] ->
  joinBytes fs <> [] /\ spaceWidth (joinBytes fs) = 0.
Proof.
  intros Hfs Hne. destruct fs as [| f [| g rest]]; [congruence | |].
  - apply Forall_inv in Hfs. destruct Hfs as (Hf & Hfree).
    split; [exact Hf | apply (Hfree [] f); reflexivity].
  - apply Forall_inv in Hfs. destruct Hfs as (Hf & Hfree).
    cbn [joinBytes]. split.
    + destruct f; [congruence | discriminate].
    + apply spaceFree_app_low; [assumption | assumption | exact low_space].
Qed.

Lemma normalized_join (fs : list (list ascii)) :
  Forall goodField fs -> normalized (joinBytes fs).
Proof.
  induction fs as [| f rest IH]; intros Hfs.
  - intros a b Heq Hsp. destruct a; destruct b; try discriminate.
    cbn in Hsp. lia.
  - pose proof (Forall_inv Hfs) as (Hf & Hfree).
    pose proof (Forall_inv_tail Hfs) as Hrest.
    destruct rest as [| g rest'].
    + cbn [joinBytes]. intros a b Heq Hsp. rewrite (Hfree a b Heq) in Hsp. lia.
    + specialize (IH Hrest).
      destruct (join_head (g :: rest') Hrest ltac:(discriminate))
        as (HJne & HJ0).
      change (joinBytes (f :: g :: rest'))
        with (f ++ " "%char :: joinBytes (g :: rest')).
      set (J := joinBytes (g :: rest')) in *.
      assert (Hsep : f <> [] /\
                exists b', " "%char :: J = " "%char :: b' /\
                           b' <> [] /\ spaceWidth b' = 0)
        by (split; [exact Hf | exists J; auto]).
      intros a b Heq Hsp. symmetry in Heq.
      apply app_eq_app in Heq. destruct Heq as (l & [(Ha & Hb) | (Hf' & Hb)]).
      * (* the split is after the separator or on it *)
        destruct l as [| c l].
        -- rewrite app_nil_r in Ha. cbn in Hb. subst a b. exact Hsep.
        -- injection Hb as <- HJ. subst a.
           destruct (IH l b HJ Hsp) as (Hl & Hb').
           split; [| exact Hb'].
           destruct f; discriminate.
      * (* the split is inside the first field *)
        destruct l as [| c l].
        -- rewrite app_nil_r in Hf'. cbn in Hb. subst a b. exact Hsep.
        -- subst b. rewrite spaceWidth_app_low in Hsp;
             [| discriminate | exact low_space].
           rewrite (Hfree a (c :: l) Hf') in Hsp. lia.
Qed.

(** *** Cutting at the maximum length *)

Lemma dots_suffix (l b : list ascii) :
  ["."; "."; "."]%char = l ++ b -> spaceWidth b = 0.
Proof.
  intros H.
  destruct l as [| ? [| ? [| ? [| ? l]]]]; cbn in H; inversion H; subst;
    reflexivity.
Qed.

Lemma normalized_truncate (t : list ascii) (n : nat) :
  normalized t -> normalized (firstn n t ++ ["."; "."; "."]%char).
Proof.
  intros Ht a b Heq Hsp. symmetry in Heq.
  apply app_eq_app in Heq. destruct Heq as (l & [(Ha & Hb) | (Hf & Hb)]).
  - rewrite (dots_suffix l b Hb) in Hsp. lia.
  - destruct l as [| c l].
    { cbn in Hb. subst b. cbn in Hsp. lia. }
    assert (Hlow : lowHead ["."; "."; "."]%char) by (cbn; unfold low; cbn; lia).
    subst b. rewrite spaceWidth_app_low in Hsp; [| discriminate | exact Hlow].
    assert (Ht' : t = a ++ (c :: l) ++ skipn n t).
    { rewrite app_assoc, <- Hf. symmetry. apply firstn_skipn. }
    assert (Hsp' : 0 < spaceWidth ((c :: l) ++ skipn n t))
      by (rewrite spaceWidth_app; lia).
    destruct (Ht a _ Ht' Hsp') as (Ha & b' & Hb' & _ & Hb0).
    cbn [app] in Hb'. injection Hb' as -> <-.
    split; [exact Ha |].
    exists (l ++ ["."; "."; "."]%char). cbn [app].
    split; [reflexivity | split].
    + destruct l; discriminate.
    + destruct l as [| d l]; [reflexivity |].
      rewrite spaceWidth_app_low; [| discriminate | exact Hlow].
      destruct (Nat.eq_dec (spaceWidth (d :: l)) 0) as [E | E]; [exact E |].
      rewrite <- (spaceWidth_app _ (skipn n t) E). exact Hb0.
Qed.

(** *** Strings as byte lists *)

Local Open Scope string_scope.

Lemma list_of_append (a b : string) :
  list_ascii_of_string (a ++ b)
  = (list_ascii_of_string a ++ list_ascii_of_string b)%list.
Proof. induction a as [| c a IH]; cbn; [reflexivity | now rewrite IH]. Qed.

Lemma length_list (s : string) :
  List.length (list_ascii_of_string s) = String.length s.
Proof. induction s as [| c s IH]; cbn; [reflexivity | now rewrite IH]. Qed.

Lemma list_of_substring0 (n : nat) (s : string) :
  list_ascii_of_string (substring 0 n s) = firstn n (list_ascii_of_string s).
Proof.
  revert n. induction s as [| c s IH]; intros [| n]; cbn;
    try reflexivity. now rewrite IH.
Qed.

Lemma list_of_Join (fs : list (list ascii)) :
  list_ascii_of_string (Join (map string_of_list_ascii fs) " ")
  = joinBytes fs.
Proof.
  unfold Join. induction fs as [| f [| g rest] IH].
  - reflexivity.
  - cbn. apply list_ascii_of_string_of_list_ascii.
  - change (list_ascii_of_string
              (string_of_list_ascii f ++ " " ++
               String.concat " " (map string_of_list_ascii (g :: rest)))
            = (f ++ " "%char :: joinBytes (g :: rest))%list).
    rewrite !list_of_append, IH, list_ascii_of_string_of_list_ascii.
    reflexivity.
Qed.

Lemma length_substring (n m : nat) (s : string) :
  n + m <= String.length s -> String.length (substring n m s) = m.
Proof.
  revert n m. induction s as [| c s IH]; intros n m H; cbn in H.
  - destruct n, m; cbn; lia.
  - destruct n as [| n]; cbn.
    + destruct m as [| m]; cbn; [reflexivity |]. rewrite (IH 0 m); lia.
    + apply IH. lia.
Qed.

(** *** [truncateSnippet] *)

Lemma truncateSnippet_cases (text : string) :
  let t := Join (Fields (TrimSpace text)) " " in
  (String.length t <= 200 -> truncateSnippet text = t) /\
  (200 < String.length t ->
   truncateSnippet text = substring 0 200 t ++ "..." /\
   String.length (truncateSnippet text) = 203).
Proof.
  intros t. unfold truncateSnippet. fold t.
  destruct (Nat.ltb_spec 200 (String.length t)) as [H | H].
  - split; [lia |]. intros _. split; [reflexivity |].
    rewrite length_append, length_substring; [reflexivity | lia].
  - split; [reflexivity | lia].
Qed.

Lemma truncateSnippet_length (text : string) :
  String.length (truncateSnippet text) <= 203.
Proof.
  destruct (truncateSnippet_cases text) as (Hs & Hl).
  destruct (Nat.le_gt_cases
              (String.length (Join (Fields (TrimSpace text)) " ")) 200)
    as [H | H].
  - rewrite (Hs H). lia.
  - destruct (Hl H) as (_ & ->). lia.
Qed.

Lemma truncateSnippet_normalized (text : string) :
  normalized (list_ascii_of_string (truncateSnippet text)).
Proof.
  assert (Ht : normalized
                 (list_ascii_of_string (Join (Fields (TrimSpace text)) " "))).
  { unfold Fields. rewrite list_of_Join.
    apply normalized_join, Fields_good. }
  unfold truncateSnippet.
  destruct (200 <? String.length (Join (Fields (TrimSpace text)) " "))%nat.
  - rewrite list_of_append, list_of_substring0.
    now apply normalized_truncate.
  - exact Ht.
Qed.

(** *** [extractSnippet] *)

Section Extract.

Variable printerFprint : token.FileSet -> node -> option string.
Variable formatNode : token.FileSet -> node -> option string.

Local Abbreviation snippet := (extractSnippet printerFprint formatNode).

Lemma extractSnippet_slice (pd : PatternDetector) (n : node) (data : string) :
  let start := token.Offset (fset pd (Pos (spanOf n))) in
  let end_ := token.Offset (fset pd (End_ (spanOf n))) in
  fileData pd = Some data ->
  (0 <= start)%Z -> (start < end_)%Z ->
  (end_ <= Z.of_nat (String.length data))%Z ->
  snippet pd n =
  truncateSnippet (substring (Z.to_nat start) (Z.to_nat (end_ - start)) data).
Proof.
  intros start end_ Hdata H0 Hlt Hle. unfold extractSnippet.
  fold start end_. rewrite Hdata.
  destruct (Nat.ltb_spec 0 (String.length data)) as [_ | Hlen]; [| lia].
  destruct (Z.leb_spec 0 start); [| lia].
  destruct (Z.leb_spec end_ (Z.of_nat (String.length data))); [| lia].
  destruct (Z.ltb_spec start end_); [| lia].
  reflexivity.
Qed.

Lemma extractSnippet_fallback (pd : PatternDetector) (n : node) :
  ~ sliceable pd n ->
  snippet pd n =
  match printerFprint (fset pd) n with
  | Some out => truncateSnippet out
  | None =>
      match formatNode (fset pd) n with
      | Some out => truncateSnippet out
      | None => "<unprintable>"
      end
  end.
Proof.
  intros Hno. unfold extractSnippet.
  destruct (fileData pd) as [data |] eqn:Hdata; [| reflexivity].
  destruct (0 <? String.length data)%nat; [| reflexivity].
  destruct (Z.leb_spec 0 (token.Offset (fset pd (Pos (spanOf n)))));
    [| reflexivity].
  destruct (Z.leb_spec (token.Offset (fset pd (End_ (spanOf n))))
              (Z.of_nat (String.length data))); [| reflexivity].
  destruct (Z.ltb_spec (token.Offset (fset pd (Pos (spanOf n))))
              (token.Offset (fset pd (End_ (spanOf n))))); [| reflexivity].
  exfalso. apply Hno. exists data. auto.
Qed.

(** C9.  Snippet extraction has a result for every node.  When the raw
    bytes are there and the node's offsets select a slice of them, the
    result is made from the bytes [start .. end), which lie inside the
    file; otherwise from the node as rendered by the printer, or by the
    formatter when the printer fails; the placeholder is the result only
    when both renderers fail.  In the other cases the text is passed through
    [truncateSnippet], whose result has no outer white space and no white
    space inside but single spaces, keeps at most 200 bytes of the text and
    ends with the three dots exactly when it was cut. *)
Theorem extractSnippet_best_effort (pd : PatternDetector) (n : node) :
  let start := token.Offset (fset pd (Pos (spanOf n))) in
  let end_ := token.Offset (fset pd (End_ (spanOf n))) in
  (forall data,
     fileData pd = Some data ->
     (0 <= start)%Z -> (start < end_)%Z ->
     (end_ <= Z.of_nat (String.length data))%Z ->
     let slice :=
       substring (Z.to_nat start) (Z.to_nat (end_ - start)) data in
     snippet pd n = truncateSnippet slice /\
     String.length slice = Z.to_nat (end_ - start)) /\
  (~ sliceable pd n ->
   (forall out, printerFprint (fset pd) n = Some out ->
      snippet pd n = truncateSnippet out) /\
   (printerFprint (fset pd) n = None ->
    forall out, formatNode (fset pd) n = Some out ->
      snippet pd n = truncateSnippet out) /\
   (printerFprint (fset pd) n = None -> formatNode (fset pd) n = None ->
      snippet pd n = "<unprintable>")) /\
  (forall text,
     let t := Join (Fields (TrimSpace text)) " " in
     normalized (list_ascii_of_string (truncateSnippet text)) /\
     String.length (truncateSnippet text) <= 203 /\
     (String.length t <= 200 -> truncateSnippet text = t) /\
     (200 < String.length t ->
      truncateSnippet text = substring 0 200 t ++ "...")).
Proof.
  intros start end_. split; [| split].
  - intros data Hdata H0 Hlt Hle slice. split.
    + now apply extractSnippet_slice.
    + apply length_substring. lia.
  - intros Hno. rewrite (extractSnippet_fallback pd n Hno).
    split; [| split].
    + now intros out ->.
    + now intros -> out ->.
    + now intros -> ->.
  - intros text t. split; [apply truncateSnippet_normalized |].
    split; [apply truncateSnippet_length |].
    destruct (truncateSnippet_cases text) as (Hs & Hl).
    split; [exact Hs |]. intros H. now destruct (Hl H).
Qed.

End Extract.

Import Examples.

Lemma extractSnippet_best_effort_witness :
  extractSnippet noRender noRender srcPd getInSource
    = "r.Get(ctx, req.NamespacedName, &pod)" /\
  extractSnippet noRender noRender exPd getInSource = "<unprintable>".
Proof.
  destruct (extractSnippet_best_effort noRender noRender srcPd getInSource)
    as (Hslice & _).
  destruct (extractSnippet_best_effort noRender noRender exPd getInSource)
    as (_ & Hfall & _).
  split.
  - destruct (Hslice getSource eq_refl) as (H & _);
      [vm_compute; discriminate | vm_compute; reflexivity
      | vm_compute; discriminate |].
    rewrite H. reflexivity.
  - destruct Hfall as (_ & _ & H).
    + intros (data & Hd & _). discriminate.
    + apply H; reflexivity.
Defined.

End SnippetFacts.

(** ** The detector's other rules *)

Module DetectorRules.

Import ast models analyzer Spec Kinds InspectFacts DetectorFacts WalkFacts
  SnippetFacts GoInt GoIntFacts ClassifierSum.

Section Rules.

Variable ToLower : string -> string.
Variable printerFprint : token.FileSet -> node -> option string.
Variable formatNode : token.FileSet -> node -> option string.

Local Abbreviation detect := (detectNode ToLower printerFprint formatNode).
Local Abbreviation snippet := (extractSnippet printerFprint formatNode).

Lemma mentions_existsb (pd : PatternDetector) (opts : list expr) :
  existsb (referencesReqParam pd) opts = true <->
  exists arg, In arg opts /\
              In (NExpr (Ident (reqParamName pd))) (preorderExpr arg).
Proof.
  rewrite existsb_exists. split; intros (arg & Hin & H); exists arg;
    (split; [exact Hin | now apply referencesReqParam_spec]).
Qed.

(** X1.  A [List] call that passes the client-call test and has at least
    two arguments is an unscoped list, score +3, exactly when no argument
    beyond the first two mentions the request parameter; so is every such
    call with two arguments only, and option calls do not change it. *)
Theorem list_unscoped_rule (pd : PatternDetector) (sp : Span) (x : expr)
    (args : list expr) :
  isClientCall ToLower pd x "List" = true ->
  2 <= List.length args ->
  let call := NExpr (CallExpr sp (SelectorExpr x "List") args) in
  let unscoped :=
    [mkSignal SignalListUnscoped (lineOf pd call) 3 (snippet pd call)
       "client.List without request-scoped selectors"] in
  (detect pd call = unscoped <->
   forall arg, In arg (listOptions args) ->
     ~ In (NExpr (Ident (reqParamName pd))) (preorderExpr arg)) /\
  (List.length args = 2 -> detect pd call = unscoped).
Proof.
  intros Hclient Hlen call unscoped.
  assert (Hd : detect pd call =
    if negb (existsb (referencesReqParam pd) (listOptions args))
    then unscoped
    else if existsb isNamespaceOption (listOptions args)
            && negb (existsb isLabelMatchOption (listOptions args))
    then [mkSignal SignalListNamespaceScoped (lineOf pd call) 1
            (snippet pd call) "client.List scoped to request namespace only"]
    else [mkSignal SignalListLabelScoped (lineOf pd call) 0
            (snippet pd call)
            "client.List scoped by labels/fields derived from request"]).
  { unfold call. cbn [detectNode detectCallPatterns]. rewrite Hclient.
    cbn [negb String.eqb Ascii.eqb Bool.eqb]. unfold analyzeListCall.
    rewrite (length_ge_ltb _ _ _ Hlen), listOptionFlags_spec. fold (listOptions args).
    destruct (existsb (referencesReqParam pd) (listOptions args));
      [| reflexivity].
    destruct (existsb isNamespaceOption (listOptions args)),
      (existsb isLabelMatchOption (listOptions args)); reflexivity. }
  assert (Hiff : detect pd call = unscoped <->
                 existsb (referencesReqParam pd) (listOptions args) = false).
  { rewrite Hd.
    destruct (existsb (referencesReqParam pd) (listOptions args));
      cbn [negb]; [| tauto].
    split; [| discriminate].
    destruct (existsb isNamespaceOption (listOptions args) &&
              negb (existsb isLabelMatchOption (listOptions args)));
      unfold unscoped; intros H; discriminate H. }
  split.
  - rewrite Hiff. split.
    + intros Hno arg Hin Hm.
      assert (existsb (referencesReqParam pd) (listOptions args) = true)
        by (apply mentions_existsb; eauto).
      congruence.
    + intros Hno. apply not_true_is_false. intros H.
      apply mentions_existsb in H. destruct H as (arg & Hin & Hm).
      exact (Hno arg Hin Hm).
  - intros H2. apply Hiff. unfold listOptions.
    destruct args as [| a0 [| a1 [| a2 rest]]]; cbn in H2; try lia.
    reflexivity.
Qed.

(** X2.  A [List] call that passes the client-call test, has at least two
    arguments and mentions the request parameter in some argument beyond
    the first two is a label-scoped list, score 0, whenever it has no
    namespace-scope option call or has a label/field-scope one: so is a
    call scoped by an options literal that names the request's namespace. *)
Theorem list_label_scoped_rule (pd : PatternDetector) (sp : Span) (x : expr)
    (args : list expr) :
  isClientCall ToLower pd x "List" = true ->
  2 <= List.length args ->
  (exists arg, In arg (listOptions args) /\
               In (NExpr (Ident (reqParamName pd))) (preorderExpr arg)) ->
  (forall arg, In arg (listOptions args) -> isNamespaceOption arg = false) \/
  (exists arg, In arg (listOptions args) /\ isLabelMatchOption arg = true) ->
  let call := NExpr (CallExpr sp (SelectorExpr x "List") args) in
  detect pd call =
  [mkSignal SignalListLabelScoped (lineOf pd call) 0 (snippet pd call)
     "client.List scoped by labels/fields derived from request"].
Proof.
  intros Hclient Hlen Href Hopt call.
  apply mentions_existsb in Href.
  unfold call. cbn [detectNode detectCallPatterns]. rewrite Hclient.
  cbn [negb String.eqb Ascii.eqb Bool.eqb]. unfold analyzeListCall.
  rewrite (length_ge_ltb _ _ _ Hlen), listOptionFlags_spec.
  fold (listOptions args). rewrite Href. cbn [negb].
  destruct Hopt as [Hns | Hlab].
  - assert (E : existsb isNamespaceOption (listOptions args) = false).
    { apply not_true_is_false. intros H. apply existsb_exists in H.
      destruct H as (a & Hin & Ha). rewrite (Hns a Hin) in Ha.
      discriminate. }
    now rewrite E.
  - assert (E : existsb isLabelMatchOption (listOptions args) = true)
      by (apply existsb_exists; exact Hlab).
    rewrite E, andb_false_r. reflexivity.
Qed.

(** X3.  A [Get] call that passes the client-call test and has at least
    three arguments, whose key is not the member access [NamespacedName] on
    the request identifier, is a derived get, score -1, when the key
    mentions the request parameter anywhere, and an unrelated get, score
    +1, when it does not. *)
Theorem get_other_keys_rule (pd : PatternDetector) (sp : Span) (x : expr)
    (ctx key : expr) (rest : list expr) :
  isClientCall ToLower pd x "Get" = true ->
  rest <> [] ->
  key <> SelectorExpr (Ident (reqParamName pd)) "NamespacedName" ->
  let call := NExpr (CallExpr sp (SelectorExpr x "Get") (ctx :: key :: rest)) in
  (In (NExpr (Ident (reqParamName pd))) (preorderExpr key) ->
   detect pd call =
   [mkSignal SignalGetDerived (lineOf pd call) (-1) (snippet pd call)
      "client.Get with key derived from request"]) /\
  (~ In (NExpr (Ident (reqParamName pd))) (preorderExpr key) ->
   detect pd call =
   [mkSignal SignalGetUnrelated (lineOf pd call) 1 (snippet pd call)
      "client.Get with key not derived from request"]).
Proof.
  intros Hclient Hrest Hkey call.
  assert (Hexact : isReqNamespacedName pd key = false).
  { apply not_true_is_false. intros H. apply Hkey.
    unfold isReqNamespacedName in H.
    destruct key as [| kx ksel | | |]; try discriminate.
    destruct (ksel =? "NamespacedName") eqn:Es; [| discriminate].
    cbn [negb] in H. destruct kx as [name | | | |]; try discriminate.
    apply String.eqb_eq in Es, H. now subst. }
  assert (Hd : detect pd call =
    if referencesReqParam pd key
    then [mkSignal SignalGetDerived (lineOf pd call) (-1) (snippet pd call)
            "client.Get with key derived from request"]
    else [mkSignal SignalGetUnrelated (lineOf pd call) 1 (snippet pd call)
            "client.Get with key not derived from request"]).
  { unfold call. cbn [detectNode detectCallPatterns]. rewrite Hclient.
    cbn [negb String.eqb Ascii.eqb Bool.eqb]. unfold analyzeGetCall.
    destruct rest as [| obj rest]; [congruence |].
    cbn [List.length Nat.ltb Nat.leb]. rewrite Hexact.
    destruct (referencesReqParam pd key); reflexivity. }
  split; intros H; rewrite Hd.
  - apply referencesReqParam_spec in H. now rewrite H.
  - destruct (referencesReqParam pd key) eqn:E; [| reflexivity].
    apply referencesReqParam_spec in E. contradiction.
Qed.

(** X4.  A [Create], [Update], [Delete] or [Patch] call that passes the
    client-call test gives exactly one single-write signal, score -1, whose
    description names the verb, whatever its arguments and wherever it
    stands. *)
Theorem single_write_rule (pd : PatternDetector) (sp : Span) (x : expr)
    (verb : string) (args : list expr) :
  isClientCall ToLower pd x verb = true ->
  In verb ["Create"; "Update"; "Delete"; "Patch"] ->
  let call := NExpr (CallExpr sp (SelectorExpr x verb) args) in
  detect pd call =
  [mkSignal SignalSingleWrite (lineOf pd call) (-1) (snippet pd call)
     ("client." ++ verb ++ " call")].
Proof.
  intros Hclient Hverb call. unfold call.
  cbn [detectNode detectCallPatterns]. rewrite Hclient. cbn [negb].
  destruct Hverb as [<- | [<- | [<- | [<- | []]]]]; reflexivity.
Qed.

(** X5.  A call gives no signal when its target is not a member access,
    when the target fails the client-call test, when the member called is
    none of the six client verbs, and when the call is a [List] with fewer
    than two arguments or a [Get] with fewer than three. *)
Theorem no_call_signal_rule (pd : PatternDetector) (sp : Span) (fn : expr)
    (args : list expr) :
  let call := NExpr (CallExpr sp fn args) in
  ((forall x m, fn <> SelectorExpr x m) -> detect pd call = []) /\
  (forall x m, fn = SelectorExpr x m ->
     isClientCall ToLower pd x m = false -> detect pd call = []) /\
  (forall x m, fn = SelectorExpr x m ->
     ~ In m ["List"; "Get"; "Create"; "Update"; "Delete"; "Patch"] ->
     detect pd call = []) /\
  (forall x, fn = SelectorExpr x "List" -> List.length args < 2 ->
     detect pd call = []) /\
  (forall x, fn = SelectorExpr x "Get" -> List.length args < 3 ->
     detect pd call = []).
Proof.
  intros call. unfold call. cbn [detectNode]. repeat split.
  - intros Hfn. destruct fn; try reflexivity. now contradiction (Hfn fn Sel).
  - intros x m -> Hc. cbn [detectCallPatterns]. now rewrite Hc.
  - intros x m -> Hm. cbn [detectCallPatterns].
    destruct (negb (isClientCall ToLower pd x m)); [reflexivity |].
    destruct (m =? "List") eqn:E1;
      [apply String.eqb_eq in E1; subst; cbn in Hm; tauto |].
    destruct (m =? "Get") eqn:E2;
      [apply String.eqb_eq in E2; subst; cbn in Hm; tauto |].
    unfold isWriteVerb.
    destruct (m =? "Create") eqn:E3;
      [apply String.eqb_eq in E3; subst; cbn in Hm; tauto |].
    destruct (m =? "Update") eqn:E4;
      [apply String.eqb_eq in E4; subst; cbn in Hm; tauto |].
    destruct (m =? "Delete") eqn:E5;
      [apply String.eqb_eq in E5; subst; cbn in Hm; tauto |].
    destruct (m =? "Patch") eqn:E6;
      [apply String.eqb_eq in E6; subst; cbn in Hm; tauto |].
    reflexivity.
  - intros x -> Hlen. cbn [detectCallPatterns].
    destruct (negb (isClientCall ToLower pd x "List")); [reflexivity |].
    cbn [String.eqb Ascii.eqb Bool.eqb]. unfold analyzeListCall.
    destruct (Nat.ltb_spec (List.length args) 2); [reflexivity | lia].
  - intros x -> Hlen. cbn [detectCallPatterns].
    destruct (negb (isClientCall ToLower pd x "Get")); [reflexivity |].
    cbn [String.eqb Ascii.eqb Bool.eqb]. unfold analyzeGetCall.
    destruct (Nat.ltb_spec (List.length args) 3); [reflexivity | lia].
Qed.

(** Every node gives nothing or one signal of an emitted kind, placed at
    the node. *)
Lemma detect_shape (pd : PatternDetector) (n : node) :
  detect pd n = [] \/
  exists kind score description,
    In (kind, score) emitted /\
    detect pd n =
    [mkSignal kind (lineOf pd n) score (snippet pd n) description].
Proof.
  destruct n as [[| | csp fn args | |]
                | [| | | isp init cond body els | lsp init cond post body
                   | lsp key value x body |] |];
    cbn [detectNode]; try (left; reflexivity).
  - unfold detectCallPatterns.
    destruct fn as [| x m | | |]; try (left; reflexivity).
    destruct (negb (isClientCall ToLower pd x m)); [left; reflexivity |].
    unfold analyzeListCall, analyzeGetCall, analyzeWriteCall.
    repeat match goal with
    | |- context [if ?c then _ else _] => destruct c
    | |- context [let '(_, _) := ?p in _] => destruct p as ((?, ?), ?)
    | |- context [match ?l with [] => _ | _ :: _ => _ end] => destruct l
    end;
    try (left; reflexivity);
    right; eexists _, _, _; refine (conj _ eq_refl); cbn; tauto.
  - unfold detectControlFlowPatterns.
    repeat match goal with
    | |- context [if ?c then _ else _] => destruct c
    end;
    try (left; reflexivity);
    right; eexists _, _, _; refine (conj _ eq_refl); cbn; tauto.
  - unfold detectLoopPatterns, loopSignals.
    destruct body as [b |]; [| left; reflexivity].
    destruct (hasWriteOperation ToLower pd b); [| left; reflexivity].
    right; eexists _, _, _; refine (conj _ eq_refl); cbn; tauto.
  - unfold detectRangeLoopPatterns, loopSignals.
    destruct body as [b |]; [| left; reflexivity].
    destruct (hasWriteOperation ToLower pd b); [| left; reflexivity].
    right; eexists _, _, _; refine (conj _ eq_refl); cbn; tauto.
Qed.

Lemma snippet_length (pd : PatternDetector) (n : node) :
  String.length (snippet pd n) <= 203.
Proof.
  unfold extractSnippet.
  repeat match goal with
  | |- context [match ?o with Some _ => _ | None => _ end] => destruct o
  | |- context [if ?c then _ else _] => destruct c
  end; try apply truncateSnippet_length; cbn; lia.
Qed.

(** X6.  A node gives at most one signal, and every signal emitted is well
    formed: its kind is one of the ten the detector has a rule for and its
    score is the one of that kind, between -2 and 3; its line is the line
    of the node and its snippet the node's, at most 203 bytes long.  None
    of the kinds declared without a rule is ever emitted. *)
Theorem signals_well_formed (pd : PatternDetector) (n : node) (sig : Signal) :
  In sig (detect pd n) ->
  detect pd n = [sig] /\
  In (Type_ sig, Score sig) emitted /\
  (-2 <= Score sig <= 3)%Z /\
  Line sig = lineOf pd n /\
  Snippet sig = snippet pd n /\
  String.length (Snippet sig) <= 203 /\
  ~ In (Type_ sig)
      [SignalListOwnerScoped; SignalDiffSync; SignalCreateOrUpdate;
       SignalStatusUpdate; SignalFinalizerHandling; SignalBuildDesiredState;
       SignalOwnsResources; SignalWatchesWithHandler].
Proof.
  intros Hin.
  destruct (detect_shape pd n) as [E | (kind & score & d & Hk & E)];
    rewrite E in Hin; [destruct Hin |].
  destruct Hin as [<- | []]. cbn [Type_ Score Line Snippet].
  split; [exact E |]. split; [exact Hk |].
  split; [| split; [reflexivity | split; [reflexivity | split]]].
  - cbn in Hk.
    repeat match type of Hk with
    | _ \/ _ => destruct Hk as [Hk | Hk]
    | False => destruct Hk
    | (_, _) = (_, _) => injection Hk as <- <-; lia
    end.
  - apply snippet_length.
  - cbn in Hk. intros Hbad. cbn in Hbad.
    repeat match type of Hk with
    | _ \/ _ => destruct Hk as [Hk | Hk]
    | False => destruct Hk
    | (_, _) = (_, _) => injection Hk as <- <-
    end;
    repeat match type of Hbad with
    | _ \/ _ => destruct Hbad as [Hbad | Hbad]
    | False => destruct Hbad
    | _ = _ => discriminate Hbad
    end.
Qed.

(** X7.  The signals of a function are those of the nodes of its body, node
    by node in the order of the traversal, so at most as many as the body
    has nodes; a declaration without body has none. *)
Theorem signals_in_traversal_order (pd : PatternDetector) (fn : FuncDecl) :
  let signals := DetectPatterns ToLower printerFprint formatNode pd fn in
  (Body fn = None -> signals = []) /\
  (forall body, Body fn = Some body ->
     signals = flat_map (detect pd) (preorderBlock body) /\
     List.length signals <= List.length (preorderBlock body)).
Proof.
  intros signals. unfold signals. rewrite DetectPatterns_walk. split.
  - now intros ->.
  - intros body ->. split; [reflexivity |].
    induction (preorderBlock body) as [| n l IH]; cbn [flat_map];
      [reflexivity |].
    rewrite length_app. cbn [List.length].
    destruct (detect_shape pd n) as [E | (k & sc & d & _ & E)]; rewrite E;
      cbn [List.length]; lia.
Qed.

Lemma mathSum_bounds (signals : list Signal) :
  Forall (fun sig => (-2 <= Score sig <= 3)%Z) signals ->
  (-2 * Z.of_nat (List.length signals) <= mathSum signals
   <= 3 * Z.of_nat (List.length signals))%Z.
Proof.
  induction 1 as [| sig l Hs _ IH]; cbn [mathSum fold_right List.length];
    [lia |].
  fold (mathSum l). lia.
Qed.

Lemma detected_scores (pd : PatternDetector) (fn : FuncDecl) :
  Forall (fun sig => (-2 <= Score sig <= 3)%Z)
    (DetectPatterns ToLower printerFprint formatNode pd fn).
Proof.
  rewrite DetectPatterns_walk. destruct (Body fn) as [body |]; [| constructor].
  apply Forall_forall. intros sig Hin. apply in_flat_map in Hin.
  destruct Hin as (n & _ & Hin).
  destruct (detect_shape pd n) as [E | (kind & score & d & Hk & E)];
    rewrite E in Hin; [destruct Hin |].
  destruct Hin as [<- | []]. cbn [Score]. cbn in Hk.
  repeat match type of Hk with
  | _ \/ _ => destruct Hk as [Hk | Hk]
  | False => destruct Hk
  | (_, _) = (_, _) => injection Hk as <- <-; lia
  end.
Qed.

(** X8.  The score of a function lies between -2 and +3 times the number
    of its signals, and, with fewer than 2^61 signals, it is the exact sum
    of their scores: the addition never wraps.  So a function classified
    [sotw] or [edge_triggered] has at least two signals. *)
Theorem detected_score_exact (pd : PatternDetector) (fn : FuncDecl) :
  let signals := DetectPatterns ToLower printerFprint formatNode pd fn in
  (Z.of_nat (List.length signals) < 2 ^ 61)%Z ->
  fst (Classify signals) = mathSum signals /\
  (-2 * Z.of_nat (List.length signals) <= fst (Classify signals)
   <= 3 * Z.of_nat (List.length signals))%Z /\
  (snd (Classify signals) = "sotw" \/
   snd (Classify signals) = "edge_triggered" ->
   2 <= List.length signals).
Proof.
  intros signals Hlen.
  pose proof (mathSum_bounds signals (detected_scores pd fn)) as Hb.
  assert (Hs : fst (Classify signals) = mathSum signals).
  { cbn [Classify fst]. rewrite sumScores_wrap. apply wrap_small.
    unfold in_range, min_int, max_int. lia. }
  split; [exact Hs |]. split; [rewrite Hs; exact Hb |].
  cbn [Classify snd fst] in *. rewrite Hs. unfold classify,
    ThresholdEdgeTriggered, ThresholdMostlyEdge, ThresholdMostlySoTW.
  destruct (Z.leb_spec (mathSum signals) (-3)).
  - intros _. lia.
  - destruct (Z.leb_spec (mathSum signals) 0);
      [intros [H' | H']; discriminate H' |].
    destruct (Z.leb_spec (mathSum signals) 3);
      [intros [H' | H']; discriminate H' |].
    intros _. lia.
Qed.

Lemma existsb_filter_nil {A : Type} (p : A -> bool) (l : list A) :
  existsb p l = false <-> filter p l = [].
Proof.
  induction l as [| a l IH]; cbn [existsb filter]; [tauto |].
  destruct (p a); cbn [orb]; [split; discriminate | exact IH].
Qed.

(** X9.  A [for] or [range] loop gives no signal exactly when it has no
    body or no client write-verb call anywhere inside its body; reads in
    the loop do not count. *)
Theorem loop_without_write_rule (pd : PatternDetector) (sp : Span)
    (body : option block) :
  let quiet :=
    body = None \/
    exists b, body = Some b /\ writeCalls ToLower pd b = [] in
  (forall init cond post,
     detect pd (NStmt (ForStmt sp init cond post body)) = [] <-> quiet) /\
  (forall key value x,
     detect pd (NStmt (RangeStmt sp key value x body)) = [] <-> quiet).
Proof.
  intros quiet.
  assert (H : forall loop, loopSignals ToLower printerFprint formatNode pd
                             loop body = [] <-> quiet).
  { intros loop. unfold loopSignals, quiet, writeCalls.
    destruct body as [b |]; [| split; auto].
    rewrite hasWriteOperation_spec.
    destruct (existsb (isWriteCall ToLower pd) (preorderBlock b)) eqn:E.
    - split; [discriminate |].
      intros [Hn | (b' & Hb & Hf)]; [discriminate |].
      injection Hb as <-. apply existsb_filter_nil in Hf. congruence.
    - split; [| reflexivity]. intros _. right. exists b.
      split; [reflexivity | now apply existsb_filter_nil]. }
  split; intros; cbn [detectNode detectLoopPatterns detectRangeLoopPatterns];
    apply H.
Qed.

(** X11.  An if-statement gives a signal exactly when its condition is a
    call to a member named [IsNotFound] and its body has a return statement
    among its own statements: a negated or compound condition, an
    unqualified [IsNotFound], or a return nested deeper give none. *)
Theorem notfound_needs_direct_return (pd : PatternDetector) (sp : Span)
    (init els : option stmt) (cond : expr) (body : block) :
  detect pd (NStmt (IfStmt sp init cond body els)) <> [] <->
  notFoundCall cond /\ directReturn body.
Proof.
  cbn [detectNode]. unfold detectControlFlowPatterns.
  rewrite <- isEarlyReturn_spec.
  assert (Hc : isNotFoundCheck cond = true <-> notFoundCall cond).
  { unfold isNotFoundCheck, notFoundCall. split.
    - destruct cond as [| | csp [| x m | | |] args | |]; try discriminate.
      intros H. apply String.eqb_eq in H. subst. eauto.
    - intros (csp & x & args & ->). reflexivity. }
  rewrite <- Hc.
  destruct (isNotFoundCheck cond), (isEarlyReturn body);
    try destruct (isNilReturn body);
    split; try discriminate; try tauto;
    intros (H1 & H2); discriminate.
Qed.

(** X12.  The request parameter is recognised by name alone: the bare
    identifier mentions it, and so does any member access whose selected
    name is that of the parameter, any member access on, and any call
    with an argument or a target that mentions it; an identifier of another
    name does not. *)
Theorem request_mentioned_by_name (pd : PatternDetector) :
  referencesReqParam pd (Ident (reqParamName pd)) = true /\
  (forall x, referencesReqParam pd (SelectorExpr x (reqParamName pd)) = true) /\
  (forall x sel, referencesReqParam pd x = true ->
     referencesReqParam pd (SelectorExpr x sel) = true) /\
  (forall sp fn args,
     referencesReqParam pd fn = true \/
     (exists arg, In arg args /\ referencesReqParam pd arg = true) ->
     referencesReqParam pd (CallExpr sp fn args) = true) /\
  (forall name, name <> reqParamName pd ->
     referencesReqParam pd (Ident name) = false).
Proof.
  repeat split.
  - apply referencesReqParam_spec. cbn. auto.
  - intros x. apply referencesReqParam_spec. cbn. right.
    apply in_or_app. right. cbn. auto.
  - intros x sel H. apply referencesReqParam_spec in H.
    apply referencesReqParam_spec. cbn. right. apply in_or_app. now left.
  - intros sp fn args [H | (arg & Hin & H)];
      apply referencesReqParam_spec in H; apply referencesReqParam_spec;
      cbn; right; apply in_or_app; [now left | right].
    apply in_flat_map. eauto.
  - intros name Hne. apply not_true_is_false. intros H.
    apply referencesReqParam_spec in H. cbn in H.
    destruct H as [H | []]. injection H as H. congruence.
Qed.

(** X13.  The client-call test passes for every method called on a chain of
    member accesses and member calls that goes through a client-like name,
    such as [r.client.Status().Update]; it passes for each of the six
    client verbs called on any bare identifier; and it fails for a method
    called on the result of [r.M()] when neither [r] is client-like nor
    [M] a client verb, such as [r.Status().Update] on a receiver that
    embeds the client. *)
Theorem client_call_reach (pd : PatternDetector) :
  (forall x, throughClient (isClientIdentifier ToLower pd) x ->
     forall m, isClientCall ToLower pd x m = true) /\
  (forall name verb,
     In verb ["Get"; "List"; "Create"; "Update"; "Delete"; "Patch"] ->
     isClientCall ToLower pd (Ident name) verb = true) /\
  (forall sp r m args verb,
     isClientIdentifier ToLower pd r = false ->
     ~ In m ["Get"; "List"; "Create"; "Update"; "Delete"; "Patch"] ->
     isClientCall ToLower pd (CallExpr sp (SelectorExpr (Ident r) m) args) verb
     = false).
Proof.
  split; [| split].
  - induction 1 as [name H | x sel H | x sel _ IH | sp x sel args _ IH];
      intros m; cbn [isClientCall].
    + now rewrite H.
    + now rewrite H.
    + rewrite IH. now destruct (isClientIdentifier ToLower pd sel).
    + apply IH.
  - intros name verb Hv. cbn [isClientCall].
    destruct (isClientIdentifier ToLower pd name); [reflexivity |].
    destruct Hv as [<- | [<- | [<- | [<- | [<- | [<- | []]]]]]]; reflexivity.
  - intros sp r m args verb Hr Hm. cbn [isClientCall]. rewrite Hr.
    repeat match goal with
    | |- context [(m =? ?v)] =>
        let E := fresh in
        destruct (m =? v) eqn:E;
          [apply String.eqb_eq in E; subst; cbn in Hm; tauto |]
    end.
    reflexivity.
Qed.

End Rules.

(** *** Nodes inside nodes *)

Lemma list_all_In {A : Type} (P : A -> Prop) (l : list A) :
  ast.list_all A P l -> forall x, In x l -> P x.
Proof.
  induction 1 as [| a Ha l _ IH]; intros x Hin; [destruct Hin |].
  destruct Hin as [<- | Hin]; auto.
Qed.

Lemma closed_nil : closedNodes [].
Proof. intros n []. Qed.

Lemma closed_app (a b : list node) :
  closedNodes a -> closedNodes b -> closedNodes (a ++ b).
Proof.
  intros Ha Hb n Hn k Hk. apply in_app_iff in Hn. apply in_app_iff.
  destruct Hn as [Hn | Hn]; [left; eapply Ha | right; eapply Hb]; eauto.
Qed.

Lemma closed_flat_map {T : Type} (pre : T -> list node) (l : list T) :
  ast.list_all T (fun x => closedNodes (pre x)) l ->
  closedNodes (flat_map pre l).
Proof.
  intros H n Hn k Hk. apply in_flat_map in Hn. destruct Hn as (x & Hx & Hn).
  apply in_flat_map. exists x. split; [exact Hx |].
  eapply (list_all_In _ _ H); eauto.
Qed.

Lemma closed_option {T : Type} (pre : T -> list node) (o : option T) :
  ast.option_all T (fun x => closedNodes (pre x)) o ->
  closedNodes (match o with Some x => pre x | None => [] end).
Proof. destruct 1; first [apply closed_nil | assumption]. Qed.

Lemma closed_cons (n0 : node) (rest : list node) :
  preorderNode n0 = n0 :: rest -> closedNodes rest ->
  closedNodes (n0 :: rest).
Proof.
  intros Hpre Hrest n [<- | Hn] k Hk.
  - now rewrite Hpre in Hk.
  - right. eapply Hrest; eauto.
Qed.

Lemma closed_ident (name : string) : closedNodes [NExpr (Ident name)].
Proof. apply closed_cons; [reflexivity | apply closed_nil]. Qed.

(** A node of a node of a tree is a node of the tree. *)
Lemma preorder_closed :
  (forall e, closedNodes (preorderExpr e)) /\
  (forall st, closedNodes (preorderStmt st)) /\
  (forall b, closedNodes (preorderBlock b)) /\
  (forall n, closedNodes (preorderNode n)).
Proof.
  apply ast_mutind; intros;
    cbn [preorderExpr preorderStmt preorderBlock preorderNode];
    try assumption;
    (apply closed_cons; [reflexivity |]);
    repeat first
      [ apply closed_nil | apply closed_ident | assumption
      | apply closed_app
      | apply closed_flat_map; assumption
      | apply (closed_option preorderStmt); assumption
      | apply (closed_option preorderExpr); assumption
      | apply (closed_option preorderBlock); assumption ].
Qed.

Section Both.

Variable ToLower : string -> string.
Variable printerFprint : token.FileSet -> node -> option string.
Variable formatNode : token.FileSet -> node -> option string.

Local Abbreviation detect := (detectNode ToLower printerFprint formatNode).
Local Abbreviation snippet := (extractSnippet printerFprint formatNode).

(** X10.  A client write-verb call inside a loop of the function counts
    twice: the function's signals hold the loop-write signal, +3, of the
    loop and the single-write signal, -1, of the call itself. *)
Theorem write_in_loop_counts_twice (pd : PatternDetector) (fn : FuncDecl)
    (body loopBlock : block) (loop : stmt) (sp : Span) (x : expr)
    (verb : string) (args : list expr) :
  Body fn = Some body ->
  In (NStmt loop) (preorderBlock body) ->
  loopBody loop = Some loopBlock ->
  In (NExpr (CallExpr sp (SelectorExpr x verb) args))
     (preorderBlock loopBlock) ->
  isClientCall ToLower pd x verb = true ->
  In verb ["Create"; "Update"; "Delete"; "Patch"] ->
  let call := NExpr (CallExpr sp (SelectorExpr x verb) args) in
  let signals := DetectPatterns ToLower printerFprint formatNode pd fn in
  In (mkSignal SignalLoopWrite (lineOf pd (NStmt loop)) 3
        (snippet pd (NStmt loop))
        "Loop containing write operations (SoTW pattern)") signals /\
  In (mkSignal SignalSingleWrite (lineOf pd call) (-1) (snippet pd call)
        ("client." ++ verb ++ " call")) signals.
Proof.
  intros Hbody Hloop Hlb Hcall Hclient Hverb call signals.
  assert (Hw : isWriteVerb verb = true)
    by (destruct Hverb as [<- | [<- | [<- | [<- | []]]]]; reflexivity).
  assert (Hinner : In call (preorderStmt loop)).
  { destruct loop as [| | | | lsp i c p b | lsp k v rx b |];
      try discriminate; cbn in Hlb; subst b;
      cbn [preorderStmt]; right; repeat (apply in_or_app; right);
      exact Hcall. }
  assert (Hcall' : In call (preorderBlock body)).
  { destruct preorder_closed as (_ & _ & Hb & _).
    exact (Hb body _ Hloop _ Hinner). }
  split.
  - apply (DetectPatterns_node _ _ _ pd fn body (NStmt loop));
      [exact Hbody | exact Hloop |].
    assert (Hh : hasWriteOperation ToLower pd loopBlock = true).
    { rewrite hasWriteOperation_spec. apply existsb_exists.
      exists call. split; [exact Hcall |]. cbn. now rewrite Hclient, Hw. }
    destruct loop as [| | | | lsp i c p b | lsp k v rx b |];
      try discriminate; cbn in Hlb; subst b;
      cbn [detectNode detectLoopPatterns detectRangeLoopPatterns loopSignals];
      rewrite Hh; left; reflexivity.
  - apply (DetectPatterns_node _ _ _ pd fn body call);
      [exact Hbody | exact Hcall' |].
    unfold call. cbn [detectNode detectCallPatterns]. rewrite Hclient.
    cbn [negb].
    destruct Hverb as [<- | [<- | [<- | [<- | []]]]]; left; reflexivity.
Qed.

End Both.

Import Examples MoreExamples.

Local Abbreviation exDetect :=
  (detectNode strings.ToLowerASCII noRender noRender exPd).

Lemma list_unscoped_rule_witness :
  exDetect (NExpr listAll) =
  [mkSignal SignalListUnscoped 4 3 "<unprintable>"
     "client.List without request-scoped selectors"].
Proof.
  destruct (list_unscoped_rule strings.ToLowerASCII noRender noRender exPd
              (mkSpan 120 140) (Ident "r")
              [Ident "ctx"; addrOf (Ident "pods")])
    as (_ & H); [reflexivity | vm_compute; lia |].
  apply H. reflexivity.
Defined.

Lemma list_label_scoped_rule_witness :
  exDetect (NExpr (CallExpr (mkSpan 120 180) (SelectorExpr (Ident "r") "List")
                     listByLabels)) =
  [mkSignal SignalListLabelScoped 4 0 "<unprintable>"
     "client.List scoped by labels/fields derived from request"].
Proof.
  apply (list_label_scoped_rule strings.ToLowerASCII noRender noRender exPd
           (mkSpan 120 180) (Ident "r") listByLabels).
  - reflexivity.
  - vm_compute. lia.
  - exists labelsOfRequest. split; [cbn; auto | cbn; auto 12].
  - left. intros arg [<- | []]. reflexivity.
Defined.

Lemma get_other_keys_rule_witness :
  exDetect (NExpr (CallExpr (mkSpan 80 118) (SelectorExpr (Ident "r") "Get")
                     [Ident "ctx"; keyFromRequest; addrOf (Ident "cm")])) =
  [mkSignal SignalGetDerived 3 (-1) "<unprintable>"
     "client.Get with key derived from request"] /\
  exDetect (NExpr (CallExpr (mkSpan 80 118) (SelectorExpr (Ident "r") "Get")
                     [Ident "ctx"; Ident "configKey"; addrOf (Ident "cm")])) =
  [mkSignal SignalGetUnrelated 3 1 "<unprintable>"
     "client.Get with key not derived from request"].
Proof.
  split.
  - destruct (get_other_keys_rule strings.ToLowerASCII noRender noRender exPd
                (mkSpan 80 118) (Ident "r") (Ident "ctx") keyFromRequest
                [addrOf (Ident "cm")]) as (H & _);
      [reflexivity | discriminate | discriminate |].
    apply H. cbn. auto 12.
  - destruct (get_other_keys_rule strings.ToLowerASCII noRender noRender exPd
                (mkSpan 80 118) (Ident "r") (Ident "ctx") (Ident "configKey")
                [addrOf (Ident "cm")]) as (_ & H);
      [reflexivity | discriminate | discriminate |].
    apply H. cbn. intros [H' | []]. discriminate H'.
Defined.

Lemma single_write_rule_witness :
  exDetect (NExpr (updateItem 240)) =
  [mkSignal SignalSingleWrite 7 (-1) "<unprintable>" "client.Update call"].
Proof.
  apply (single_write_rule strings.ToLowerASCII noRender noRender exPd
           (mkSpan 240 261) (Ident "r") "Update" [Ident "ctx"; Ident "item"]).
  - reflexivity.
  - cbn. auto.
Defined.

Lemma no_call_signal_rule_witness :
  exDetect (NExpr (CallExpr (mkSpan 0 9) (SelectorExpr (Ident "r") "List")
                     [Ident "ctx"])) = [] /\
  exDetect (NExpr (CallExpr (mkSpan 0 9) (Ident "reconcile") [Ident "ctx"]))
  = [].
Proof.
  split.
  - destruct (no_call_signal_rule strings.ToLowerASCII noRender noRender exPd
                (mkSpan 0 9) (SelectorExpr (Ident "r") "List") [Ident "ctx"])
      as (_ & _ & _ & H & _).
    apply (H (Ident "r")); [reflexivity | cbn; lia].
  - destruct (no_call_signal_rule strings.ToLowerASCII noRender noRender exPd
                (mkSpan 0 9) (Ident "reconcile") [Ident "ctx"]) as (H & _).
    apply H. discriminate.
Defined.

Lemma signals_well_formed_witness :
  In (SignalGetReqScoped, (-1)%Z) emitted /\
  String.length "<unprintable>" <= 203.
Proof.
  destruct (signals_well_formed strings.ToLowerASCII noRender noRender exPd
              (NExpr getPrimary)
              (mkSignal SignalGetReqScoped 3 (-1) "<unprintable>"
                 "client.Get with req.NamespacedName (primary resource fetch)"))
    as (_ & Hk & _ & _ & _ & Hl & _).
  - left. reflexivity.
  - split; [exact Hk | exact Hl].
Defined.

Lemma signals_in_traversal_order_witness :
  DetectPatterns strings.ToLowerASCII noRender noRender exPd fetchAndIgnore =
  flat_map exDetect
    (preorderBlock (Block [ExprStmt getPrimary; ifNotFoundReturnNil])).
Proof.
  destruct (signals_in_traversal_order strings.ToLowerASCII noRender noRender
              exPd fetchAndIgnore) as (_ & H).
  destruct (H (Block [ExprStmt getPrimary; ifNotFoundReturnNil]) eq_refl)
    as (Heq & _).
  exact Heq.
Defined.

Lemma detected_score_exact_witness :
  fst (Classify (DetectPatterns strings.ToLowerASCII noRender noRender exPd
                   listAndUpdateAll)) = 4%Z.
Proof.
  destruct (detected_score_exact strings.ToLowerASCII noRender noRender exPd
              listAndUpdateAll) as (H & _).
  - vm_compute. reflexivity.
  - rewrite H. reflexivity.
Defined.

Lemma write_in_loop_counts_twice_witness :
  let signals :=
    DetectPatterns strings.ToLowerASCII noRender noRender exPd
      listAndUpdateAll in
  In (mkSignal SignalLoopWrite 6 3 "<unprintable>"
        "Loop containing write operations (SoTW pattern)") signals /\
  In (mkSignal SignalSingleWrite 7 (-1) "<unprintable>" "client.Update call")
     signals.
Proof.
  apply (write_in_loop_counts_twice strings.ToLowerASCII noRender noRender
           exPd listAndUpdateAll
           (Block [ExprStmt listAll; rangeTwoUpdates]) twoUpdates
           rangeTwoUpdates (mkSpan 240 261) (Ident "r") "Update"
           [Ident "ctx"; Ident "item"]).
  - reflexivity.
  - cbn. auto 12.
  - reflexivity.
  - cbn. auto.
  - reflexivity.
  - cbn. auto.
Defined.

Lemma request_mentioned_by_name_witness :
  referencesReqParam exPd (SelectorExpr (SelectorExpr (Ident "obj") "req") "Name")
  = true.
Proof.
  destruct (request_mentioned_by_name exPd) as (_ & Hsel & Hon & _).
  apply Hon. apply (Hsel (Ident "obj")).
Defined.

Lemma client_call_reach_witness :
  isClientCall strings.ToLowerASCII exPd
    (CallExpr (mkSpan 0 0)
       (SelectorExpr (SelectorExpr (Ident "r") "client") "Status") [])
    "Update" = true /\
  isClientCall strings.ToLowerASCII exPd
    (CallExpr (mkSpan 0 0) (SelectorExpr (Ident "r") "Status") [])
    "Update" = false.
Proof.
  destruct (client_call_reach strings.ToLowerASCII exPd) as (Hc & _ & Hn).
  split.
  - apply Hc. apply tc_call. apply tc_here. reflexivity.
  - apply Hn; [reflexivity |].
    cbn. intros [H | [H | [H | [H | [H | [H | []]]]]]]; discriminate H.
Defined.

End DetectorRules.

(** ** The classifier and the finder, further *)

Module ScoreOrder.

Import models analyzer Spec GoInt GoIntFacts ClassifierSum.
Local Open Scope Z_scope.

Lemma mathSum_app (l1 l2 : list Signal) :
  mathSum (l1 ++ l2) = mathSum l1 + mathSum l2.
Proof.
  induction l1 as [| sig l1 IH]; cbn [mathSum fold_right app]; [reflexivity |].
  fold (mathSum (l1 ++ l2)) (mathSum l1). rewrite IH. lia.
Qed.

Lemma mathSum_perm (l l' : list Signal) :
  Permutation l l' -> mathSum l = mathSum l'.
Proof.
  induction 1 as [| sig l l' _ IH | a b l | l l' l'' _ IH1 _ IH2];
    cbn [mathSum fold_right]; try fold (mathSum l) (mathSum l'); lia.
Qed.

Lemma wrap_add_r (a b : Z) : wrap (a + wrap b) = wrap (a + b).
Proof. rewrite Z.add_comm, wrap_add_l. f_equal. lia. Qed.

(** X14.  The score and the label do not depend on the order of the
    signals, and the score of two lists put together is the [int] sum of
    their scores: the signals of the parts of a function can be scored
    apart. *)
Theorem Classify_order_free :
  (forall l l' : list Signal, Permutation l l' -> Classify l = Classify l') /\
  (forall l1 l2 : list Signal,
     fst (Classify (l1 ++ l2))
     = add (fst (Classify l1)) (fst (Classify l2))).
Proof.
  split.
  - intros l l' H. unfold Classify.
    now rewrite !sumScores_wrap, (mathSum_perm l l' H).
  - intros l1 l2. cbn [Classify fst]. rewrite !sumScores_wrap. unfold add.
    now rewrite wrap_add_l, wrap_add_r, mathSum_app.
Qed.

Lemma Classify_order_free_witness :
  Classify [mkSignal SignalLoopWrite 9 3 "" "";
            mkSignal SignalGetReqScoped 3 (-1) "" ""]
  = Classify [mkSignal SignalGetReqScoped 3 (-1) "" "";
              mkSignal SignalLoopWrite 9 3 "" ""].
Proof.
  destruct Classify_order_free as (H & _). apply H. apply perm_swap.
Defined.

End ScoreOrder.

Module FinderMore.

Import ast models analyzer Spec StringsFacts FinderFacts analyzerMore.



(** X16.  A signature matches exactly when it has at least two parameter
    fields and at least two result fields, the types of the first two
    parameters pass the context and the request check, the type of the
    first result passes the result check, and the type of the second
    result is the identifier [error] itself; further parameters and
    results, the names and the body do not matter. *)
Theorem signature_shape (fn : FuncDecl) (pkg : Package) :
  matchesReconcileSignature fn pkg = true <->
  exists p1 p2 ps r1 r2 rs,
    Params (FType fn) = Some (p1 :: p2 :: ps) /\
    Results (FType fn) = Some (r1 :: r2 :: rs) /\
    isContextType (ast.Type_ p1) pkg = true /\
    isRequestType (ast.Type_ p2) pkg = true /\
    isResultType (ast.Type_ r1) pkg = true /\
    ast.Type_ r2 = Ident "error".
Proof.
  unfold matchesReconcileSignature. split.
  - destruct (Params (FType fn)) as [[| p1 [| p2 ps]] |]; try discriminate.
    destruct (Results (FType fn)) as [[| r1 [| r2 rs]] |]; try discriminate.
    cbn [List.length Nat.ltb Nat.leb].
    destruct (isContextType (ast.Type_ p1) pkg) eqn:E1; [| discriminate].
    destruct (isRequestType (ast.Type_ p2) pkg) eqn:E2; [| discriminate].
    destruct (isResultType (ast.Type_ r1) pkg) eqn:E3; [| discriminate].
    cbn [negb]. unfold isErrorType.
    destruct (ast.Type_ r2) as [name | | | |] eqn:E4; try discriminate.
    destruct (name =? "error") eqn:E5; [| discriminate].
    apply String.eqb_eq in E5. subst name. intros _.
    exists p1, p2, ps, r1, r2, rs. repeat split; assumption.
  - intros (p1 & p2 & ps & r1 & r2 & rs & -> & -> & E1 & E2 & E3 & E4).
    cbn [List.length Nat.ltb Nat.leb]. rewrite E1, E2, E3. cbn [negb].
    unfold isErrorType. now rewrite E4.
Qed.

(** X17.  The candidates of a list of packages are those of its parts, one
    after the other: packages are searched independently and in the order
    given; no package, no candidate. *)
Theorem finder_by_package (rf : ReconcileFinder) (pkgs1 pkgs2 : list Package) :
  FindReconcileFunctions rf (pkgs1 ++ pkgs2)
  = FindReconcileFunctions rf pkgs1 ++ FindReconcileFunctions rf pkgs2 /\
  FindReconcileFunctions rf [] = [].
Proof.
  split; [| reflexivity].
  now rewrite !FindReconcileFunctions_select, flat_map_app.
Qed.

(** X18.  [ExtractClientFieldName] never answers an empty list: the fields
    whose lower-cased name contains [client], in their order, when there is
    one, and the two default names otherwise, also for a nil type. *)
Theorem client_field_names (ToLower : string -> string)
    (recvType : option (list string)) :
  ExtractClientFieldName ToLower recvType <> [] /\
  (forall fields, recvType = Some fields ->
     let matching :=
       filter (fun name => strings.Contains (ToLower name) "client") fields in
     ExtractClientFieldName ToLower recvType =
     if (List.length matching =? 0)%nat then ["Client"; "client"]
     else matching) /\
  (recvType = None ->
   ExtractClientFieldName ToLower recvType = ["Client"; "client"]).
Proof.
  assert (Hfold : forall fields acc,
    fold_left (fun candidates fieldName =>
      if strings.Contains (ToLower fieldName) "client"
      then candidates ++ [fieldName] else candidates) fields acc
    = acc ++ filter (fun name => strings.Contains (ToLower name) "client")
               fields).
  { induction fields as [| f fields IH]; intros acc; cbn [fold_left filter].
    - now rewrite app_nil_r.
    - rewrite IH. destruct (strings.Contains (ToLower f) "client");
        [now rewrite <- app_assoc | reflexivity]. }
  assert (Heq : forall fields,
    ExtractClientFieldName ToLower (Some fields) =
    if (List.length
          (filter (fun name => strings.Contains (ToLower name) "client")
             fields) =? 0)%nat
    then ["Client"; "client"]
    else filter (fun name => strings.Contains (ToLower name) "client") fields).
  { intros fields. unfold ExtractClientFieldName. now rewrite Hfold. }
  split; [| split].
  - destruct recvType as [fields |]; [| discriminate].
    rewrite Heq.
    destruct (filter _ fields) as [| x l]; cbn; discriminate.
  - intros fields ->. apply Heq.
  - now intros ->.
Qed.

Lemma client_field_names_witness :
  ExtractClientFieldName strings.ToLowerASCII
    (Some ["Scheme"; "KubeClient"; "Log"]) = ["KubeClient"] /\
  ExtractClientFieldName strings.ToLowerASCII (Some ["Scheme"; "Log"])
  = ["Client"; "client"].
Proof.
  split.
  - destruct (client_field_names strings.ToLowerASCII
                (Some ["Scheme"; "KubeClient"; "Log"])) as (_ & H & _).
    rewrite (H _ eq_refl). reflexivity.
  - destruct (client_field_names strings.ToLowerASCII
                (Some ["Scheme"; "Log"])) as (_ & H & _).
    rewrite (H _ eq_refl). reflexivity.
Defined.

End FinderMore.

(** ** Snippets, further *)

Module SnippetMore.

Import ast models analyzer Spec strings StringsFacts SnippetFacts analyzerMore.

(** *** Fields of joined fields *)

Lemma spaceFree_tail (c : ascii) (f : list ascii) :
  spaceFree (c :: f) -> spaceFree f.
Proof. intros H a b Heq. apply (H (c :: a) b). cbn. now rewrite Heq. Qed.

Lemma fields_run (f : list ascii) :
  forall cur tail, spaceFree f -> lowHead tail ->
    fieldsFrom 0 cur (f ++ tail) = fieldsFrom 0 (cur ++ f) tail.
Proof.
  induction f as [| c f IH]; intros cur tail Hf Ht; cbn [app].
  - now rewrite app_nil_r.
  - cbn [fieldsFrom].
    change (c :: f ++ tail) with ((c :: f) ++ tail).
    rewrite (spaceFree_app_low (c :: f) tail Hf ltac:(discriminate) Ht).
    rewrite IH; [| now apply spaceFree_tail in Hf | exact Ht].
    now rewrite <- app_assoc.
Qed.

(** Splitting what was joined gives the fields back. *)
Lemma fields_of_join (fs : list (list ascii)) :
  Forall goodField fs -> fieldsFrom 0 [] (joinBytes fs) = fs.
Proof.
  induction fs as [| f rest IH]; intros Hfs; [reflexivity |].
  pose proof (Forall_inv Hfs) as (Hne & Hfree).
  pose proof (Forall_inv_tail Hfs) as Hrest.
  destruct rest as [| g rest'].
  - cbn [joinBytes]. rewrite <- (app_nil_r f) at 1.
    rewrite fields_run; [| exact Hfree | exact I].
    cbn [app fieldsFrom]. destruct f; [congruence | reflexivity].
  - change (joinBytes (f :: g :: rest'))
      with (f ++ " "%char :: joinBytes (g :: rest')).
    rewrite fields_run; [| exact Hfree | exact low_space].
    cbn [app fieldsFrom spaceWidth]. cbn [asciiSpace].
    change (asciiSpace " "%char) with true. cbn iota.
    rewrite (IH Hrest). destruct f; [congruence | reflexivity].
Qed.

(** *** [TrimSpace] on normal text *)

Lemma trimLeft_id (l : list ascii) :
  spaceWidth l = 0 -> trimLeftFrom 0 l = l.
Proof. intros H. destruct l as [| c l]; cbn [trimLeftFrom]; now rewrite ?H. Qed.

Lemma trimRight_id (fuel : nat) (l : list ascii) :
  trailingSpaceWidth l = 0 -> trimRightN fuel l = l.
Proof. intros H. destruct fuel; cbn [trimRightN]; now rewrite ?H. Qed.

Lemma normalized_head (l : list ascii) : normalized l -> spaceWidth l = 0.
Proof.
  intros H. destruct (Nat.eq_dec (spaceWidth l) 0) as [E | E]; [exact E |].
  destruct (H [] l eq_refl ltac:(lia)) as (Hne & _). congruence.
Qed.

Lemma normalized_suffix (l : list ascii) (k : nat) :
  normalized l -> k <= List.length l ->
  spaceWidth (skipn (List.length l - k) l) = k -> k = 0.
Proof.
  intros H Hk Hw. destruct k as [| k]; [reflexivity |]. exfalso.
  set (b := skipn (List.length l - S k) l) in *.
  assert (Hlen : List.length b = S k)
    by (unfold b; rewrite length_skipn; lia).
  destruct (H (firstn (List.length l - S k) l) b) as (_ & b' & Hb & Hb' & _).
  - unfold b. symmetry. apply firstn_skipn.
  - lia.
  - rewrite Hb in Hw. cbn [spaceWidth] in Hw.
    change (asciiSpace " "%char) with true in Hw. cbn iota in Hw.
    injection Hw as <-. rewrite Hb in Hlen. cbn in Hlen.
    destruct b'; [congruence | cbn in Hlen; lia].
Qed.

Lemma suffix_width_not (l : list ascii) (k : nat) :
  normalized l -> 0 < k ->
  ((k <=? List.length l) && (spaceWidth (skipn (List.length l - k) l) =? k))%nat
  = false.
Proof.
  intros H Hk.
  destruct (Nat.leb_spec k (List.length l)) as [Hle | Hgt]; [| reflexivity].
  cbn [andb]. apply Nat.eqb_neq. intros E.
  apply (normalized_suffix l k H Hle) in E. lia.
Qed.

Lemma normalized_tail (l : list ascii) :
  normalized l -> trailingSpaceWidth l = 0.
Proof.
  intros H. unfold trailingSpaceWidth.
  rewrite (suffix_width_not l 1 H ltac:(lia)).
  rewrite (suffix_width_not l 2 H ltac:(lia)).
  now rewrite (suffix_width_not l 3 H ltac:(lia)).
Qed.

Lemma TrimSpace_id (l : list ascii) :
  normalized l -> TrimSpace (string_of_list_ascii l) = string_of_list_ascii l.
Proof.
  intros H. unfold TrimSpace. rewrite list_ascii_of_string_of_list_ascii.
  rewrite (trimLeft_id l (normalized_head l H)).
  now rewrite (trimRight_id _ l (normalized_tail l H)).
Qed.

(** The normal form of a normal form is itself. *)
Lemma Join_Fields_id (text : string) :
  let t := Join (Fields (TrimSpace text)) " " in
  Join (Fields (TrimSpace t)) " " = t.
Proof.
  intros t. unfold t, Fields at 2.
  set (fs := fieldsFrom 0 [] (list_ascii_of_string (TrimSpace text))).
  assert (Hfs : Forall goodField fs) by apply Fields_good.
  assert (Ht : Join (map string_of_list_ascii fs) " "
               = string_of_list_ascii (joinBytes fs)).
  { rewrite <- (string_of_list_ascii_of_string
                  (Join (map string_of_list_ascii fs) " ")).
    now rewrite list_of_Join. }
  rewrite Ht, (TrimSpace_id _ (normalized_join fs Hfs)).
  unfold Fields. rewrite list_ascii_of_string_of_list_ascii.
  now rewrite (fields_of_join fs Hfs).
Qed.

(** X19.  Tidying a snippet twice changes nothing when the first result was
    not cut: [truncateSnippet] leaves its own results of at most 200 bytes
    as they are. *)
Theorem truncateSnippet_idempotent (text : string) :
  String.length (Join (Fields (TrimSpace text)) " ") <= 200 ->
  truncateSnippet (truncateSnippet text) = truncateSnippet text.
Proof.
  intros Hlen.
  assert (E : truncateSnippet text = Join (Fields (TrimSpace text)) " ").
  { unfold truncateSnippet.
    destruct (Nat.ltb_spec 200
                (String.length (Join (Fields (TrimSpace text)) " ")));
      [lia | reflexivity]. }
  rewrite E. unfold truncateSnippet at 1.
  rewrite (Join_Fields_id text).
  destruct (Nat.ltb_spec 200
              (String.length (Join (Fields (TrimSpace text)) " ")));
    [lia | reflexivity].
Qed.

Lemma truncateSnippet_idempotent_witness :
  truncateSnippet (truncateSnippet Examples.getSource)
  = truncateSnippet Examples.getSource.
Proof.
  apply truncateSnippet_idempotent. vm_compute.
  repeat constructor.
Defined.

Section Source.

Variable printerFprint : token.FileSet -> node -> option string.
Variable formatNode : token.FileSet -> node -> option string.

(** X20.  [ExtractSnippetFromSource] on the detector's file set and bytes
    gives the detector's own snippet whenever the bytes are there and the
    node's offsets select a slice of them; in every other case it gives the
    empty text, where the detector renders the node instead. *)
Theorem snippet_from_source (pd : PatternDetector) (n : node) :
  (sliceable pd n ->
   ExtractSnippetFromSource (fset pd) n (fileData pd)
   = extractSnippet printerFprint formatNode pd n) /\
  (~ sliceable pd n ->
   ExtractSnippetFromSource (fset pd) n (fileData pd) = "").
Proof.
  split.
  - intros (data & Hd & H0 & Hlt & Hle).
    rewrite (extractSnippet_slice printerFprint formatNode pd n data
               Hd H0 Hlt Hle).
    unfold ExtractSnippetFromSource, truncateSnippet. rewrite Hd.
    destruct (Nat.eqb_spec (String.length data) 0); [lia |].
    destruct (Z.ltb_spec (token.Offset (fset pd (Pos (spanOf n)))) 0);
      [lia |].
    destruct (Z.ltb_spec (Z.of_nat (String.length data))
                (token.Offset (fset pd (End_ (spanOf n))))); [lia |].
    destruct (Z.leb_spec (token.Offset (fset pd (End_ (spanOf n))))
                (token.Offset (fset pd (Pos (spanOf n))))); [lia |].
    reflexivity.
  - intros Hno. unfold ExtractSnippetFromSource.
    destruct (fileData pd) as [data |] eqn:Hd; [| reflexivity].
    destruct (String.length data =? 0)%nat; [reflexivity |].
    destruct (Z.ltb_spec (token.Offset (fset pd (Pos (spanOf n)))) 0);
      [reflexivity |].
    destruct (Z.ltb_spec (Z.of_nat (String.length data))
                (token.Offset (fset pd (End_ (spanOf n)))));
      [reflexivity |].
    destruct (Z.leb_spec (token.Offset (fset pd (End_ (spanOf n))))
                (token.Offset (fset pd (Pos (spanOf n))))); [reflexivity |].
    exfalso. apply Hno. exists data. repeat split; auto; lia.
Qed.

End Source.

Lemma snippet_from_source_witness :
  ExtractSnippetFromSource (fset Examples.srcPd) Examples.getInSource
    (fileData Examples.srcPd)
  = "r.Get(ctx, req.NamespacedName, &pod)" /\
  ExtractSnippetFromSource (fset Examples.exPd) Examples.getInSource
    (fileData Examples.exPd) = "".
Proof.
  split.
  - destruct (snippet_from_source Examples.noRender Examples.noRender
                Examples.srcPd Examples.getInSource) as (H & _).
    rewrite H; [reflexivity |].
    exists Examples.getSource.
    split; [reflexivity |]. vm_compute. repeat split; discriminate.
  - destruct (snippet_from_source Examples.noRender Examples.noRender
                Examples.exPd Examples.getInSource) as (_ & H).
    apply H. intros (data & Hd & _). discriminate Hd.
Defined.

End SnippetMore.

(** ** Repository URLs *)

Module UrlFacts.

Import strings stringsMore StringsFacts analyzerMore MoreSpec.
Local Open Scope string_scope.

(** *** Counting a byte *)

Lemma countChar_app (c : ascii) (a b : string) :
  countChar c (a ++ b) = countChar c a + countChar c b.
Proof. induction a as [| d a IH]; simpl; [reflexivity | rewrite IH; lia]. Qed.

Lemma countChar_substring (c : ascii) (s : string) :
  forall n m, countChar c (substring n m s) <= countChar c s.
Proof.
  induction s as [| d s IH]; intros n m.
  - destruct n, m; simpl; lia.
  - destruct n as [| n]; [destruct m as [| m] |]; simpl.
    + lia.
    + specialize (IH 0 m). lia.
    + specialize (IH n m). lia.
Qed.

(** *** Trimming *)

Lemma substring_prefix_of (s x : string) :
  substring 0 (String.length s) (s ++ x) = s.
Proof. induction s as [| c s IH]; simpl; [now destruct x | now rewrite IH]. Qed.

Lemma TrimPrefix_app (p s : string) : TrimPrefix (p ++ s) p = s.
Proof.
  unfold TrimPrefix, HasPrefix.
  rewrite (proj2 (prefix_spec p (p ++ s))) by now exists s.
  rewrite length_append, Nat.add_comm, Nat.add_sub, substring_skip.
  apply substring_all.
Qed.

Lemma TrimPrefix_count (c : ascii) (s p : string) :
  countChar c s < countChar c p -> TrimPrefix s p = s.
Proof.
  intros H. unfold TrimPrefix, HasPrefix.
  destruct (String.prefix p s) eqn:E; [| reflexivity].
  apply prefix_spec in E as (rest & ->). rewrite countChar_app in H. lia.
Qed.

Lemma TrimPrefix_le (c : ascii) (s p : string) :
  countChar c (TrimPrefix s p) <= countChar c s.
Proof.
  unfold TrimPrefix. destruct (HasPrefix s p); [| lia].
  apply countChar_substring.
Qed.

Lemma TrimSuffix_app (s x : string) : TrimSuffix (s ++ x) x = s.
Proof.
  unfold TrimSuffix.
  rewrite (proj2 (HasSuffix_spec (s ++ x) x)) by now exists s.
  rewrite length_append, Nat.add_sub. apply substring_prefix_of.
Qed.

Lemma TrimSuffix_le (c : ascii) (s x : string) :
  countChar c (TrimSuffix s x) <= countChar c s.
Proof.
  unfold TrimSuffix. destruct (HasSuffix s x); [| lia].
  apply countChar_substring.
Qed.

Lemma TrimSuffix_none (s x : string) :
  HasSuffix s x = false -> TrimSuffix s x = s.
Proof. intros H. unfold TrimSuffix. now rewrite H. Qed.

(** A suffix of [a/n] is a suffix of [n] or reaches over the slash. *)
Lemma suffix_over_slash (a n x : string) :
  HasSuffix (a ++ String "/" n) x = true ->
  HasSuffix n x = true \/ exists a', x = a' ++ String "/" n.
Proof.
  induction a as [| c a IH]; intros H.
  - apply HasSuffix_spec in H as (b & H). destruct b as [| d b].
    + right. exists "". simpl in *. now rewrite H.
    + left. apply HasSuffix_spec. exists b. simpl in H. now injection H.
  - apply HasSuffix_spec in H as (b & H). destruct b as [| d b].
    + right. exists (String c a). simpl in *. now rewrite H.
    + apply IH, HasSuffix_spec. exists b. simpl in H. now injection H.
Qed.

Lemma no_suffix_over_slash (a n x : string) :
  HasSuffix n x = false ->
  String.length x <= String.length n ->
  HasSuffix (a ++ String "/" n) x = false.
Proof.
  intros Hn Hlen.
  destruct (HasSuffix (a ++ String "/" n) x) eqn:E; [| reflexivity].
  apply suffix_over_slash in E as [E | (a' & ->)]; [congruence |].
  rewrite length_append in Hlen. simpl in Hlen. lia.
Qed.

Lemma no_suffix_slash_free (a n x : string) :
  HasSuffix n x = false ->
  countChar "/" x = 0 ->
  HasSuffix (a ++ String "/" n) x = false.
Proof.
  intros Hn Hx.
  destruct (HasSuffix (a ++ String "/" n) x) eqn:E; [| reflexivity].
  apply suffix_over_slash in E as [E | (a' & ->)]; [congruence |].
  rewrite countChar_app in Hx. simpl in Hx. lia.
Qed.

Lemma slash_free_end (n : string) :
  countChar "/" n = 0 -> HasSuffix n "/" = false.
Proof.
  intros H. destruct (HasSuffix n "/") eqn:E; [| reflexivity].
  apply HasSuffix_spec in E as (b & ->).
  rewrite countChar_app in H. simpl in H. lia.
Qed.

(** *** Splitting at slashes *)

Lemma prefix_slash (c : ascii) (s : string) :
  String.prefix "/" (String c s) = Ascii.eqb "/" c.
Proof.
  change (String.prefix "/" (String c s))
    with (if ascii_dec "/" c then String.prefix "" s else false).
  destruct (ascii_dec "/" c) as [<- | Hne].
  - now destruct s.
  - symmetry. now apply Ascii.eqb_neq.
Qed.

Lemma splitFrom_step (cur : string) (c : ascii) (s : string) :
  splitFrom "/" 0 cur (String c s)
  = if Ascii.eqb "/" c then cur :: splitFrom "/" 0 "" s
    else splitFrom "/" 0 (cur ++ String c "") s.
Proof. cbn [splitFrom]. now rewrite prefix_slash. Qed.

Lemma splitFrom_length (s : string) :
  forall cur, List.length (splitFrom "/" 0 cur s) = 1 + countChar "/" s.
Proof.
  induction s as [| c s IH]; intros cur; [reflexivity |].
  rewrite splitFrom_step. cbn [countChar].
  destruct (Ascii.eqb "/" c); cbn [List.length]; rewrite IH; lia.
Qed.

Lemma splitFrom_run (a : string) :
  forall cur rest, countChar "/" a = 0 ->
    splitFrom "/" 0 cur (a ++ rest) = splitFrom "/" 0 (cur ++ a) rest.
Proof.
  induction a as [| c a IH]; intros cur rest H.
  - now rewrite append_nil_r.
  - cbn [append]. rewrite splitFrom_step. cbn [countChar] in H.
    destruct (Ascii.eqb "/" c); [lia |].
    rewrite IH by lia. now rewrite append_assoc.
Qed.

Lemma splitFrom_last (a n : string) :
  countChar "/" n = 0 ->
  forall cur,
    splitFrom "/" 0 cur (a ++ String "/" n)
    = (splitFrom "/" 0 cur a ++ [n])%list.
Proof.
  intros Hn. induction a as [| c a IH]; intros cur.
  - cbn [append]. rewrite splitFrom_step. cbn [Ascii.eqb Bool.eqb andb].
    rewrite <- (append_nil_r n) at 1.
    rewrite (splitFrom_run n "" "" Hn). reflexivity.
  - cbn [append]. rewrite !splitFrom_step.
    destruct (Ascii.eqb "/" c); [cbn [app]; now rewrite IH | apply IH].
Qed.

Lemma splitFrom_slash_free (s : string) :
  forall cur, countChar "/" cur = 0 ->
    Forall (fun p => countChar "/" p = 0) (splitFrom "/" 0 cur s).
Proof.
  induction s as [| c s IH]; intros cur Hc.
  - now constructor.
  - rewrite splitFrom_step. destruct (Ascii.eqb "/" c) eqn:E.
    + constructor; [exact Hc | now apply IH].
    + apply IH. rewrite countChar_app. cbn [countChar]. rewrite E. lia.
Qed.

Lemma Split_two (owner name : string) :
  countChar "/" owner = 0 -> countChar "/" name = 0 ->
  Split (owner ++ String "/" name) "/" = [owner; name].
Proof.
  intros Ho Hn. unfold Split. rewrite (splitFrom_last owner name Hn).
  rewrite <- (append_nil_r owner) at 1.
  now rewrite (splitFrom_run owner "" "" Ho).
Qed.

(** *** [ParseRepoURL] *)

Lemma trim_hosts (host rest : string) :
  In host hosts -> countChar "/" rest <= 2 ->
  TrimPrefix (TrimPrefix (host ++ rest) "https://github.com/")
    "http://github.com/" = rest.
Proof.
  intros [<- | [<- | [<- | []]]] Hr.
  - rewrite TrimPrefix_app. apply (TrimPrefix_count "/"). simpl. lia.
  - change (TrimPrefix ("http://github.com/" ++ rest) "https://github.com/")
      with ("http://github.com/" ++ rest).
    apply TrimPrefix_app.
  - cbn [append].
    rewrite (TrimPrefix_count "/" rest "https://github.com/") by (simpl; lia).
    apply (TrimPrefix_count "/"). simpl. lia.
Qed.

Lemma trim_endings (owner name ending : string) :
  countChar "/" name = 0 -> name <> "" ->
  HasSuffix name ".git" = false ->
  In ending endings ->
  TrimSuffix (TrimSuffix ((owner ++ String "/" name) ++ ending) ".git") "/"
  = owner ++ String "/" name.
Proof.
  intros Hn Hne Hgit Hin.
  assert (Hslash : HasSuffix (owner ++ String "/" name) "/" = false).
  { apply no_suffix_over_slash; [now apply slash_free_end |].
    destruct name; [congruence | simpl; lia]. }
  destruct Hin as [<- | [<- | [<- | []]]].
  - rewrite append_nil_r.
    rewrite (TrimSuffix_none (owner ++ String "/" name) ".git")
      by now apply no_suffix_slash_free.
    now apply TrimSuffix_none.
  - rewrite TrimSuffix_app. now apply TrimSuffix_none.
  - rewrite (TrimSuffix_none (_ ++ "/") ".git").
    + apply TrimSuffix_app.
    + change ((owner ++ String "/" name) ++ "/")
        with ((owner ++ String "/" name) ++ String "/" "").
      now apply no_suffix_slash_free.
Qed.

(** X21.  [ParseRepoURL] recovers owner and name from a GitHub URL: with
    or without the host ([https://github.com/], [http://github.com/]),
    with or without a final [.git] or [/], provided neither part contains a
    slash, the name is not empty and does not itself end in [.git]. *)
Theorem ParseRepoURL_github (owner name host ending : string) :
  countChar "/" owner = 0 ->
  countChar "/" name = 0 ->
  name <> "" ->
  HasSuffix name ".git" = false ->
  In host hosts -> In ending endings ->
  ParseRepoURL (host ++ (owner ++ String "/" name) ++ ending) = (owner, name).
Proof.
  intros Ho Hn Hne Hgit Hh He. unfold ParseRepoURL.
  rewrite trim_hosts; [| exact Hh |].
  - rewrite (trim_endings owner name ending Hn Hne Hgit He).
    now rewrite (Split_two owner name Ho Hn).
  - rewrite !countChar_app. cbn [countChar Ascii.eqb Bool.eqb andb].
    destruct He as [<- | [<- | [<- | []]]]; simpl; lia.
Qed.

Lemma ParseRepoURL_github_witness :
  ParseRepoURL "https://github.com/cert-manager/cert-manager.git"
  = ("cert-manager", "cert-manager").
Proof.
  apply (ParseRepoURL_github "cert-manager" "cert-manager"
           "https://github.com/" ".git");
    try reflexivity; try discriminate; simpl; auto.
Defined.

(** X22.  Neither text [ParseRepoURL] returns contains a slash, and a URL
    without any slash gives two empty texts. *)
Theorem ParseRepoURL_slash_free (url : string) :
  countChar "/" (fst (ParseRepoURL url)) = 0 /\
  countChar "/" (snd (ParseRepoURL url)) = 0 /\
  (countChar "/" url = 0 -> ParseRepoURL url = ("", "")).
Proof.
  unfold ParseRepoURL.
  set (t := TrimSuffix (TrimSuffix (TrimPrefix (TrimPrefix url _) _) _) _).
  assert (Hle : countChar "/" t <= countChar "/" url).
  { unfold t.
    etransitivity; [apply TrimSuffix_le |].
    etransitivity; [apply TrimSuffix_le |].
    etransitivity; [apply TrimPrefix_le |]. apply TrimPrefix_le. }
  pose proof (splitFrom_slash_free t "" eq_refl) as Hall.
  pose proof (splitFrom_length t "") as Hlen.
  change (splitFrom "/" 0 "" t) with (Split t "/") in Hall, Hlen.
  destruct (Split t "/") as [| o [| n rest]].
  - repeat split; reflexivity.
  - repeat split; reflexivity.
  - repeat split.
    + now inversion Hall.
    + inversion Hall as [| ? ? _ Hn]. now inversion Hn.
    + intros H0. cbn [List.length] in Hlen. lia.
Qed.

Lemma ParseRepoURL_slash_free_witness :
  ParseRepoURL "cert-manager" = ("", "").
Proof.
  destruct (ParseRepoURL_slash_free "cert-manager") as (_ & _ & H).
  apply H. reflexivity.
Defined.

(** *** [CloneRepo] *)

Section Clone.

Variable statExists : string -> bool.
Variable mkdirAll : string -> option string.
Variable filepathJoin : list string -> string.
Variable filepathDir : string -> string.

(** X23.  [CloneRepo] stops with a run-time panic (index out of range)
    exactly when the URL, without a final [.git], contains no slash. *)
Theorem CloneRepo_panics (a : Analyzer) (repoURL : string) :
  CloneRepo statExists mkdirAll filepathJoin filepathDir a repoURL = Panic
  <-> countChar "/" (TrimSuffix repoURL ".git") = 0.
Proof.
  unfold CloneRepo.
  set (t := TrimSuffix repoURL ".git").
  pose proof (splitFrom_length t "") as Hlen.
  change (splitFrom "/" 0 "" t) with (Split t "/") in Hlen.
  destruct (nth_error (Split t "/") (List.length (Split t "/") - 1))
    as [repoName |] eqn:E1.
  - destruct (Nat.ltb_spec (List.length (Split t "/")) 2) as [Hlt | Hge].
    + split; [lia | reflexivity].
    + destruct (nth_error (Split t "/") (List.length (Split t "/") - 2))
        as [ownerName |] eqn:E2.
      * split; [| lia].
        destruct (statExists _); [discriminate |].
        destruct (mkdirAll _); discriminate.
      * apply nth_error_None in E2. lia.
  - apply nth_error_None in E1. lia.
Qed.

(** X24.  For a URL that ends in [/owner/name] or [/owner/name.git],
    whatever comes before, [CloneRepo] works on the directory
    [workDir/owner/name]: it returns that path when it exists or when its
    parent directory could be made, and the error of [os.MkdirAll]
    otherwise. *)
Theorem CloneRepo_path (a : Analyzer) (before owner name ending : string) :
  countChar "/" owner = 0 ->
  countChar "/" name = 0 ->
  HasSuffix name ".git" = false ->
  ending = "" \/ ending = ".git" ->
  let url := ((before ++ String "/" owner) ++ String "/" name) ++ ending in
  let localPath := filepathJoin [workDir a; owner; name] in
  CloneRepo statExists mkdirAll filepathJoin filepathDir a url
  = if statExists localPath then Ok localPath
    else match mkdirAll (filepathDir localPath) with
         | Some e => Err ("failed to create directory: " ++ e)
         | None => Ok localPath
         end.
Proof.
  intros Ho Hn Hgit He url localPath. unfold CloneRepo.
  assert (Ht : TrimSuffix url ".git"
               = (before ++ String "/" owner) ++ String "/" name).
  { unfold url. destruct He as [-> | ->].
    - rewrite append_nil_r. apply TrimSuffix_none.
      now apply no_suffix_slash_free.
    - apply TrimSuffix_app. }
  rewrite Ht. unfold Split.
  rewrite (splitFrom_last _ name Hn), (splitFrom_last _ owner Ho).
  rewrite <- app_assoc. cbn [app].
  set (pre := splitFrom "/" 0 "" before).
  rewrite length_app. cbn [List.length].
  replace (List.length pre + 2 - 1) with (List.length pre + 1) by lia.
  replace (List.length pre + 2 - 2) with (List.length pre + 0) by lia.
  rewrite !nth_error_app2 by lia.
  replace (List.length pre + 1 - List.length pre) with 1 by lia.
  replace (List.length pre + 0 - List.length pre) with 0 by lia.
  cbn [nth_error].
  destruct (Nat.ltb_spec (List.length pre + 2) 2); [lia | reflexivity].
Qed.

End Clone.

Lemma CloneRepo_path_witness :
  CloneRepo (fun _ => true) (fun _ => None)
    (fun parts => Join parts "/") (fun p => p)
    (NewAnalyzer "./repos" false)
    "https://github.com/cert-manager/cert-manager.git"
  = Ok "./repos/cert-manager/cert-manager".
Proof.
  apply (CloneRepo_path (fun _ => true) (fun _ => None)
           (fun parts => Join parts "/") (fun p => p)
           (NewAnalyzer "./repos" false)
           "https://github.com" "cert-manager" "cert-manager" ".git");
    try reflexivity. now right.
Defined.

End UrlFacts.

(** ** The analyzer's driver *)

Module AnalyzeFacts.

Import ast models analyzer stringsMore analyzerMore MoreSpec.
Local Open Scope string_scope.

Lemma fold_keep {A : Type} (drop : A -> bool) (l : list A) :
  forall init,
    fold_left (fun acc x => if drop x then acc else (acc ++ [x])%list) l init
    = (init ++ filter (fun x => negb (drop x)) l)%list.
Proof.
  induction l as [| x l IH]; intros init; cbn [fold_left filter].
  - now rewrite app_nil_r.
  - rewrite IH. destruct (drop x); cbn [negb]; [reflexivity |].
    now rewrite <- app_assoc.
Qed.

Section Driver.

Variable ToLower : string -> string.
Variable printerFprint : token.FileSet -> node -> option string.
Variable formatNode : token.FileSet -> node -> option string.
Variable packagesLoad : string -> outcome (list Loaded).
Variable filepathRel : string -> string -> option string.
Variable readFile : string -> option string.
Variable declSpan : FuncDecl -> Span.

Local Abbreviation analyzeFunc :=
  (analyzeReconcileFunc ToLower printerFprint formatNode filepathRel readFile
     declSpan).
Local Abbreviation analyzeRepo :=
  (AnalyzeRepo ToLower printerFprint formatNode packagesLoad filepathRel
     readFile declSpan).

(** [analyzeReconcileFunc] has no failing path. *)
Lemma analyzeFunc_ok (a : Analyzer) (repo : modelsMore.Repository)
    (fset : token.FileSet) (f : ReconcileFunc) :
  exists r,
    analyzeFunc a f repo fset = Ok r /\ wellFormed r /\
    modelsMore.ReceiverType r = ReceiverType f /\
    modelsMore.ReceiverPkg r = ReceiverPkg f.
Proof.
  unfold analyzeReconcileFunc.
  destruct (Classify _) as (score, classification) eqn:E.
  eexists. split; [reflexivity |]. cbn.
  repeat split; auto.
Qed.

Lemma loadPackages_filter (a : Analyzer) (path : string)
    (loaded : list Loaded) :
  packagesLoad path = Ok loaded ->
  loadPackages packagesLoad a path
  = Ok (filter (fun p => negb (broken p)) loaded).
Proof.
  intros H. unfold loadPackages. rewrite H. f_equal.
  exact (fold_keep broken loaded []).
Qed.

(** X25.  [AnalyzeRepo] fails exactly when [packages.Load] fails or every
    package it loaded is broken (has errors and no syntax); in every other
    case it returns one record for each function [FindReconcileFunctions]
    finds in the packages that are not broken, in the same order and with
    the same receiver. *)
Theorem AnalyzeRepo_outcome (a : Analyzer) (repo : modelsMore.Repository) :
  match packagesLoad (modelsMore.LocalPath repo) with
  | Panic => analyzeRepo a repo = Panic
  | Err e => analyzeRepo a repo = Err ("failed to load packages: " ++ e)
  | Ok loaded =>
      let valid := filter (fun p => negb (broken p)) loaded in
      if forallb broken loaded
      then analyzeRepo a repo = Err "no packages found in repository"
      else
        exists rs,
          analyzeRepo a repo = Ok rs /\
          map (fun r => (modelsMore.ReceiverType r, modelsMore.ReceiverPkg r))
            rs
          = map (fun f => (ReceiverType f, ReceiverPkg f))
              (FindReconcileFunctions (NewReconcileFinder (fsetOf valid))
                 (map package valid))
  end.
Proof.
  destruct (packagesLoad (modelsMore.LocalPath repo)) as [loaded | e |] eqn:E.
  - pose proof (loadPackages_filter a _ loaded E) as Hl.
    cbv zeta.
    assert (Hv : forallb broken loaded = true
                 <-> filter (fun p => negb (broken p)) loaded = []).
    { clear. induction loaded as [| p l IH]; cbn.
      - tauto.
      - destruct (broken p); cbn; [exact IH | split; discriminate]. }
    remember (filter (fun p => negb (broken p)) loaded) as valid eqn:Ev.
    clear Ev. unfold AnalyzeRepo. rewrite Hl.
    destruct (forallb broken loaded).
    + now rewrite (proj1 Hv eq_refl).
    + assert (Hne : (List.length valid =? 0)%nat = false).
      { destruct valid; [discriminate (proj2 Hv eq_refl) | reflexivity]. }
      rewrite Hne.
      change (match valid with
              | first :: _ => match Fset first with
                              | Some fs => fs
                              | None => emptyFileSet
                              end
              | [] => emptyFileSet
              end) with (fsetOf valid).
      eexists. split; [reflexivity |].
      generalize (FindReconcileFunctions (NewReconcileFinder (fsetOf valid))
                    (map package valid)) as fs.
      assert (Hgen : forall fs init,
        map (fun r => (modelsMore.ReceiverType r, modelsMore.ReceiverPkg r))
          (fold_left (fun results recFunc =>
             match analyzeFunc a recFunc repo (fsetOf valid) with
             | Ok reconciler => (results ++ [reconciler])%list
             | _ => results
             end) fs init)
        = (map (fun r => (modelsMore.ReceiverType r,
                          modelsMore.ReceiverPkg r)) init
           ++ map (fun f => (ReceiverType f, ReceiverPkg f)) fs)%list).
      { induction fs as [| f fs IH]; intros init; cbn [fold_left map].
        - now rewrite app_nil_r.
        - destruct (analyzeFunc_ok a repo (fsetOf valid) f)
            as (r & Hr & _ & Ht & Hp).
          rewrite Hr, IH, map_app. cbn [map]. rewrite Ht, Hp.
          now rewrite <- app_assoc. }
      intros fs. exact (Hgen fs []).
  - unfold AnalyzeRepo, loadPackages. now rewrite E.
  - unfold AnalyzeRepo, loadPackages. now rewrite E.
Qed.

(** X26.  Every record [AnalyzeRepo] returns carries the score and the
    class [Classify] gives for its own signals, an identifier made of
    repository, file and line, and leaves the watched types, the finalizer
    flag and the full source unset. *)
Theorem AnalyzeRepo_records (a : Analyzer) (repo : modelsMore.Repository)
    (rs : list modelsMore.Reconciler) :
  analyzeRepo a repo = Ok rs -> Forall wellFormed rs.
Proof.
  unfold AnalyzeRepo.
  destruct (loadPackages _ _ _) as [pkgs | e |]; try discriminate.
  destruct (List.length pkgs =? 0)%nat; [discriminate |].
  intros H. injection H as <-.
  set (fset := match pkgs with [] => _ | _ => _ end).
  assert (Hgen : forall fs init, Forall wellFormed init ->
    Forall wellFormed
      (fold_left (fun results recFunc =>
         match analyzeFunc a recFunc repo fset with
         | Ok reconciler => (results ++ [reconciler])%list
         | _ => results
         end) fs init)).
  { induction fs as [| f fs IH]; intros init Hinit; cbn [fold_left].
    - exact Hinit.
    - destruct (analyzeFunc_ok a repo fset f) as (r & Hr & Hw & _).
      rewrite Hr. apply IH, Forall_app. split; [exact Hinit |].
      now constructor. }
  apply Hgen. constructor.
Qed.

End Driver.

Lemma AnalyzeRepo_records_witness :
  exists rs,
    AnalyzeRepo strings.ToLowerASCII Examples.noRender Examples.noRender
      MoreExamples.exLoad (fun _ p => Some p) (fun _ => None)
      (fun _ => mkSpan 0 0) (NewAnalyzer "repos" false) MoreExamples.exRepo
    = Ok rs /\
    List.length rs = 1 /\ Forall wellFormed rs.
Proof.
  eexists. split; [vm_compute; reflexivity |].
  split; [reflexivity |].
  apply (AnalyzeRepo_records strings.ToLowerASCII Examples.noRender
           Examples.noRender MoreExamples.exLoad (fun _ p => Some p)
           (fun _ => None) (fun _ => mkSpan 0 0) (NewAnalyzer "repos" false)
           MoreExamples.exRepo).
  vm_compute. reflexivity.
Defined.

End AnalyzeFacts.

(** ** The summary *)

Module OutputFacts.

Import models modelsMore analyzerMore output MoreSpec GoInt GoIntFacts.

(** *** Slices by index *)

Lemma nth_error_mid {A : Type} (pre : list A) (x : A) (t : list A) :
  nth_error (pre ++ x :: t) (List.length pre) = Some x.
Proof. induction pre as [| p pre IH]; [reflexivity | exact IH]. Qed.

Lemma assign_mid {A : Type} (pre : list A) (x v : A) (t : list A) :
  assign (pre ++ x :: t) (List.length pre) v = pre ++ v :: t.
Proof.
  induction pre as [| p pre IH]; [reflexivity |].
  cbn [app List.length assign]. now rewrite IH.
Qed.

(** *** The order *)

Lemma ordered_refl (h : bool) (a : Reconciler) : ordered h a a.
Proof. unfold ordered. destruct h; lia. Qed.

Lemma ordered_trans (h : bool) (a b c : Reconciler) :
  ordered h a b -> ordered h b c -> ordered h a c.
Proof. unfold ordered. destruct h; lia. Qed.

Lemma better_ordered (h : bool) (y x : Reconciler) :
  better h y x = true -> ordered h y x.
Proof. unfold better, ordered. destruct h; lia. Qed.

Lemma not_better_ordered (h : bool) (y x : Reconciler) :
  better h y x = false -> ordered h x y.
Proof. unfold better, ordered. destruct h; lia. Qed.

(** *** One turn of the outer loop *)

Lemma select_length (h : bool) (t : list Reconciler) :
  forall x, List.length (snd (select h x t)) = List.length t.
Proof.
  induction t as [| y t IH]; intros x; cbn [select]; [reflexivity |].
  destruct (better h y x); cbn [snd List.length]; now rewrite IH.
Qed.

Lemma select_perm (h : bool) (t : list Reconciler) :
  forall x,
    Permutation (x :: t) (fst (select h x t) :: snd (select h x t)).
Proof.
  induction t as [| y t IH]; intros x; cbn [select]; [reflexivity |].
  destruct (better h y x); cbn [fst snd].
  - apply perm_trans with (x :: fst (select h y t) :: snd (select h y t));
      [constructor; apply IH | apply perm_swap].
  - apply perm_trans with (y :: x :: t); [apply perm_swap |].
    apply perm_trans with (y :: fst (select h x t) :: snd (select h x t));
      [constructor; apply IH | apply perm_swap].
Qed.

Lemma select_best (h : bool) (t : list Reconciler) :
  forall x,
    ordered h (fst (select h x t)) x /\
    Forall (ordered h (fst (select h x t))) (snd (select h x t)).
Proof.
  induction t as [| y t IH]; intros x; cbn [select].
  - split; [apply ordered_refl | constructor].
  - destruct (better h y x) eqn:E; cbn [fst snd].
    + destruct (IH y) as (Hy & Hr).
      assert (Hx : ordered h (fst (select h y t)) x)
        by (eapply ordered_trans; [exact Hy | now apply better_ordered]).
      split; [exact Hx | now constructor].
    + destruct (IH x) as (Hx & Hr).
      split; [exact Hx |]. constructor; [| exact Hr].
      eapply ordered_trans; [exact Hx | now apply not_better_ordered].
Qed.

Lemma nth_error_mid2 {A : Type} (pre : list A) (a : A) (done : list A)
    (y : A) (rest : list A) :
  nth_error (pre ++ a :: done ++ y :: rest)
    (List.length pre + 1 + List.length done) = Some y.
Proof.
  change (pre ++ a :: done ++ y :: rest)
    with (pre ++ (a :: done) ++ y :: rest).
  rewrite app_assoc.
  replace (List.length pre + 1 + List.length done)
    with (List.length (pre ++ a :: done))
    by (rewrite length_app; cbn [List.length]; lia).
  apply nth_error_mid.
Qed.

Lemma assign_mid2 {A : Type} (pre : list A) (a : A) (done : list A)
    (y v : A) (rest : list A) :
  assign (pre ++ a :: done ++ y :: rest)
    (List.length pre + 1 + List.length done) v
  = pre ++ a :: done ++ v :: rest.
Proof.
  change (pre ++ a :: done ++ y :: rest)
    with (pre ++ (a :: done) ++ y :: rest).
  rewrite app_assoc.
  replace (List.length pre + 1 + List.length done)
    with (List.length (pre ++ a :: done))
    by (rewrite length_app; cbn [List.length]; lia).
  rewrite assign_mid. now rewrite <- app_assoc.
Qed.

(** The body of the inner loop, with both indices in range. *)
Lemma exchange_mid (h : bool) (pre : list Reconciler) (x : Reconciler)
    (done : list Reconciler) (y : Reconciler) (rest : list Reconciler) :
  exchange h (pre ++ x :: done ++ y :: rest) (List.length pre)
    (List.length pre + 1 + List.length done)
  = Ok (if better h y x then pre ++ y :: done ++ x :: rest
        else pre ++ x :: done ++ y :: rest).
Proof.
  unfold exchange. rewrite nth_error_mid2, nth_error_mid.
  destruct (better h y x); [| reflexivity].
  now rewrite assign_mid, assign_mid2.
Qed.

(** The inner loop, from the entry at [i] ([x]), the entries already
    passed ([done]) and those to come ([rest]). *)
Lemma innerLoop_select (h : bool) (rest : list Reconciler) :
  forall x done pre,
    innerLoop h (List.length pre) (List.length pre + 1 + List.length done)
      (List.length rest) (pre ++ x :: done ++ rest)
    = Ok (pre ++ fst (select h x rest) :: done ++ snd (select h x rest)).
Proof.
  induction rest as [| y rest IH]; intros x done pre.
  - reflexivity.
  - cbn [innerLoop List.length select]. rewrite exchange_mid.
    assert (Hj : forall z : Reconciler,
      S (List.length pre + 1 + List.length done)
      = List.length pre + 1 + List.length (done ++ [z]))
      by (intros z; rewrite length_app; cbn [List.length]; lia).
    destruct (better h y x); cbn [fst snd].
    + rewrite (Hj x).
      replace (pre ++ y :: done ++ x :: rest)
        with (pre ++ y :: (done ++ [x]) ++ rest)
        by (now rewrite <- app_assoc).
      rewrite IH. now rewrite <- app_assoc.
    + rewrite (Hj y).
      replace (pre ++ x :: done ++ y :: rest)
        with (pre ++ x :: (done ++ [y]) ++ rest)
        by (now rewrite <- app_assoc).
      rewrite IH. now rewrite <- app_assoc.
Qed.

(** *** All turns *)

Lemma outerLoop_selectAll (h : bool) (count : nat) :
  forall rest pre,
    List.length rest = count ->
    outerLoop h (List.length pre) count (pre ++ rest)
    = Ok (pre ++ selectAll h count rest).
Proof.
  induction count as [| count IH]; intros rest pre Hlen.
  - destruct rest; [reflexivity | discriminate].
  - destruct rest as [| x t]; [discriminate |].
    cbn [outerLoop selectAll].
    replace (List.length (pre ++ x :: t) - S (List.length pre))
      with (List.length t)
      by (rewrite length_app; cbn [List.length]; lia).
    pose proof (innerLoop_select h t x [] pre) as Hi.
    cbn [List.length app] in Hi. rewrite Nat.add_0_r, Nat.add_1_r in Hi.
    rewrite Hi.
    replace (S (List.length pre))
      with (List.length (pre ++ [fst (select h x t)]))
      by (rewrite length_app; cbn [List.length]; lia).
    replace (pre ++ fst (select h x t) :: snd (select h x t))
      with ((pre ++ [fst (select h x t)]) ++ snd (select h x t))
      by (now rewrite <- app_assoc).
    rewrite IH.
    + now rewrite <- app_assoc.
    + rewrite select_length. cbn [List.length] in Hlen. lia.
Qed.

Lemma selectAll_perm (h : bool) (count : nat) :
  forall l, List.length l = count -> Permutation l (selectAll h count l).
Proof.
  induction count as [| count IH]; intros l Hlen.
  - destruct l; [constructor | discriminate].
  - destruct l as [| x t]; [discriminate |]. cbn [selectAll].
    rewrite (select_perm h t x). constructor. apply IH.
    rewrite select_length. cbn [List.length] in Hlen. lia.
Qed.

Lemma selectAll_sorted (h : bool) (count : nat) :
  forall l, List.length l = count ->
    StronglySorted (ordered h) (selectAll h count l).
Proof.
  induction count as [| count IH]; intros l Hlen.
  - destruct l; constructor.
  - destruct l as [| x t]; [discriminate |]. cbn [selectAll].
    assert (Hr : List.length (snd (select h x t)) = count)
      by (rewrite select_length; cbn [List.length] in Hlen; lia).
    constructor; [now apply IH |].
    eapply Permutation_Forall; [apply (selectAll_perm h count _ Hr) |].
    apply select_best.
Qed.

Lemma sorted_app (h : bool) (a b : list Reconciler) :
  StronglySorted (ordered h) (a ++ b) ->
  StronglySorted (ordered h) a /\
  Forall (fun r => Forall (fun t => ordered h t r) a) b.
Proof.
  induction a as [| x a IH]; cbn [app]; intros H.
  - split; [constructor |]. apply Forall_forall. intros; constructor.
  - inversion H as [| ? ? Hs Hall]; subst.
    destruct (IH Hs) as (Ha & Hb). apply Forall_app in Hall as (Hxa & Hxb).
    split; [now constructor |].
    rewrite Forall_forall in *. intros r Hr. constructor; auto.
Qed.

Lemma outerLoop_sorts (h : bool) (rs : list Reconciler) :
  exists sorted,
    outerLoop h 0 (List.length rs) rs = Ok sorted /\
    Permutation rs sorted /\ StronglySorted (ordered h) sorted.
Proof.
  exists (selectAll h (List.length rs) rs). split; [| split].
  - exact (outerLoop_selectAll h (List.length rs) rs [] eq_refl).
  - now apply selectAll_perm.
  - now apply selectAll_sorted.
Qed.

(** [getTopByScore] cuts the sorted slice. *)
Lemma getTopByScore_firstn (rs : list Reconciler) (n : Z) (h : bool) :
  (0 <= n)%Z ->
  exists sorted,
    Permutation rs sorted /\ StronglySorted (ordered h) sorted /\
    getTopByScore rs n h
    = Ok (firstn (Z.to_nat (Z.min n (Z.of_nat (List.length rs)))) sorted).
Proof.
  intros Hn. destruct (outerLoop_sorts h rs) as (sorted & E & Hp & Hs).
  exists sorted. split; [exact Hp |]. split; [exact Hs |].
  unfold getTopByScore. rewrite E.
  pose proof (Permutation_length Hp) as Hlen.
  set (k := if (n >? Z.of_nat (List.length sorted))%Z
            then Z.of_nat (List.length sorted) else n).
  assert (Hk : k = Z.min n (Z.of_nat (List.length rs))).
  { unfold k. destruct (Z.gtb_spec n (Z.of_nat (List.length sorted))); lia. }
  destruct (Z.ltb_spec k 0); [lia |]. now rewrite Hk.
Qed.

(** X27.  [getTopByScore] with a count that is not negative returns the
    [min(n, len)] entries that come first when the records are put in
    order of their scores (falling for [highest], rising otherwise): the
    result is in that order, together with the records left out it is a
    rearrangement of the input, and no record left out would come before
    one that was kept.  It never indexes out of range. *)
Theorem getTopByScore_top (rs : list Reconciler) (n : Z) (highest : bool) :
  (0 <= n)%Z ->
  exists top rest,
    getTopByScore rs n highest = Ok top /\
    Permutation rs (top ++ rest) /\
    Z.of_nat (List.length top) = Z.min n (Z.of_nat (List.length rs)) /\
    StronglySorted (ordered highest) top /\
    Forall (fun r => Forall (fun t => ordered highest t r) top) rest.
Proof.
  intros Hn.
  destruct (getTopByScore_firstn rs n highest Hn) as (sorted & Hp & Hs & E).
  pose proof (Permutation_length Hp) as Hlen.
  set (k := Z.to_nat (Z.min n (Z.of_nat (List.length rs)))) in *.
  exists (firstn k sorted), (skipn k sorted).
  split; [exact E |].
  rewrite firstn_skipn. split; [exact Hp |].
  split; [rewrite length_firstn; lia |].
  apply sorted_app. now rewrite firstn_skipn.
Qed.

(** X28.  Asked for a negative count, [getTopByScore] stops with a
    run-time panic (slice bounds out of range), whatever the records. *)
Theorem getTopByScore_negative (rs : list Reconciler) (n : Z)
    (highest : bool) :
  (n < 0)%Z -> getTopByScore rs n highest = Panic.
Proof.
  intros Hn. destruct (outerLoop_sorts highest rs) as (sorted & E & _).
  unfold getTopByScore. rewrite E.
  destruct (Z.gtb_spec n (Z.of_nat (List.length sorted))); [lia |].
  destruct (Z.ltb_spec n 0); [reflexivity | lia].
Qed.

Lemma getTopByScore_negative_witness :
  getTopByScore [] (-1) true = Panic.
Proof. apply getTopByScore_negative. lia. Defined.

Lemma getTopByScore_top_witness :
  exists top rest,
    getTopByScore
      [mkReconciler "a" "" "" 0 0 "" "" 1 "" [] [] false "";
       mkReconciler "b" "" "" 0 0 "" "" 5 "" [] [] false "";
       mkReconciler "c" "" "" 0 0 "" "" (-2) "" [] [] false ""] 2 true
    = Ok top /\
    Permutation
      [mkReconciler "a" "" "" 0 0 "" "" 1 "" [] [] false "";
       mkReconciler "b" "" "" 0 0 "" "" 5 "" [] [] false "";
       mkReconciler "c" "" "" 0 0 "" "" (-2) "" [] [] false ""]
      (top ++ rest) /\
    Z.of_nat (List.length top) = Z.min 2 (Z.of_nat 3) /\
    StronglySorted (ordered true) top /\
    Forall (fun r => Forall (fun t => ordered true t r) top) rest.
Proof. apply getTopByScore_top. lia. Defined.

(** *** Counting *)

Lemma lookup_increment (k k' : string) (m : counts) :
  lookup k (increment k' m)
  = if String.eqb k k' then add (lookup k m) 1 else lookup k m.
Proof.
  induction m as [| (k0, v) m IH]; cbn [increment lookup].
  - destruct (String.eqb k k'); reflexivity.
  - destruct (String.eqb_spec k' k0) as [-> | Hne]; cbn [lookup].
    + destruct (String.eqb k k0); reflexivity.
    + destruct (String.eqb_spec k k0) as [-> | Hne'].
      * destruct (String.eqb_spec k0 k'); [congruence | reflexivity].
      * exact IH.
Qed.

Lemma keys_increment (k : string) (m : counts) :
  forall k', In k' (map fst (increment k m)) <-> k' = k \/ In k' (map fst m).
Proof.
  induction m as [| (k0, v) m IH]; intros k'; cbn [increment map fst In].
  - intuition auto.
  - destruct (String.eqb_spec k k0) as [-> | Hne]; cbn [map fst In].
    + intuition auto.
    + rewrite IH. intuition auto.
Qed.

Lemma NoDup_increment (k : string) (m : counts) :
  NoDup (map fst m) -> NoDup (map fst (increment k m)).
Proof.
  induction m as [| (k0, v) m IH]; cbn [increment map fst]; intros H.
  - repeat constructor. intros [].
  - inversion H as [| ? ? Hn Hd]; subst.
    destruct (String.eqb_spec k k0) as [-> | Hne]; cbn [map fst].
    + now constructor.
    + constructor; [| now apply IH].
      rewrite keys_increment. intros [-> | Hin]; [congruence | contradiction].
Qed.

Lemma tallyKeys_lookup (k : string) (ks : list string) :
  forall m, in_range (lookup k m) ->
    lookup k (tallyKeys ks m)
    = wrap (lookup k m + Z.of_nat (count_occ string_dec ks k)).
Proof.
  unfold tallyKeys.
  induction ks as [| k' ks IH]; intros m Hm; cbn [fold_left count_occ].
  - rewrite Z.add_0_r. symmetry. now apply wrap_small.
  - rewrite IH; rewrite lookup_increment.
    + destruct (string_dec k' k) as [-> | Hne].
      * rewrite String.eqb_refl. unfold add. rewrite wrap_add_l.
        f_equal. lia.
      * destruct (String.eqb_spec k k'); [congruence | reflexivity].
    + destruct (String.eqb k k'); [apply wrap_in_range | exact Hm].
Qed.

Lemma tallyKeys_keys (ks : list string) :
  forall m k, In k (map fst (tallyKeys ks m)) <-> In k ks \/ In k (map fst m).
Proof.
  unfold tallyKeys.
  induction ks as [| k' ks IH]; intros m k; cbn [fold_left In].
  - intuition auto.
  - rewrite IH, keys_increment. intuition auto.
Qed.

Lemma tallyKeys_NoDup (ks : list string) :
  forall m, NoDup (map fst m) -> NoDup (map fst (tallyKeys ks m)).
Proof.
  unfold tallyKeys.
  induction ks as [| k' ks IH]; intros m H; cbn [fold_left]; [exact H |].
  now apply IH, NoDup_increment.
Qed.

Lemma tallyKeys_app (a b : list string) (m : counts) :
  tallyKeys (a ++ b) m = tallyKeys b (tallyKeys a m).
Proof. unfold tallyKeys. apply fold_left_app. Qed.

Lemma fold_signals (sigs : list Signal) (m : counts) :
  fold_left (fun m sig => increment (Type_ sig) m) sigs m
  = tallyKeys (map Type_ sigs) m.
Proof.
  unfold tallyKeys. revert m.
  induction sigs as [| s sigs IH]; intros m; [reflexivity | apply IH].
Qed.

(** The loop of [GenerateSummary], map by map. *)
Lemma tally_maps (rs : list Reconciler) :
  forall t,
    byClassification (fold_left tally rs t)
    = tallyKeys (map Classification rs) (byClassification t) /\
    byRepo (fold_left tally rs t)
    = tallyKeys (map Repo rs) (byRepo t) /\
    signalFrequency (fold_left tally rs t)
    = tallyKeys (flat_map (fun r => map Type_ (Signals r)) rs)
        (signalFrequency t).
Proof.
  induction rs as [| r rs IH]; intros t; cbn [fold_left map flat_map].
  - repeat split; reflexivity.
  - destruct (IH (tally t r)) as (Hc & Hr & Hs).
    rewrite Hc, Hr, Hs, tallyKeys_app. cbn [tally byClassification byRepo
      signalFrequency]. now rewrite fold_signals.
Qed.

Lemma tally_total (rs : list Reconciler) :
  forall t, in_range (totalScore t) ->
    totalScore (fold_left tally rs t)
    = wrap (totalScore t + fold_right Z.add 0%Z (map Score rs)).
Proof.
  induction rs as [| r rs IH]; intros t Ht; cbn [fold_left map fold_right].
  - rewrite Z.add_0_r. symmetry. now apply wrap_small.
  - rewrite IH by apply wrap_in_range.
    cbn [tally totalScore]. unfold add. rewrite wrap_add_l. f_equal. lia.
Qed.

Lemma firstn_incl {A : Type} (k : nat) (l : list A) : incl (firstn k l) l.
Proof.
  intros x Hx. rewrite <- (firstn_skipn k l). apply in_or_app. now left.
Qed.

Section Summaries.

Variable float64 : Type.
Variable zero : float64.
Variable ofInt : Z -> float64.
Variable div : float64 -> float64 -> float64.

Local Abbreviation generate := (GenerateSummary float64 zero ofInt div).
Local Abbreviation topSoTW := (TopSoTW float64).
Local Abbreviation topEdge := (TopEdge float64).

(** X29.  [GenerateSummary] has a result for every count asked for: the
    guard [topN > 0] keeps [getTopByScore] from a negative bound.  Both
    top lists hold [min(max(topN, 0), len)] of the records given, the one
    with scores falling, the other with scores rising. *)
Theorem GenerateSummary_top_lists (rs : list Reconciler) (topN : Z) :
  exists s,
    generate rs topN = Ok s /\
    TotalReconcilers float64 s = Z.of_nat (List.length rs) /\
    Z.of_nat (List.length (topSoTW s))
    = Z.min (Z.max topN 0) (Z.of_nat (List.length rs)) /\
    Z.of_nat (List.length (topEdge s))
    = Z.min (Z.max topN 0) (Z.of_nat (List.length rs)) /\
    StronglySorted (ordered true) (topSoTW s) /\
    StronglySorted (ordered false) (topEdge s) /\
    incl (topSoTW s) rs /\ incl (topEdge s) rs.
Proof.
  unfold GenerateSummary. destruct (Z.gtb_spec topN 0) as [Hpos | Hle].
  - destruct (getTopByScore_firstn rs topN true ltac:(lia))
      as (hi & Hpi & Hsi & ->).
    destruct (getTopByScore_firstn rs topN false ltac:(lia))
      as (lo & Hpl & Hsl & ->).
    pose proof (Permutation_length Hpi) as Hli.
    pose proof (Permutation_length Hpl) as Hll.
    eexists. split; [reflexivity |]. cbn [TotalReconcilers TopSoTW TopEdge].
    set (k := Z.to_nat (Z.min topN (Z.of_nat (List.length rs)))).
    repeat split.
    + rewrite length_firstn. lia.
    + rewrite length_firstn. lia.
    + apply (sorted_app true (firstn k hi) (skipn k hi)).
      now rewrite firstn_skipn.
    + apply (sorted_app false (firstn k lo) (skipn k lo)).
      now rewrite firstn_skipn.
    + intros x Hx. apply (Permutation_in x (Permutation_sym Hpi)).
      now apply (firstn_incl k hi).
    + intros x Hx. apply (Permutation_in x (Permutation_sym Hpl)).
      now apply (firstn_incl k lo).
  - eexists. split; [reflexivity |]. cbn [TotalReconcilers TopSoTW TopEdge].
    repeat split; try (cbn [List.length]; lia); try constructor;
      intros x [].
Qed.

(** X30.  In the summary every map counts what its name says: a
    classification, a repository or a signal type is a key exactly when
    it occurs among the records (their signals), each key is there once,
    and the number under a key is the number of its occurrences, as an
    [int].  The average is taken from the sum of the scores as an [int],
    and is the zero value when there is no record. *)
Theorem GenerateSummary_counts (rs : list Reconciler) (topN : Z)
    (s : Summary float64) :
  generate rs topN = Ok s ->
  let classes := map Classification rs in
  let repos := map Repo rs in
  let types := flat_map (fun r => map Type_ (Signals r)) rs in
  let counted (m : counts) (ks : list string) :=
    NoDup (map fst m) /\
    forall k,
      (In k (map fst m) <-> In k ks) /\
      lookup k m = wrap (Z.of_nat (count_occ string_dec ks k)) in
  counted (ByClassification float64 s) classes /\
  counted (ByRepo float64 s) repos /\
  counted (SignalFrequency float64 s) types /\
  AverageScore float64 s
  = match rs with
    | [] => zero
    | _ :: _ =>
        div (ofInt (wrap (fold_right Z.add 0%Z (map Score rs))))
          (ofInt (Z.of_nat (List.length rs)))
    end.
Proof.
  intros H. cbv zeta.
  assert (Hcount : forall ks,
    NoDup (map fst (tallyKeys ks [])) /\
    forall k,
      (In k (map fst (tallyKeys ks [])) <-> In k ks) /\
      lookup k (tallyKeys ks [])
      = wrap (Z.of_nat (count_occ string_dec ks k))).
  { intros ks. split; [apply tallyKeys_NoDup; constructor |].
    intros k. split.
    - rewrite tallyKeys_keys. cbn [map In]. tauto.
    - rewrite tallyKeys_lookup; [reflexivity |].
      cbn [lookup]. unfold in_range, min_int, max_int. lia. }
  destruct (tally_maps rs (mkTallies [] [] [] 0)) as (Hc & Hr & Hs).
  pose proof (tally_total rs (mkTallies [] [] [] 0)) as Ht.
  cbn [byClassification byRepo signalFrequency totalScore] in Hc, Hr, Hs, Ht.
  rewrite Z.add_0_l in Ht.
  specialize (Ht ltac:(unfold in_range, min_int, max_int; lia)).
  assert (Hs' :
    ByClassification float64 s = tallyKeys (map Classification rs) [] /\
    ByRepo float64 s = tallyKeys (map Repo rs) [] /\
    SignalFrequency float64 s
    = tallyKeys (flat_map (fun r => map Type_ (Signals r)) rs) [] /\
    AverageScore float64 s
    = match rs with
      | [] => zero
      | _ :: _ =>
          div (ofInt (wrap (fold_right Z.add 0%Z (map Score rs))))
            (ofInt (Z.of_nat (List.length rs)))
      end).
  { unfold GenerateSummary in H. rewrite Hc, Hr, Hs, Ht in H.
    assert (Havg :
      (if (0 <? List.length rs)%nat
       then div (ofInt (wrap (fold_right Z.add 0%Z (map Score rs))))
              (ofInt (Z.of_nat (List.length rs)))
       else zero)
      = match rs with
        | [] => zero
        | _ :: _ =>
            div (ofInt (wrap (fold_right Z.add 0%Z (map Score rs))))
              (ofInt (Z.of_nat (List.length rs)))
        end) by (destruct rs; reflexivity).
    rewrite Havg in H.
    destruct (topN >? 0)%Z.
    - destruct (getTopByScore rs topN true); try discriminate.
      destruct (getTopByScore rs topN false); try discriminate.
      injection H as <-. repeat split.
    - injection H as <-. repeat split. }
  destruct Hs' as (-> & -> & -> & ->).
  repeat split; apply Hcount.
Qed.

End Summaries.

Lemma GenerateSummary_counts_witness :
  exists s,
    GenerateSummary unit tt (fun _ => tt) (fun _ _ => tt)
      [mkReconciler "a" "x/y" "" 0 0 "" "" 1 "mixed"
         [mkSignal "single_write" 1 1 "" ""] [] false "";
       mkReconciler "b" "x/y" "" 0 0 "" "" 5 "sotw" [] [] false ""] 10
    = Ok s /\
    lookup "x/y" (ByRepo unit s) = 2%Z /\
    lookup "mixed" (ByClassification unit s) = 1%Z.
Proof.
  eexists. split; [vm_compute; reflexivity |].
  match goal with
  | |- lookup _ (ByRepo _ ?s) = _ /\ _ =>
      destruct (GenerateSummary_counts unit tt (fun _ => tt) (fun _ _ => tt)
        [mkReconciler "a" "x/y" "" 0 0 "" "" 1 "mixed"
           [mkSignal "single_write" 1 1 "" ""] [] false "";
         mkReconciler "b" "x/y" "" 0 0 "" "" 5 "sotw" [] [] false ""] 10 s
        ltac:(vm_compute; reflexivity)) as ((_ & Hc) & (_ & Hr) & _)
  end.
  split.
  - rewrite (proj2 (Hr "x/y")). reflexivity.
  - rewrite (proj2 (Hc "mixed")). reflexivity.
Defined.

End OutputFacts.
